(** * modpath-cpp: the migration planner, embedded and verified

    A shallow embedding of [modpath_cpp/planner.py] and [modpath_cpp/cli.py].
    Python integers are [Z]; [str] is [string] (ASCII text; for UTF-8 text the
    byte order agrees with Python's code-point order); a [pathlib.Path] is the
    string of its normalised POSIX spelling; [set] is stdpp's [gset], a [dict]
    whose iteration order matters is an association list in insertion order.
    Whatever the program asks of the operating system or of [pathlib] beyond
    pure string work is a field of the record [Host] or of the record [Runtime]. *)

From Stdlib Require Import ZArith List String Ascii Lia Bool.
From Stdlib Require Import Sorting.Permutation Sorting.Sorted.
From stdpp Require Import gmap strings list pretty.

Open Scope string_scope.
Open Scope Z_scope.
Open Scope list_scope.

(** ** Python primitives *)

Module Py.

(** The double-quote character, the quoted-include delimiter. *)
Definition dquote : ascii := "034"%char.

(** [str.lower] on ASCII text. *)
Definition lower_ascii (c : ascii) : ascii :=
  let n := nat_of_ascii c in
  if ((65 <=? n) && (n <=? 90))%nat then ascii_of_nat (n + 32) else c.

Fixpoint lower (s : string) : string :=
  match s with
  | EmptyString => EmptyString
  | String c s' => String (lower_ascii c) (lower s')
  end.

(** [needle in s] *)
Fixpoint contains (needle s : string) : bool :=
  String.prefix needle s ||
  match s with
  | EmptyString => false
  | String _ s' => contains needle s'
  end.

(** [s.rfind(c)], [None] for Python's [-1]. *)
Fixpoint rfind (c : ascii) (s : string) : option nat :=
  match s with
  | EmptyString => None
  | String a s' =>
      match rfind c s' with
      | Some i => Some (S i)
      | None => if Ascii.eqb a c then Some 0%nat else None
      end
  end.

(** [s[i:]] for [0 <= i]. *)
Fixpoint str_drop (i : nat) (s : string) : string :=
  match i, s with
  | O, _ => s
  | S i', String _ s' => str_drop i' s'
  | S _, EmptyString => EmptyString
  end.

(** [l[:top]]: a negative [top] counts from the end. *)
Definition slice_to {A : Type} (top : Z) (l : list A) : list A :=
  if 0 <=? top then take (Z.to_nat top) l
  else take (length l - Z.to_nat (- top)) l.

(** [l.append(x)], as a new list. *)
Definition append {A : Type} (l : list A) (x : A) : list A := (l ++ [x])%list.

(** [max(lo, min(hi, x))] *)
Definition clamp (lo hi x : Z) : Z := Z.max lo (Z.min hi x).

End Py.

(** ** Paths *)

Abbreviation Path := string.

Module PurePath.

(** The part of [s] after its last [sep], if [sep] occurs. *)
Fixpoint after_last (sep : ascii) (s : string) : option string :=
  match s with
  | EmptyString => None
  | String c s' =>
      match after_last sep s' with
      | Some r => Some r
      | None => if Ascii.eqb c sep then Some s' else None
      end
  end.

(** [PurePath.name]: the final component; the path [.] has none. *)
Definition name (p : Path) : string :=
  if String.eqb p "." then EmptyString
  else match after_last "/"%char p with
       | Some r => r
       | None => p
       end.

(** [PurePath.suffix]:
    [i = name.rfind('.'); name[i:] if 0 < i < len(name) - 1 else ''] *)
Definition suffix (p : Path) : string :=
  let n := name p in
  match Py.rfind "."%char n with
  | Some i =>
      if ((0 <? i) && (i <? String.length n - 1))%nat then Py.str_drop i n
      else EmptyString
  | None => EmptyString
  end.

End PurePath.

(** ** The risk scorer *)

Definition _risk_score (header : Path) (include_frequency macro_count : Z)
    (in_cycle : bool) : Z * list string :=
  let risk := 10 in
  let rationale :=
    ["included " +:+ pretty include_frequency +:+ " time(s) across scanned files"] in
  let '(risk, rationale) :=
    if negb (macro_count =? 0) then
      let macro_penalty := Z.min 55 (macro_count * 5) in
      let risk := risk + macro_penalty in
      if 8 <=? macro_count then
        (risk, Py.append rationale ("macro-heavy: " +:+ pretty macro_count +:+ " #define directives"))
      else
        (risk, Py.append rationale ("contains " +:+ pretty macro_count +:+ " #define directives"))
    else (risk, Py.append rationale ("no #define directives found")) in
  let '(risk, rationale) :=
    if in_cycle then (risk + 30, Py.append rationale ("participates in an include cycle"))
    else (risk, rationale) in
  let '(risk, rationale) :=
    if String.eqb (Py.lower (PurePath.suffix header)) ".h" then
      (risk + 10, Py.append rationale (".h extension may indicate C/C++ mixed usage"))
    else (risk, rationale) in
  let '(risk, rationale) :=
    if include_frequency <=? 1 then
      (risk + 8, Py.append rationale ("low reuse means lower migration payoff"))
    else if 4 <=? include_frequency then
      (Z.max 0 (risk - 6), Py.append rationale ("high reuse improves migration payoff"))
    else (risk, rationale) in
  let risk := Z.max 0 (Z.min 100 risk) in
  (risk, rationale).

Definition _risk_level (score : Z) : string :=
  if score <=? 30 then "low"
  else if score <=? 65 then "medium"
  else "high".

Definition _recommendation (risk_score : Z) (in_cycle : bool) : string :=
  if in_cycle then "refactor include cycle before module migration"
  else if risk_score <=? 30 then "P1 header unit candidate"
  else if risk_score <=? 65 then "P2 named module pilot"
  else "defer until macro usage is reduced".

(** The score as section 4.4 of the specification words it; [ext_is_dot_h]
    says whether the extension penalty applies. *)
Definition spec_risk_formula (ext_is_dot_h : bool)
    (include_frequency macro_count : Z) (in_cycle : bool) : Z :=
  let total :=
    10 + (if 0 <? macro_count then Z.min 55 (macro_count * 5) else 0)
       + (if in_cycle then 30 else 0)
       + (if ext_is_dot_h then 10 else 0) in
  let total :=
    if include_frequency <=? 1 then total + 8
    else if 4 <=? include_frequency then Z.max 0 (total - 6)
    else total in
  Py.clamp 0 100 total.

(** ** Candidates and their ranking *)

Module Candidate.
Record t := mk {
  header : string;
  include_frequency : Z;
  macro_defines : Z;
  in_cycle : bool;
  risk_score : Z;
  risk_level : string;
  recommendation : string;
  rationale : list string;
  suggested_module : option string;
}.
End Candidate.

(** The sort key of [analyze_compile_commands]:
    [(include_frequency * 12 - risk_score, include_frequency, -risk_score, header)] *)
Definition sort_key (candidate : Candidate.t) : Z * Z * Z * string :=
  (Candidate.include_frequency candidate * 12 - Candidate.risk_score candidate,
   Candidate.include_frequency candidate,
   - Candidate.risk_score candidate,
   Candidate.header candidate).

Module Py_sort.

(** [<] on tuples: the first components that differ decide. *)
Definition tuple_lt (a b : Z * Z * Z * string) : bool :=
  let '(a1, a2, a3, a4) := a in
  let '(b1, b2, b3, b4) := b in
  if negb (a1 =? b1) then a1 <? b1
  else if negb (a2 =? b2) then a2 <? b2
  else if negb (a3 =? b3) then a3 <? b3
  else String.ltb a4 b4.

Section Sort.
Context {A : Type} (lt : A -> A -> bool).

(** Put [x] in front of the first element that is not below it. *)
Fixpoint insert_sorted (x : A) (l : list A) : list A :=
  match l with
  | [] => [x]
  | y :: l' => if lt y x then y :: insert_sorted x l' else x :: l
  end.

(** A stable ascending sort: equal elements keep their order. *)
Definition stable_sort (l : list A) : list A :=
  fold_right insert_sorted [] l.

(** [list.sort(reverse=...)]: a reversed sort keeps equal elements in
    their original order, as CPython does, by sorting the reversed list
    and reversing the result. *)
Definition list_sort (reverse : bool) (l : list A) : list A :=
  if reverse then rev (stable_sort (rev l)) else stable_sort l.
End Sort.

End Py_sort.

(** Lines 205-214 of [analyze_compile_commands]: sort, then keep the top. *)
Definition rank_candidates (candidates : list Candidate.t) : list Candidate.t :=
  Py_sort.list_sort
    (fun a b => Py_sort.tuple_lt (sort_key a) (sort_key b)) true candidates.

Definition top_candidates (top : Z) (candidates : list Candidate.t) : list Candidate.t :=
  Py.slice_to top (rank_candidates candidates).

(** The ranking as section 4.5 of the specification words it: [a] may stand
    before [b]. *)
Definition spec_ranks_before (a b : Candidate.t) : Prop :=
  let pa := Candidate.include_frequency a * 12 - Candidate.risk_score a in
  let pb := Candidate.include_frequency b * 12 - Candidate.risk_score b in
  pa > pb \/
  (pa = pb /\
   (Candidate.include_frequency a > Candidate.include_frequency b \/
    (Candidate.include_frequency a = Candidate.include_frequency b /\
     (Candidate.risk_score a < Candidate.risk_score b \/
      (Candidate.risk_score a = Candidate.risk_score b /\
       String.leb (Candidate.header b) (Candidate.header a) = true))))).

(** ** The host: pathlib and the file system *)

(** What opening and reading a text file line by line gives: the lines, or
    an [OSError] raised by [open] or while iterating. *)
Inductive ReadOutcome :=
| ReadLines (lines : list string)
| ReadOSError.

Record Host := {
  (** [Path(s)] *)
  mk_path : string -> Path;
  (** [p.is_absolute()] *)
  is_absolute : Path -> bool;
  (** [p.parent] *)
  parent : Path -> Path;
  (** [a / b] *)
  joinpath : Path -> Path -> Path;
  (** [p.resolve()] *)
  resolve : Path -> Path;
  (** [p.exists()] *)
  path_exists : Path -> bool;
  (** [p.is_file()] *)
  is_file : Path -> bool;
  (** [p.relative_to(root).as_posix()], [None] for its [ValueError] *)
  relative_to : Path -> Path -> option string;
  (** [os.path.commonpath] *)
  commonpath : list string -> string;
  (** [with p.open(errors="ignore") as fp: for line in fp] *)
  read_lines : Path -> ReadOutcome;
}.

(** ** The include resolver *)

Definition QUOTED : string := String Py.dquote EmptyString.
Definition ANGLE : string := "<".

Definition _resolve_include (host : Host) (include_name include_kind : string)
    (including_file : Path) (include_dirs : list Path) : option Path :=
  let include_path := mk_path host include_name in
  if is_absolute host include_path && path_exists host include_path then
    Some (resolve host include_path)
  else
    let candidates : list Path := [] in
    let candidates :=
      if String.eqb include_kind QUOTED then
        Py.append candidates
          (resolve host (joinpath host (parent host including_file) include_path))
      else candidates in
    let candidates :=
      fold_left
        (fun candidates include_dir =>
           Py.append candidates (resolve host (joinpath host include_dir include_path)))
        include_dirs candidates in
    List.find (path_exists host) candidates.

(** ** The cycle detector *)

(** The header graph: a dict in insertion order whose values are sets. *)
Abbreviation Graph := (list (Path * gset Path)).

Definition graph_lookup (graph : Graph) (node : Path) : option (gset Path) :=
  snd <$> List.find (fun kv => String.eqb (fst kv) node) graph.

(** [node in graph] *)
Definition graph_mem (graph : Graph) (node : Path) : bool :=
  bool_decide (is_Some (graph_lookup graph node)).

(** [graph.get(node, set())] *)
Definition graph_get (graph : Graph) (node : Path) : gset Path :=
  default ∅ (graph_lookup graph node).

(** The variables that the closure [dfs] shares. *)
Record DfsState := {
  cycle_nodes : gset Path;
  visited : gset Path;
  on_stack : gset Path;
  stack : list Path;
  position : gmap Path nat;
}.

Section CycleDetector.
(** The order in which a [for] loop runs through a set: Python leaves it
    unspecified (for paths it follows string hashes, which change from one
    interpreter process to the next). *)
Variable iter : gset Path -> list Path.
Variable graph : Graph.

(** Entering [dfs]: lines 513-516. *)
Definition dfs_enter (node : Path) (st : DfsState) : DfsState :=
  {| cycle_nodes := cycle_nodes st;
     visited := {[node]} ∪ visited st;
     on_stack := {[node]} ∪ on_stack st;
     stack := Py.append (stack st) node;
     position := <[node := length (stack st)]> (position st) |}.

(** Leaving [dfs]: lines 528-530. *)
Definition dfs_leave (node : Path) (st : DfsState) : DfsState :=
  {| cycle_nodes := cycle_nodes st;
     visited := visited st;
     on_stack := on_stack st ∖ {[node]};
     stack := removelast (stack st);
     position := delete node (position st) |}.

(** A child that is on the stack: lines 525-526,
    [cycle_nodes.update(stack[position.get(child, 0):])]. *)
Definition flag_segment (child : Path) (st : DfsState) : DfsState :=
  let start := default 0%nat (position st !! child) in
  {| cycle_nodes := cycle_nodes st ∪ list_to_set (drop start (stack st));
     visited := visited st;
     on_stack := on_stack st;
     stack := stack st;
     position := position st |}.

(** The loop over the children, lines 518-526; [rec] is the recursive
    call. *)
Fixpoint visit_children (rec : Path -> DfsState -> option DfsState)
    (children : list Path) (st : DfsState) : option DfsState :=
  match children with
  | [] => Some st
  | child :: rest =>
      if negb (graph_mem graph child) then visit_children rec rest st
      else if negb (bool_decide (child ∈ visited st)) then
        match rec child st with
        | Some st' => visit_children rec rest st'
        | None => None
        end
      else if bool_decide (child ∈ on_stack st) then
        visit_children rec rest (flag_segment child st)
      else visit_children rec rest st
  end.

(** [dfs]; [None] when the recursion is deeper than [fuel]. *)
Fixpoint dfs (fuel : nat) (node : Path) (st : DfsState) : option DfsState :=
  match fuel with
  | O => None
  | S fuel' =>
      match visit_children (dfs fuel') (iter (graph_get graph node))
              (dfs_enter node st) with
      | Some st' => Some (dfs_leave node st')
      | None => None
      end
  end.

(** The loop over the nodes, lines 532-534. *)
Fixpoint visit_roots (fuel : nat) (nodes : list Path) (st : DfsState)
    : option DfsState :=
  match nodes with
  | [] => Some st
  | node :: rest =>
      if negb (bool_decide (node ∈ visited st)) then
        match dfs fuel node st with
        | Some st' => visit_roots fuel rest st'
        | None => None
        end
      else visit_roots fuel rest st
  end.

Definition dfs_init : DfsState :=
  {| cycle_nodes := ∅; visited := ∅; on_stack := ∅; stack := []; position := ∅ |}.

(** The recursion is never deeper than the number of nodes. *)
Definition _detect_cycle_nodes : option (gset Path) :=
  cycle_nodes <$> visit_roots (S (length graph)) (map fst graph) dfs_init.
End CycleDetector.


(** ** Invariants of the cycle detector *)

Definition graph_keys (graph : Graph) : gset Path := list_to_set (map fst graph).

(** What is on the stack has been visited, and [position] records where on
    the stack each such node is. *)
Definition dfs_wf (st : DfsState) : Prop :=
  on_stack st ⊆ visited st /\
  dom (position st) ⊆ on_stack st /\
  forall n, n ∈ on_stack st ->
            exists i, position st !! n = Some i /\ stack st !! i = Some n.

(** A call of [dfs] leaves the stack as it found it and only adds to the
    visited nodes and to the cycle nodes. *)
Definition dfs_extends (st st' : DfsState) : Prop :=
  stack st' = stack st /\
  on_stack st' = on_stack st /\
  position st' = position st /\
  visited st ⊆ visited st' /\
  cycle_nodes st ⊆ cycle_nodes st'.

(** What the loop over the children asks of the recursive call. *)
Definition dfs_call_ok (rec : Path -> DfsState -> option DfsState) : Prop :=
  forall c s s', rec c s = Some s' -> c ∉ visited s -> dfs_wf s ->
                 dfs_extends s s' /\ c ∈ visited s'.


(** ** Exceptions *)

(** The exceptions that the program raises or lets through. [OSError]
    stands for the ones that are not a [FileNotFoundError];
    [JSONDecodeError] also stands for the [UnicodeDecodeError] of an input
    that is not UTF-8, a [ValueError] like it. *)
Inductive Exc :=
| FileNotFoundError (msg : string)
| JSONDecodeError (msg : string)
| ValueError (msg : string)
| TypeError (msg : string)
| OSError (msg : string).

(** A call returns, raises, or is still running when the fuel is spent. *)
Inductive outcome (A : Type) :=
| Ok (a : A)
| Raise (e : Exc)
| OutOfFuel.
Arguments Ok {A} a.
Arguments Raise {A} e.
Arguments OutOfFuel {A}.

#[global] Instance outcome_ret : MRet outcome := @Ok.
#[global] Instance outcome_bind : MBind outcome :=
  fun A B f m =>
    match m with
    | Ok a => f a
    | Raise e => Raise e
    | OutOfFuel => OutOfFuel
    end.

(** ** The compile database *)

(** What [json.load] returns. Of a float the planner only asks whether it
    is zero. *)
#[warnings="-register-all"]
Inductive JSON :=
| JNull
| JBool (b : bool)
| JInt (n : Z)
| JFloat (is_zero : bool)
| JStr (s : string)
| JList (items : list JSON)
| JDict (fields : list (string * JSON)).

Module PyValue.
(** [bool(v)] *)
Definition truthy (v : JSON) : bool :=
  match v with
  | JNull => false
  | JBool b => b
  | JInt n => negb (n =? 0)
  | JFloat is_zero => negb is_zero
  | JStr s => negb (String.eqb s EmptyString)
  | JList items => match items with [] => false | _ => true end
  | JDict fields => match fields with [] => false | _ => true end
  end.

(** [d.get(key)]: [None] for a key that is absent. *)
Definition get (key : string) (d : list (string * JSON)) : JSON :=
  default JNull (snd <$> List.find (fun kv => String.eqb (fst kv) key) d).

(** The fields of [entry] when [isinstance(entry, dict)]. *)
Definition dict_fields (entry : JSON) : option (list (string * JSON)) :=
  match entry with
  | JDict fields => Some fields
  | _ => None
  end.
End PyValue.

(** What opening the database and [json.load] give. *)
Inductive LoadOutcome :=
| LoadOpenFails (msg : string)
| LoadDecodeFails (msg : string)
| LoadPayload (payload : JSON).

(** What the interpreter provides beyond the file system. *)
Record Runtime := {
  (** [path.open()] followed by [json.load(fp)] *)
  load_json : Path -> LoadOutcome;
  (** [shlex.split], [None] for its [ValueError] *)
  shlex_split : string -> option (list string);
  (** [str(v)] of a float, a list or a dict *)
  py_repr : JSON -> string;
  (** [Path.expanduser] *)
  expanduser : Path -> Path;
}.

Module TranslationUnit.
Record t := mk {
  path : Path;
  include_dirs : list Path;
  std_flag : string;
}.
End TranslationUnit.

Definition _load_compile_commands (host : Host) (rt : Runtime) (path : Path)
    : outcome (list (list (string * JSON))) :=
  if negb (path_exists host path) then
    Raise (FileNotFoundError ("compile_commands file not found: " +:+ path))
  else
    match load_json rt path with
    | LoadOpenFails msg => Raise (OSError msg)
    | LoadDecodeFails msg => Raise (JSONDecodeError msg)
    | LoadPayload payload =>
        match payload with
        | JList items => Ok (omap PyValue.dict_fields items)
        | _ => Raise (ValueError "compile_commands.json must be a JSON array")
        end
    end.

(** [str(arg)] *)
Definition str_of_value (rt : Runtime) (v : JSON) : string :=
  match v with
  | JStr s => s
  | JInt n => pretty n
  | JBool true => "True"
  | JBool false => "False"
  | JNull => "None"
  | _ => py_repr rt v
  end.

Module PyStr.
(** [str.isspace] on ASCII text; [\s] of the regular expressions. *)
Definition is_space (c : ascii) : bool :=
  let n := nat_of_ascii c in
  ((9 <=? n) && (n <=? 13) || (28 <=? n) && (n <=? 32))%nat.

(** [s] without its leading characters that satisfy [p]. *)
Fixpoint lstrip_by (p : ascii -> bool) (s : string) : string :=
  match s with
  | String c s' => if p c then lstrip_by p s' else s
  | EmptyString => s
  end.

(** [s] without its trailing characters that satisfy [p]. *)
Fixpoint rstrip_by (p : ascii -> bool) (s : string) : string :=
  match s with
  | EmptyString => EmptyString
  | String c s' =>
      match rstrip_by p s' with
      | EmptyString => if p c then EmptyString else String c EmptyString
      | r => String c r
      end
  end.

Definition lstrip (s : string) : string := lstrip_by is_space s.
Definition rstrip (s : string) : string := rstrip_by is_space s.

(** [s.strip()] *)
Definition strip (s : string) : string := rstrip (lstrip s).

(** [s.split()]: the words between runs of white space; [word] is the word
    being read, reversed. *)
Fixpoint split_from (word : list ascii) (s : string) : list string :=
  let flush := match word with
               | [] => []
               | _ => [string_of_list_ascii (rev word)]
               end in
  match s with
  | EmptyString => flush
  | String c s' =>
      if is_space c then flush ++ split_from [] s'
      else split_from (c :: word) s'
  end.

Definition split (s : string) : list string := split_from [] s.

(** [s.startswith(p)] *)
Definition startswith (p s : string) : bool := String.prefix p s.
End PyStr.

Definition _extract_args (rt : Runtime) (entry : list (string * JSON)) : list string :=
  match PyValue.get "arguments" entry with
  | JList items => map (str_of_value rt) items
  | _ =>
      match PyValue.get "command" entry with
      | JStr command =>
          match shlex_split rt command with
          | Some args => args
          | None => PyStr.split command
          end
      | _ => []
      end
  end.

(** The path that one include-directory value names. *)
Definition include_dir_of (host : Host) (directory : Path) (value : string) : Path :=
  let path := mk_path host value in
  if negb (is_absolute host path) then resolve host (joinpath host directory path)
  else resolve host path.

(** [value] of the [elif] chain of [_extract_include_dirs], [None] when no
    branch applies. *)
Definition joined_include_value (token : string) : option string :=
  if PyStr.startswith "-I" token && (2 <? String.length token)%nat then
    Some (Py.str_drop 2 token)
  else if PyStr.startswith "/I" token && (2 <? String.length token)%nat then
    Some (Py.str_drop 2 token)
  else if PyStr.startswith "-isystem" token && (8 <? String.length token)%nat then
    Some (Py.str_drop 8 token)
  else None.

Definition is_include_flag (token : string) : bool :=
  String.eqb token "-I" || String.eqb token "/I" || String.eqb token "-isystem".

(** The [while] loop of [_extract_include_dirs]. *)
Fixpoint include_dirs_loop (host : Host) (directory : Path) (args : list string)
    : list Path :=
  match args with
  | [] => []
  | token :: rest =>
      let add (value : option string) (tail : list Path) : list Path :=
        match value with
        | Some v => if String.eqb v EmptyString then tail
                    else include_dir_of host directory v :: tail
        | None => tail
        end in
      if is_include_flag token then
        match rest with
        | value :: rest' => add (Some value) (include_dirs_loop host directory rest')
        | [] => add (joined_include_value token) []
        end
      else add (joined_include_value token) (include_dirs_loop host directory rest)
  end.

(** [seen] holds the paths already kept. *)
Fixpoint unique_from (host : Host) (seen : gset Path) (paths : list Path) : list Path :=
  match paths with
  | [] => []
  | path :: rest =>
      let resolved := resolve host path in
      if bool_decide (resolved ∈ seen) then unique_from host seen rest
      else resolved :: unique_from host ({[resolved]} ∪ seen) rest
  end.

Definition _unique_paths (host : Host) (paths : list Path) : list Path :=
  unique_from host ∅ paths.

Definition _extract_include_dirs (host : Host) (args : list string) (directory : Path)
    : list Path :=
  _unique_paths host (include_dirs_loop host directory args).

Fixpoint _extract_std_flag (args : list string) : string :=
  match args with
  | [] => "unknown"
  | token :: rest =>
      if PyStr.startswith "-std=" token then Py.lower (Py.str_drop 5 token)
      else if PyStr.startswith "/std:" token then Py.lower (Py.str_drop 5 token)
      else _extract_std_flag rest
  end.

(** [Path(v)]: a [TypeError] for what is not a string. *)
Definition path_of_value (host : Host) (v : JSON) : outcome Path :=
  match v with
  | JStr s => Ok (mk_path host s)
  | _ => Raise (TypeError "expected str, bytes or os.PathLike object")
  end.

(** The body of the loop of [_collect_translation_units]: [None] for an
    entry that is skipped. *)
Definition translation_unit_of (host : Host) (rt : Runtime)
    (compile_commands_path : Path) (entry : list (string * JSON))
    : outcome (option TranslationUnit.t) :=
  let file_value := PyValue.get "file" entry in
  if negb (PyValue.truthy file_value) then Ok None
  else
    let directory_raw := PyValue.get "directory" entry in
    directory ←
      (if PyValue.truthy directory_raw then
         directory ← path_of_value host directory_raw;
         if negb (is_absolute host directory) then
           Ok (resolve host (joinpath host (parent host compile_commands_path) directory))
         else Ok (resolve host directory)
       else Ok (resolve host (parent host compile_commands_path)));
    file_path ← path_of_value host file_value;
    let file_path :=
      if negb (is_absolute host file_path) then
        resolve host (joinpath host directory file_path)
      else resolve host file_path in
    let args := _extract_args rt entry in
    let include_dirs := _extract_include_dirs host args directory in
    let std_flag := _extract_std_flag args in
    Ok (Some (TranslationUnit.mk file_path include_dirs std_flag)).

Fixpoint _collect_translation_units (host : Host) (rt : Runtime)
    (entries : list (list (string * JSON))) (compile_commands_path : Path)
    : outcome (list TranslationUnit.t) :=
  match entries with
  | [] => Ok []
  | entry :: rest =>
      tu ← translation_unit_of host rt compile_commands_path entry;
      tus ← _collect_translation_units host rt rest compile_commands_path;
      Ok (match tu with Some tu => tu :: tus | None => tus end)
  end.

(** ** Scanning source text *)

Module Regex.
Definition is_delimiter (c : ascii) : bool :=
  Ascii.eqb c Py.dquote || Ascii.eqb c ">"%char.

(** The longest run of characters other than the closing delimiters, and
    what follows it. *)
Fixpoint span_name (s : string) : string * string :=
  match s with
  | EmptyString => (EmptyString, EmptyString)
  | String c s' =>
      if is_delimiter c then (EmptyString, s)
      else let '(name, rest) := span_name s' in (String c name, rest)
  end.

(** What follows the literal [lit] at the start of [s]. *)
Definition expect (lit s : string) : option string :=
  if String.prefix lit s then Some (Py.str_drop (String.length lit) s) else None.

(** [INCLUDE_RE.match(line)]: white space, [#], white space, [include],
    white space, then group 1, an opening angle bracket or double quote,
    group 2, the longest non-empty run of characters that are neither a
    double quote nor a closing angle bracket, and one of these two to close. *)
Definition match_include (line : string) : option (string * string) :=
  match PyStr.lstrip line with
  | String "#"%char s1 =>
      match expect "include" (PyStr.lstrip s1) with
      | Some s2 =>
          match PyStr.lstrip s2 with
          | String d s3 =>
              if Ascii.eqb d "<"%char || Ascii.eqb d Py.dquote then
                match span_name s3 with
                | (EmptyString, _) => None
                | (_, EmptyString) => None
                | (name, String _ _) => Some (String d EmptyString, name)
                end
              else None
          | EmptyString => None
          end
      | None => None
      end
  | _ => None
  end.

(** [\w] on ASCII text. *)
Definition is_word (c : ascii) : bool :=
  let n := nat_of_ascii c in
  ((48 <=? n) && (n <=? 57) || (65 <=? n) && (n <=? 90) ||
   (97 <=? n) && (n <=? 122) || (n =? 95))%nat.

(** [DEFINE_RE.match(line)]: [^\s*#\s*define\b]. *)
Definition match_define (line : string) : bool :=
  match PyStr.lstrip line with
  | String "#"%char s1 =>
      match expect "define" (PyStr.lstrip s1) with
      | Some (String c _) => negb (is_word c)
      | Some EmptyString => true
      | None => false
      end
  | _ => false
  end.
End Regex.

Definition HEADER_SUFFIXES : list string :=
  [".h"; ".hh"; ".hpp"; ".hxx"; ".inc"; ".ipp"].

Definition _is_header (path : Path) : bool :=
  existsb (String.eqb (Py.lower (PurePath.suffix path))) HEADER_SUFFIXES.

Definition _is_project_path (host : Host) (path project_root : Path) : bool :=
  match relative_to host (resolve host path) (resolve host project_root) with
  | Some _ => true
  | None => false
  end.

Definition _relative_display (host : Host) (path root : Path) : string :=
  match relative_to host (resolve host path) (resolve host root) with
  | Some rel => rel
  | None => path
  end.

Definition _token (kind include_name : string) : string :=
  if String.eqb kind ANGLE then "<" +:+ include_name +:+ ">"
  else QUOTED +:+ include_name +:+ QUOTED.

(** An [OSError] while the file is opened or read is caught: the includes
    found so far are dropped and the result is the empty list. *)
Definition _parse_includes (host : Host) (path : Path) : list (string * string) :=
  if negb (path_exists host path) then []
  else
    match read_lines host path with
    | ReadLines lines =>
        omap (fun line =>
                match Regex.match_include line with
                | Some (kind, name) => Some (kind, PyStr.strip name)
                | None => None
                end) lines
    | ReadOSError => []
    end.

Definition _count_defines (host : Host) (path : Path) : Z :=
  if negb (path_exists host path) || negb (_is_header path) then 0
  else
    match read_lines host path with
    | ReadLines lines => Z.of_nat (length (List.filter Regex.match_define lines))
    | ReadOSError => 0
    end.

Definition _infer_project_root (host : Host) (paths : list Path) (fallback : Path)
    : Path :=
  let existing := List.filter (path_exists host) paths in
  match existing with
  | [] => resolve host fallback
  | _ =>
      let common := mk_path host (commonpath host existing) in
      if is_file host common then resolve host (parent host common)
      else resolve host common
  end.

(** ** The graph builder *)

Module PyDict.
Section Dict.
Context {V : Type}.

(** [d.get(key)] *)
Definition get (key : string) (d : list (string * V)) : option V :=
  snd <$> List.find (fun kv => String.eqb (fst kv) key) d.

(** [d[key] = f(d.get(key))]: a new key goes to the end. *)
Fixpoint update (key : string) (f : option V -> V) (d : list (string * V))
    : list (string * V) :=
  match d with
  | [] => [(key, f None)]
  | (k, v) :: d' =>
      if String.eqb k key then (k, f (Some v)) :: d'
      else (k, v) :: update key f d'
  end.
End Dict.

(** [counter[key] += 1] *)
Definition incr (key : string) (counter : list (string * Z)) : list (string * Z) :=
  update key (fun v => default 0 v + 1) counter.
End PyDict.

(** The variables of [analyze_compile_commands] that the two scanning
    loops update. *)
Module Scan.
Record t := mk {
  include_tokens : list (string * Z);
  include_frequency : list (Path * Z);
  unresolved_includes : list (string * string);
  header_graph : Graph;
  macro_counts : list (Path * Z);
  header_queue : list Path;
  scanned_headers : gset Path;
}.

Definition init : t := mk [] [] [] [] [] [] ∅.

(** [include_tokens[token] += 1] *)
Definition count_token (token : string) (st : t) : t :=
  mk (PyDict.incr token (include_tokens st)) (include_frequency st)
     (unresolved_includes st) (header_graph st) (macro_counts st)
     (header_queue st) (scanned_headers st).

(** [unresolved_includes.append] of the pair of [from] and [include]. *)
Definition record_unresolved (source token : string) (st : t) : t :=
  mk (include_tokens st) (include_frequency st)
     (Py.append (unresolved_includes st) (source, token)) (header_graph st)
     (macro_counts st) (header_queue st) (scanned_headers st).

(** [include_frequency[resolved] += 1] *)
Definition count_include (resolved : Path) (st : t) : t :=
  mk (include_tokens st) (PyDict.incr resolved (include_frequency st))
     (unresolved_includes st) (header_graph st) (macro_counts st)
     (header_queue st) (scanned_headers st).

(** [header_queue.append(resolved)] *)
Definition enqueue (resolved : Path) (st : t) : t :=
  mk (include_tokens st) (include_frequency st) (unresolved_includes st)
     (header_graph st) (macro_counts st) (Py.append (header_queue st) resolved)
     (scanned_headers st).

(** [header_graph[header].add(resolved)] *)
Definition add_edge (header resolved : Path) (st : t) : t :=
  mk (include_tokens st) (include_frequency st) (unresolved_includes st)
     (PyDict.update header (fun v => {[resolved]} ∪ default ∅ v) (header_graph st))
     (macro_counts st) (header_queue st) (scanned_headers st).

(** Lines 136-138: [scanned_headers.add(header)],
    [header_graph.setdefault(header, set())],
    [macro_counts[header] = macro_count]. *)
Definition mark_scanned (header : Path) (macro_count : Z) (st : t) : t :=
  mk (include_tokens st) (include_frequency st) (unresolved_includes st)
     (PyDict.update header (fun v => default ∅ v) (header_graph st))
     (PyDict.update header (fun _ => macro_count) (macro_counts st))
     (header_queue st) ({[header]} ∪ scanned_headers st).

(** [header_queue.popleft()] has taken the head of the queue. *)
Definition set_queue (queue : list Path) (st : t) : t :=
  mk (include_tokens st) (include_frequency st) (unresolved_includes st)
     (header_graph st) (macro_counts st) queue (scanned_headers st).
End Scan.

(** The body of the loop over the includes of a translation unit, lines
    107-127. *)
Definition scan_tu_include (host : Host) (project_root : Path)
    (tu : TranslationUnit.t) (st : Scan.t) (include : string * string) : Scan.t :=
  let '(kind, include_name) := include in
  let st := Scan.count_token (_token kind include_name) st in
  match _resolve_include host include_name kind
          (TranslationUnit.path tu) (TranslationUnit.include_dirs tu) with
  | None =>
      if String.eqb kind QUOTED then
        Scan.record_unresolved
          (_relative_display host (TranslationUnit.path tu) project_root)
          (_token kind include_name) st
      else st
  | Some resolved =>
      if _is_header resolved then
        let st := Scan.count_include resolved st in
        if _is_project_path host resolved project_root then Scan.enqueue resolved st
        else st
      else st
  end.

(** The loop over the translation units, lines 104-127. *)
Definition scan_translation_units (host : Host) (project_root : Path)
    (tus : list TranslationUnit.t) (st : Scan.t) : Scan.t :=
  fold_left
    (fun st tu =>
       fold_left (scan_tu_include host project_root tu)
         (_parse_includes host (TranslationUnit.path tu)) st)
    tus st.

(** The body of the loop over the includes of a header, lines 141-164. *)
Definition scan_header_include (host : Host) (project_root : Path)
    (all_include_dirs : list Path) (header : Path) (st : Scan.t)
    (include : string * string) : Scan.t :=
  let '(kind, include_name) := include in
  let st := Scan.count_token (_token kind include_name) st in
  match _resolve_include host include_name kind header all_include_dirs with
  | None =>
      if String.eqb kind QUOTED then
        Scan.record_unresolved (_relative_display host header project_root)
          (_token kind include_name) st
      else st
  | Some resolved =>
      if negb (_is_header resolved) then st
      else
        let st := Scan.count_include resolved st in
        if _is_project_path host resolved project_root then
          Scan.enqueue resolved (Scan.add_edge header resolved st)
        else st
  end.

(** One turn of the [while header_queue] loop, after [popleft], lines
    133-164. *)
Definition scan_header (host : Host) (project_root : Path)
    (all_include_dirs : list Path) (header : Path) (st : Scan.t) : Scan.t :=
  if bool_decide (header ∈ Scan.scanned_headers st) || negb (path_exists host header)
  then st
  else
    let st := Scan.mark_scanned header (_count_defines host header) st in
    fold_left (scan_header_include host project_root all_include_dirs header)
      (_parse_includes host header) st.

(** The [while header_queue] loop, lines 131-164; [None] when it has not
    ended after [fuel] turns. *)
Fixpoint drain_queue (fuel : nat) (host : Host) (project_root : Path)
    (all_include_dirs : list Path) (st : Scan.t) : option Scan.t :=
  match Scan.header_queue st with
  | [] => Some st
  | header :: rest =>
      match fuel with
      | O => None
      | S fuel' =>
          drain_queue fuel' host project_root all_include_dirs
            (scan_header host project_root all_include_dirs header
               (Scan.set_queue rest st))
      end
  end.

(** ** Module names *)

Module ModuleName.
(** [[a-zA-Z0-9/._-]] *)
Definition is_kept (c : ascii) : bool :=
  let n := nat_of_ascii c in
  ((48 <=? n) && (n <=? 57) || (65 <=? n) && (n <=? 90) ||
   (97 <=? n) && (n <=? 122) || (n =? 47) || (n =? 46) || (n =? 95) || (n =? 45))%nat.

Fixpoint keep (p : ascii -> bool) (s : string) : string :=
  match s with
  | EmptyString => EmptyString
  | String c s' => if p c then String c (keep p s') else keep p s'
  end.

(** [s.replace(a, b)] for single characters. *)
Fixpoint replace (a b : ascii) (s : string) : string :=
  match s with
  | EmptyString => EmptyString
  | String c s' => String (if Ascii.eqb c a then b else c) (replace a b s')
  end.

(** Every run of two or more dots becomes one dot. *)
Fixpoint collapse_dots (s : string) : string :=
  match s with
  | EmptyString => EmptyString
  | String c s' =>
      if Ascii.eqb c "."%char then
        match s' with
        | String c' _ =>
            if Ascii.eqb c' "."%char then collapse_dots s'
            else String c (collapse_dots s')
        | EmptyString => String c EmptyString
        end
      else String c (collapse_dots s')
  end.

Definition is_dot (c : ascii) : bool := Ascii.eqb c "."%char.

(** [str(Path(rel).with_suffix(""))], a [ValueError] for a path without a
    name. *)
Definition without_suffix (host : Host) (rel : string) : outcome string :=
  let p := mk_path host rel in
  if String.eqb (PurePath.name p) EmptyString then
    Raise (ValueError ("PosixPath('" +:+ p +:+ "') has an empty name"))
  else
    Ok (String.substring 0 (String.length p - String.length (PurePath.suffix p)) p).
End ModuleName.

Definition _suggest_module_name (host : Host) (path project_root : Path)
    : outcome string :=
  let rel := _relative_display host path project_root in
  let rel := if PyStr.startswith "include/" rel then Py.str_drop 8 rel else rel in
  stem ← ModuleName.without_suffix host rel;
  let stem := ModuleName.keep ModuleName.is_kept stem in
  let stem := ModuleName.replace "-"%char "_"%char (ModuleName.replace "/"%char "."%char stem) in
  let stem :=
    PyStr.rstrip_by ModuleName.is_dot
      (PyStr.lstrip_by ModuleName.is_dot (ModuleName.collapse_dots stem)) in
  Ok (if String.eqb stem EmptyString then "unnamed.module" else stem).

(** ** Candidates *)

Module PathOrder.
(** The spelling cut at every separator. *)
Fixpoint split_from (word : list ascii) (s : string) : list string :=
  match s with
  | EmptyString => [string_of_list_ascii (rev word)]
  | String c s' =>
      if Ascii.eqb c "/"%char then string_of_list_ascii (rev word) :: split_from [] s'
      else split_from (c :: word) s'
  end.

Definition parts (p : Path) : list string := split_from [] p.

(** [<] on lists of strings. *)
Fixpoint parts_lt (a b : list string) : bool :=
  match a, b with
  | [], [] => false
  | [], _ :: _ => true
  | _ :: _, [] => false
  | x :: a', y :: b' => if String.eqb x y then parts_lt a' b' else String.ltb x y
  end.

(** [a < b] on paths: the parts are compared. *)
Definition lt (a b : Path) : bool := parts_lt (parts a) (parts b).
End PathOrder.

(** [sorted(s)] of a set of paths. *)
Definition sorted_paths (iter : gset Path -> list Path) (s : gset Path) : list Path :=
  Py_sort.list_sort PathOrder.lt false (iter s).

(** The set comprehension of lines 168-172. *)
Definition all_project_headers (host : Host) (project_root : Path) (st : Scan.t)
    : gset Path :=
  list_to_set
    (List.filter (fun path => _is_project_path host path project_root && _is_header path)
       (map fst (Scan.include_frequency st) ++ map fst (Scan.header_graph st))).

(** The body of the loop over the project headers, lines 176-203. *)
Definition build_candidate (host : Host) (project_root : Path) (st : Scan.t)
    (cycle_nodes : gset Path) (header : Path) : outcome Candidate.t :=
  let include_count := default 0 (PyDict.get header (Scan.include_frequency st)) in
  let macro_count :=
    default (_count_defines host header) (PyDict.get header (Scan.macro_counts st)) in
  let in_cycle := bool_decide (header ∈ cycle_nodes) in
  let '(risk_score, rationale) :=
    _risk_score header include_count macro_count in_cycle in
  let risk_level := _risk_level risk_score in
  let recommendation := _recommendation risk_score in_cycle in
  suggested_module ← _suggest_module_name host header project_root;
  Ok (Candidate.mk (_relative_display host header project_root) include_count
        macro_count in_cycle risk_score risk_level recommendation rationale
        (Some suggested_module)).

Fixpoint build_candidates (host : Host) (project_root : Path) (st : Scan.t)
    (cycle_nodes : gset Path) (headers : list Path) : outcome (list Candidate.t) :=
  match headers with
  | [] => Ok []
  | header :: rest =>
      candidate ← build_candidate host project_root st cycle_nodes header;
      candidates ← build_candidates host project_root st cycle_nodes rest;
      Ok (candidate :: candidates)
  end.

(** ** Readiness checks and phases *)

Module StdFlag.
Definition is_digit (c : ascii) : bool :=
  let n := nat_of_ascii c in ((48 <=? n) && (n <=? 57))%nat.

(** The longest run of digits at the start of [s]. *)
Fixpoint digits (s : string) : string :=
  match s with
  | String c s' => if is_digit c then String c (digits s') else EmptyString
  | EmptyString => EmptyString
  end.

(** [re.search] for two plus signs and one or more digits: the digits of
    the leftmost match. *)
Fixpoint search_version (s : string) : option string :=
  match s with
  | EmptyString => None
  | String _ s' =>
      if String.prefix "++" s then
        match digits (Py.str_drop 2 s) with
        | EmptyString => search_version s'
        | d => Some d
        end
      else search_version s'
  end.

(** [int(d)] of a string of digits, read from the left. *)
Fixpoint int_from (acc : Z) (d : string) : Z :=
  match d with
  | EmptyString => acc
  | String c d' => int_from (acc * 10 + Z.of_nat (nat_of_ascii c - 48)) d'
  end.
End StdFlag.

Definition _is_cxx20_or_newer (std_flag : string) : bool :=
  let value := Py.lower std_flag in
  if String.eqb value "unknown" then false
  else if Py.contains "c++2a" value || Py.contains "c++2b" value then true
  else
    match StdFlag.search_version value with
    | None => false
    | Some d => 20 <=? StdFlag.int_from 0 d
    end.

Module Check.
Record t := mk {
  title : string;
  status : string;
  details : string;
}.
End Check.

Definition _build_readiness_checks (tus : list TranslationUnit.t)
    (macro_counts : list (Path * Z)) (cycle_nodes : gset Path) (unresolved_count : Z)
    : list Check.t :=
  let non_cxx20 :=
    List.filter (fun tu => negb (_is_cxx20_or_newer (TranslationUnit.std_flag tu))) tus in
  let heavy_macro_headers :=
    map fst (List.filter (fun kv => 8 <=? snd kv) macro_counts) in
  let checks : list Check.t := [] in
  let checks :=
    Py.append checks
      (Check.mk "C++20 compiler mode coverage"
         (match non_cxx20 with [] => "pass" | _ => "warn" end)
         (match non_cxx20 with
          | [] => "All translation units appear to use C++20+ flags"
          | _ => pretty (Z.of_nat (length non_cxx20)) +:+
                 " TU(s) are below C++20 or missing -std flag"
          end)) in
  let checks :=
    Py.append checks
      (Check.mk "Include cycle cleanup"
         (if bool_decide (cycle_nodes = ∅) then "pass" else "warn")
         (if bool_decide (cycle_nodes = ∅) then "No include cycles detected"
          else pretty (Z.of_nat (size cycle_nodes)) +:+ " header(s) are part of cycle(s)")) in
  let checks :=
    Py.append checks
      (Check.mk "Macro-heavy header reduction"
         (match heavy_macro_headers with [] => "pass" | _ => "warn" end)
         (match heavy_macro_headers with
          | [] => "No macro-heavy headers detected"
          | _ => pretty (Z.of_nat (length heavy_macro_headers)) +:+
                 " header(s) have >= 8 #define directives"
          end)) in
  let checks :=
    Py.append checks
      (Check.mk "Include resolution quality"
         (if unresolved_count =? 0 then "pass" else "warn")
         (if unresolved_count =? 0 then "All scanned includes resolved"
          else pretty unresolved_count +:+ " unresolved include(s); verify include paths")) in
  checks.

Module Phases.
Record t := mk {
  p1_goal : string;
  p1_actions : list string;
  p2_goal : string;
  p2_actions : list string;
  p3_goal : string;
  p3_checks : list Check.t;
  p3_actions : list string;
}.
End Phases.

(** [sep.join(items)] *)
Fixpoint str_join (sep : string) (items : list string) : string :=
  match items with
  | [] => EmptyString
  | [x] => x
  | x :: rest => x +:+ sep +:+ str_join sep rest
  end.

(** [counter.most_common()]: by count, largest first, equal counts in the
    order of first insertion. *)
Definition most_common (counter : list (string * Z)) : list (string * Z) :=
  Py_sort.list_sort (fun a b => snd a <? snd b) true counter.

Definition _build_phases (candidates : list Candidate.t)
    (include_tokens : list (string * Z)) (readiness_checks : list Check.t)
    : Phases.t :=
  let p1_project :=
    take 5 (List.filter (fun candidate =>
                      String.eqb (Candidate.recommendation candidate)
                        "P1 header unit candidate"
                      && (2 <=? Candidate.include_frequency candidate))
              candidates) in
  let p1_system :=
    take 5 (List.filter (fun tc => PyStr.startswith "<" (fst tc) && (2 <=? snd tc))
              (most_common include_tokens)) in
  let p1_actions : list string :=
    map (fun candidate =>
           "Convert " +:+ Candidate.header candidate +:+
           " to a header unit pilot (risk " +:+
           pretty (Candidate.risk_score candidate) +:+ ")")
      p1_project in
  let p1_actions :=
    match p1_system with
    | [] => p1_actions
    | _ =>
        let system_headers :=
          str_join ", "
            (map (fun tc => fst tc +:+ " (" +:+ pretty (snd tc) +:+ "x)") p1_system) in
        Py.append p1_actions
          ("Evaluate toolchain support for standard/third-party header units: "
             +:+ system_headers)
    end in
  let p1_actions :=
    match p1_actions with
    | [] => ["Start with one low-risk, high-frequency project header as a pilot"]
    | _ => p1_actions
    end in
  let p2_candidates :=
    take 5 (List.filter (fun candidate =>
                      (Candidate.risk_score candidate <=? 65)
                      && negb (Candidate.in_cycle candidate)
                      && (2 <=? Candidate.include_frequency candidate))
              candidates) in
  let p2_actions :=
    match p2_candidates with
    | [] => ["No safe named-module candidates yet; reduce macro usage and break cycles first"]
    | _ =>
        map (fun candidate =>
               "Prototype named module '" +:+
               default "None" (Candidate.suggested_module candidate) +:+
               "' from " +:+ Candidate.header candidate)
          p2_candidates
    end in
  Phases.mk
    "Reduce parse cost by importing stable headers as header units."
    p1_actions
    "Promote stable components to named modules with explicit interfaces."
    p2_actions
    "Prepare for adopting import std where supported by toolchain."
    readiness_checks
    ["Ensure all TUs compile in C++20+ mode";
     "Eliminate include cycles and shrink macro-heavy public headers";
     "Validate compiler/libstdc++ or libc++ support for import std in CI"].

(** ** The report *)

Module PlannerReport.
Record t := mk {
  input_file : string;
  project_root : string;
  translation_units : Z;
  scanned_headers : Z;
  cycle_header_count : Z;
  candidates : list Candidate.t;
  phases : Phases.t;
  readiness_checks : list Check.t;
  unresolved_includes : list (string * string);
}.

Record Summary := mk_summary {
  summary_translation_units : Z;
  summary_scanned_headers : Z;
  summary_cycle_header_count : Z;
  unresolved_include_count : Z;
}.

(** The dict that [to_dict] returns. *)
Record Dict := mk_dict {
  dict_input_file : string;
  dict_project_root : string;
  summary : Summary;
  dict_candidates : list Candidate.t;
  dict_phases : Phases.t;
  dict_readiness_checks : list Check.t;
  dict_unresolved_includes : list (string * string);
}.

Definition to_dict (self : t) : Dict :=
  mk_dict (input_file self) (project_root self)
    (mk_summary (translation_units self) (scanned_headers self)
       (cycle_header_count self) (Z.of_nat (length (unresolved_includes self))))
    (candidates self) (phases self) (readiness_checks self)
    (unresolved_includes self).
End PlannerReport.

(** Lines 166-239 of [analyze_compile_commands]: from the scanned project
    to the report. *)
Definition assemble_report (host : Host) (iter : gset Path -> list Path)
    (compile_commands project_root : Path) (tus : list TranslationUnit.t)
    (top : Z) (st : Scan.t) : outcome PlannerReport.t :=
  match _detect_cycle_nodes iter (Scan.header_graph st) with
  | None => OutOfFuel
  | Some cycle_nodes =>
      candidates ←
        build_candidates host project_root st cycle_nodes
          (sorted_paths iter (all_project_headers host project_root st));
      let candidates := top_candidates top candidates in
      let readiness_checks :=
        _build_readiness_checks tus (Scan.macro_counts st) cycle_nodes
          (Z.of_nat (length (Scan.unresolved_includes st))) in
      let phases :=
        _build_phases candidates (Scan.include_tokens st) readiness_checks in
      Ok (PlannerReport.mk compile_commands project_root
            (Z.of_nat (length tus))
            (Z.of_nat (size (Scan.scanned_headers st)))
            (Z.of_nat (size cycle_nodes))
            candidates phases readiness_checks
            (Py.slice_to 50 (Scan.unresolved_includes st)))
  end.

(** Lines 88-94: the include directories of all translation units and the
    project root. *)
Definition all_include_dirs_of (host : Host) (tus : list TranslationUnit.t)
    : list Path :=
  _unique_paths host (concat (map TranslationUnit.include_dirs tus)).

Definition project_root_of (host : Host) (tus : list TranslationUnit.t)
    (compile_commands : Path) : Path :=
  _infer_project_root host
    (map TranslationUnit.path tus ++ all_include_dirs_of host tus)
    (parent host compile_commands).

(** Lines 81-164 of [analyze_compile_commands]: the database is loaded and
    the project is scanned; [fuel] bounds the turns of the
    [while header_queue] loop. *)
Definition scan_project (fuel : nat) (host : Host) (rt : Runtime)
    (compile_commands : Path) : outcome (list TranslationUnit.t * Scan.t) :=
  entries ← _load_compile_commands host rt compile_commands;
  tus ← _collect_translation_units host rt entries compile_commands;
  match tus with
  | [] => Raise (ValueError "No translation units found in compile_commands.json")
  | _ =>
      let all_include_dirs := all_include_dirs_of host tus in
      let project_root := project_root_of host tus compile_commands in
      let st := scan_translation_units host project_root tus Scan.init in
      match drain_queue fuel host project_root all_include_dirs st with
      | None => OutOfFuel
      | Some st => Ok (tus, st)
      end
  end.

Definition analyze_compile_commands (fuel : nat) (host : Host) (rt : Runtime)
    (iter : gset Path -> list Path) (compile_commands_path : string) (top : Z)
    : outcome PlannerReport.t :=
  let compile_commands :=
    resolve host (expanduser rt (mk_path host compile_commands_path)) in
  scanned ← scan_project fuel host rt compile_commands;
  let '(tus, st) := scanned in
  assemble_report host iter compile_commands
    (project_root_of host tus compile_commands) tus top st.

(** ** The command line *)

Module Cli.
(** What [argparse] returns. *)
Record Args := mk_args {
  compile_commands : string;
  as_json : bool;
  top : Z;
}.

(** What [main] prints: the report as JSON or as text on the standard
    output, or a message on the standard error. *)
Inductive Printed :=
| PrintJson (d : PlannerReport.Dict)
| PrintText (report : PlannerReport.t)
| PrintError (msg : string).

(** The exit code and what was printed; an exception that [main] does not
    catch is raised by [main]. *)
Definition main (fuel : nat) (host : Host) (rt : Runtime)
    (iter : gset Path -> list Path) (args : Args) : outcome (Z * Printed) :=
  match analyze_compile_commands fuel host rt iter (compile_commands args) (top args) with
  | Ok report =>
      Ok (0, if as_json args then PrintJson (PlannerReport.to_dict report)
             else PrintText report)
  | Raise (FileNotFoundError msg)
  | Raise (ValueError msg)
  | Raise (JSONDecodeError msg) => Ok (2, PrintError ("error: " +:+ msg))
  | Raise e => Raise e
  | OutOfFuel => OutOfFuel
  end.
End Cli.

(** ** A small project to run the definitions on *)

Module Fixture.

Definition config_h : Candidate.t :=
  Candidate.mk "include/common/config.h" 2 9 false 65 "medium"
    "P2 named module pilot"
    ["included 2 time(s) across scanned files";
     "macro-heavy: 9 #define directives";
     ".h extension may indicate C/C++ mixed usage"]
    (Some "common.config").

Definition cycle_a : Candidate.t :=
  Candidate.mk "include/core/cycle_a.hpp" 2 0 true 40 "medium"
    "refactor include cycle before module migration"
    ["included 2 time(s) across scanned files";
     "no #define directives found";
     "participates in an include cycle"]
    (Some "core.cycle_a").

Definition cycle_b : Candidate.t :=
  Candidate.mk "include/core/cycle_b.hpp" 2 0 true 40 "medium"
    "refactor include cycle before module migration"
    ["included 2 time(s) across scanned files";
     "no #define directives found";
     "participates in an include cycle"]
    (Some "core.cycle_b").

Definition util : Candidate.t :=
  Candidate.mk "include/core/util.hpp" 3 1 false 15 "low"
    "P1 header unit candidate"
    ["included 3 time(s) across scanned files";
     "contains 1 #define directives"]
    (Some "core.util").

(** The files of the project, each with its lines; [None] is a file that
    cannot be read. *)
Definition include_line (name : string) : string :=
  "#include " +:+ QUOTED +:+ name +:+ QUOTED.

Definition files : list (Path * option (list string)) :=
  [("/proj/compile_commands.json", Some []);
   ("/proj/src/main.cpp",
     Some ["#include <vector>";
           include_line "core/cycle_a.hpp";
           include_line "common/config.h";
           include_line "missing.hpp"]);
   ("/proj/src/app.cpp",
     Some [include_line "core/cycle_b.hpp";
           include_line "common/config.h";
           include_line "core/locked.hpp"]);
   ("/proj/include/core/cycle_a.hpp",
     Some ["#pragma once"; include_line "cycle_b.hpp"]);
   ("/proj/include/core/cycle_b.hpp",
     Some [include_line "cycle_a.hpp"; "#define B_FLAG 1"]);
   ("/proj/include/common/config.h",
     Some ["#define A 1"; "#define B 2"; "  #  define C 3"; "#define D 4";
           "#define E 5"; "#define F 6"; "#define G 7"; "#define H 8";
           "#define I 9"; "#defined_not_a_define"]);
   ("/proj/include/core/locked.hpp", None);
   ("/usr/include/vector", Some [])].

Definition directories : list Path :=
  ["/"; "/proj"; "/proj/src"; "/proj/include"; "/proj/include/core";
   "/proj/include/common"; "/usr"; "/usr/include"].

Definition lookup_in (fs : list (Path * option (list string))) (p : Path)
    : option (option (list string)) :=
  snd <$> List.find (fun kv => String.eqb (fst kv) p) fs.

(** [a / b] on spellings that are already normal. *)
Definition join (a b : Path) : Path :=
  if String.prefix "/" b then b
  else if String.eqb a "/" then a +:+ b
  else a +:+ "/" +:+ b.

(** The spelling up to the last separator. *)
Definition dirname (p : Path) : Path :=
  match PurePath.after_last "/"%char p with
  | Some r =>
      let d := String.substring 0 (String.length p - String.length r - 1) p in
      if String.eqb d EmptyString then "/" else d
  | None => "."
  end.

Definition relative (p root : Path) : option string :=
  if String.eqb p root then Some "."
  else if String.prefix (root +:+ "/") p
       then Some (Py.str_drop (String.length root + 1) p)
       else None.

(** [os.path.commonpath] on absolute spellings. *)
Fixpoint common_parts (a b : list string) : list string :=
  match a, b with
  | x :: a', y :: b' => if String.eqb x y then x :: common_parts a' b' else []
  | _, _ => []
  end.

Definition common (paths : list string) : string :=
  match map PathOrder.parts paths with
  | [] => EmptyString
  | p :: ps =>
      let c := str_join "/" (fold_left common_parts ps p) in
      if String.eqb c EmptyString then "/" else c
  end.

Definition host_of (fs : list (Path * option (list string))) : Host :=
  {| mk_path := fun s => s;
     is_absolute := String.prefix "/";
     parent := dirname;
     joinpath := join;
     resolve := fun p => p;
     path_exists :=
       fun p => bool_decide (is_Some (lookup_in fs p))
                || existsb (String.eqb p) directories;
     is_file := fun p => bool_decide (is_Some (lookup_in fs p));
     relative_to := relative;
     commonpath := common;
     read_lines :=
       fun p => match lookup_in fs p with
                | Some (Some lines) => ReadLines lines
                | _ => ReadOSError
                end |}.

Definition host : Host := host_of files.

(** The same project with 51 quoted includes that do not resolve. *)
Definition files_many_missing : list (Path * option (list string)) :=
  [("/proj/compile_commands.json", Some []);
   ("/proj/src/main.cpp", Some (replicate 51 (include_line "missing.hpp")))].

Definition host_many_missing : Host := host_of files_many_missing.

(** The compile database of the project. *)
Definition database : JSON :=
  JList
    [JDict [("directory", JStr "/proj");
            ("file", JStr "src/main.cpp");
            ("arguments", JList [JStr "c++"; JStr "-Iinclude"; JStr "-std=c++20";
                                 JStr "-c"; JStr "src/main.cpp"])];
     JStr "not an entry";
     JDict [("directory", JStr "/proj"); ("command", JStr "c++ -c nothing")];
     JDict [("directory", JStr "/proj");
            ("file", JStr "/proj/src/app.cpp");
            ("command", JStr "c++ -I include -c src/app.cpp")]].

Definition runtime_with (payload : JSON) : Runtime :=
  {| load_json := fun _ => LoadPayload payload;
     shlex_split := fun command => Some (PyStr.split command);
     py_repr := fun _ => "?";
     expanduser := fun p => p |}.

Definition runtime : Runtime := runtime_with database.

Definition args : Cli.Args := Cli.mk_args "/proj/compile_commands.json" true 10.

End Fixture.

(** Two graphs for the cycle detector. *)
Module GraphFixture.
Definition a_hpp : Path := "/proj/include/a.hpp".
Definition b_hpp : Path := "/proj/include/b.hpp".
Definition c_hpp : Path := "/proj/include/c.hpp".

(** [a.hpp] and [b.hpp] include each other. *)
Definition pair : Graph := [(a_hpp, {[b_hpp]}); (b_hpp, {[a_hpp]})].

(** [a.hpp] includes [b.hpp] and [c.hpp], [b.hpp] includes [c.hpp],
    [c.hpp] includes [a.hpp]: all three lie on the cycle a, b, c. *)
Definition triangle : Graph :=
  [(a_hpp, {[b_hpp; c_hpp]}); (b_hpp, {[c_hpp]}); (c_hpp, {[a_hpp]})].

(** Two orders in which a [for] loop may run through a set. *)
Definition forwards (s : gset Path) : list Path := elements s.
Definition backwards (s : gset Path) : list Path := rev (elements s).
End GraphFixture.

(** ** The input errors of section 7 of the specification *)

(** An entry that counts as usable: an object whose [file] value is not
    empty. *)
Definition has_file_value (entry : JSON) : bool :=
  match entry with
  | JDict fields => PyValue.truthy (PyValue.get "file" fields)
  | _ => false
  end.

(** The database file is missing, or its content is not valid JSON, or the
    top-level value is not an array, or the array has no usable entry. *)
Definition spec_input_error (host : Host) (rt : Runtime) (compile_commands : Path)
    : bool :=
  negb (path_exists host compile_commands) ||
  match load_json rt compile_commands with
  | LoadOpenFails _ => false
  | LoadDecodeFails _ => true
  | LoadPayload (JList items) => forallb (fun entry => negb (has_file_value entry)) items
  | LoadPayload _ => true
  end.

Definition is_str (v : JSON) : bool :=
  match v with
  | JStr _ => true
  | _ => false
  end.

(** A usable entry whose [file] is a string and whose [directory], when
    given, is a string; any other entry. *)
Definition well_typed_entry (entry : JSON) : bool :=
  match entry with
  | JDict fields =>
      if PyValue.truthy (PyValue.get "file" fields) then
        is_str (PyValue.get "file" fields) &&
        (if PyValue.truthy (PyValue.get "directory" fields)
         then is_str (PyValue.get "directory" fields) else true)
      else true
  | _ => true
  end.

(** ** A bound on the turns of the scanning loop *)

(** Scanning a header takes one turn and queues at most one header for
    each of its includes. *)
Definition scan_cost (host : Host) (header : Path) : nat :=
  S (length (_parse_includes host header)).

(** The cost of the paths of [universe] that have not been scanned. *)
Definition pending_cost (host : Host) (universe : list Path) (scanned : gset Path)
    : nat :=
  list_sum (map (fun p => if bool_decide (p ∈ scanned) then 0%nat else scan_cost host p)
              universe).

Definition scan_weight (host : Host) (universe : list Path) (st : Scan.t) : nat :=
  (length (Scan.header_queue st) + pending_cost host universe (Scan.scanned_headers st))%nat.

(** ** Cycles of the graph *)

(** [node] includes [child], and [child] is a node of the graph. *)
Definition graph_edge (graph : Graph) (node child : Path) : Prop :=
  child ∈ graph_get graph node /\ graph_mem graph child = true.

(** [node] reaches itself along one or more edges. *)
Definition on_cycle (graph : Graph) (node : Path) : Prop :=
  tc (graph_edge graph) node node.

(** Each node on the stack includes the one above it. *)
Definition stack_chained (graph : Graph) (st : DfsState) : Prop :=
  forall i a b, stack st !! i = Some a -> stack st !! S i = Some b ->
                graph_edge graph a b.

Definition flagged_on_cycles (graph : Graph) (st : DfsState) : Prop :=
  forall n, n ∈ cycle_nodes st -> on_cycle graph n.

(** What the soundness of the loop over the children asks of the recursive
    call. *)
Definition dfs_call_sound (graph : Graph)
    (rec : Path -> DfsState -> option DfsState) : Prop :=
  forall node st st',
    rec node st = Some st' -> node ∉ visited st -> dfs_wf st ->
    stack_chained graph st ->
    (forall top, last (stack st) = Some top -> graph_edge graph top node) ->
    flagged_on_cycles graph st -> flagged_on_cycles graph st'.

(** ** Invariants of the graph builder *)

(** A header-like path under the project root. *)
Definition project_header (host : Host) (project_root : Path) (p : Path) : Prop :=
  _is_header p = true /\ _is_project_path host p project_root = true.

(** What the two scanning loops keep true. *)
Record scan_invariant (host : Host) (project_root : Path) (st : Scan.t) : Prop := {
  queue_project_headers :
    Forall (project_header host project_root) (Scan.header_queue st);
  queue_counted :
    forall h, In h (Scan.header_queue st) -> In h (map fst (Scan.include_frequency st));
  macro_keys : map fst (Scan.header_graph st) = map fst (Scan.macro_counts st);
  graph_keys_distinct : List.NoDup (map fst (Scan.header_graph st));
  graph_keys_scanned :
    forall h, In h (map fst (Scan.header_graph st)) <-> h ∈ Scan.scanned_headers st;
  scanned_exist :
    forall h, h ∈ Scan.scanned_headers st ->
              path_exists host h = true /\ project_header host project_root h;
  scanned_counted :
    forall h, h ∈ Scan.scanned_headers st -> In h (map fst (Scan.include_frequency st));
  edges_followed :
    forall h targets t,
      In (h, targets) (Scan.header_graph st) -> t ∈ targets ->
      project_header host project_root t /\
      (In t (Scan.header_queue st) \/ t ∈ Scan.scanned_headers st \/
       path_exists host t = false);
  macro_counts_nonneg : Forall (fun kv => 0 <= snd kv) (Scan.macro_counts st);
  frequency_positive : Forall (fun kv => 1 <= snd kv) (Scan.include_frequency st);
  frequency_headers :
    Forall (fun kv => _is_header (fst kv) = true) (Scan.include_frequency st);
  frequency_followed :
    forall h, In h (map fst (Scan.include_frequency st)) ->
              _is_project_path host h project_root = true ->
              In h (Scan.header_queue st) \/ h ∈ Scan.scanned_headers st \/
              path_exists host h = false;
  tokens_positive : Forall (fun kv => 1 <= snd kv) (Scan.include_tokens st);
  macro_counts_exact :
    Forall (fun kv => snd kv = _count_defines host (fst kv)) (Scan.macro_counts st);
}.


(** The nodes whose call of [dfs] has returned. *)
Definition finished (st : DfsState) (n : Path) : Prop :=
  n ∈ visited st /\ n ∉ on_stack st.

(** The finished nodes include finished nodes only and lie on no cycle. *)
Definition finished_acyclic (graph : Graph) (st : DfsState) : Prop :=
  forall n, finished st n ->
            (forall child, graph_edge graph n child -> finished st child) /\
            ~ on_cycle graph n.

(** What the completeness of the loop over the children asks of the
    recursive call. *)
Definition dfs_call_acyclic (graph : Graph)
    (rec : Path -> DfsState -> option DfsState) : Prop :=
  forall node st st',
    rec node st = Some st' -> node ∉ visited st -> dfs_wf st ->
    cycle_nodes st' = ∅ ->
    finished_acyclic graph st -> finished_acyclic graph st'.


(** ** The text report *)

(** The lines of one candidate, lines 260-267 of [format_report]; [idx]
    counts from 1. *)
Definition format_candidate (idx : Z) (candidate : Candidate.t) : list string :=
  [pretty idx +:+ ". " +:+ Candidate.header candidate +:+ " (includes=" +:+
   pretty (Candidate.include_frequency candidate) +:+ ", risk=" +:+
   pretty (Candidate.risk_score candidate) +:+ "/100 " +:+
   Candidate.risk_level candidate +:+ ")";
   "   recommendation: " +:+ Candidate.recommendation candidate;
   "   module hint: " +:+ default "None" (Candidate.suggested_module candidate)] ++
  map (fun reason => "   - " +:+ reason) (take 3 (Candidate.rationale candidate)).

(** [enumerate(candidates, start=idx)] through [format_candidate]. *)
Fixpoint format_candidates (idx : Z) (candidates : list Candidate.t) : list string :=
  match candidates with
  | [] => []
  | candidate :: rest =>
      format_candidate idx candidate ++ format_candidates (idx + 1) rest
  end.

Definition format_check (check : Check.t) : string :=
  "- [" +:+ Check.status check +:+ "] " +:+ Check.title check +:+ ": " +:+
  Check.details check.

Definition format_unresolved (unresolved : string * string) : string :=
  "- " +:+ fst unresolved +:+ ": " +:+ snd unresolved.

(** The list [lines] of [format_report], lines 243-293. *)
Definition format_lines (report : PlannerReport.t) : list string :=
  ["modpath-cpp migration plan";
   "Input: " +:+ PlannerReport.input_file report;
   "Project root: " +:+ PlannerReport.project_root report;
   "Scanned: " +:+ pretty (PlannerReport.translation_units report) +:+
   " translation units, " +:+ pretty (PlannerReport.scanned_headers report) +:+
   " headers, " +:+ pretty (PlannerReport.cycle_header_count report) +:+
   " cycle-involved headers";
   EmptyString;
   "Top migration candidates"] ++
  match PlannerReport.candidates report with
  | [] => ["- No project headers were discovered from the input metadata."]
  | candidates => format_candidates 1 candidates
  end ++
  [EmptyString; "Phased plan"; "P1) Header units"] ++
  map (fun item => "- " +:+ item) (Phases.p1_actions (PlannerReport.phases report)) ++
  ["P2) Named modules"] ++
  map (fun item => "- " +:+ item) (Phases.p2_actions (PlannerReport.phases report)) ++
  ["P3) import std readiness"] ++
  map format_check (Phases.p3_checks (PlannerReport.phases report)) ++
  match PlannerReport.unresolved_includes report with
  | [] => []
  | unresolved =>
      [EmptyString;
       "Unresolved includes (showing first " +:+
       pretty (Z.of_nat (length unresolved)) +:+ "):"] ++
      map format_unresolved (take 10 unresolved)
  end.

(** [format_report]: the lines joined by line feeds; this is the text that
    [main] prints for [Cli.PrintText]. *)
Definition format_report (report : PlannerReport.t) : string :=
  str_join (String "010"%char EmptyString) (format_lines report).


(** A report with twelve unresolved includes and no candidate. *)
Definition sparse_report : PlannerReport.t :=
  PlannerReport.mk "/proj/compile_commands.json" "/proj" 1 0 0 []
    (_build_phases [] [] (_build_readiness_checks [] [] ∅ 12))
    (_build_readiness_checks [] [] ∅ 12)
    (replicate 12 ("src/main.cpp", _token QUOTED "missing.hpp")).


(** ** What the include frequency counts *)

(** The number of include directives of [file] that resolve, with the
    directories [dirs], to the header [h]. *)
Definition includes_resolving_to (host : Host) (file : Path) (dirs : list Path)
    (h : Path) : Z :=
  Z.of_nat
    (length
       (List.filter
          (fun inc : string * string =>
             match _resolve_include host (snd inc) (fst inc) file dirs with
             | Some resolved => _is_header resolved && String.eqb resolved h
             | None => false
             end)
          (_parse_includes host file))).

(** [include_frequency.get(h, 0)] *)
Definition frequency_of (st : Scan.t) (h : Path) : Z :=
  default 0 (PyDict.get h (Scan.include_frequency st)).

(** The sum of [f] over [l]. *)
Definition total {A : Type} (f : A -> Z) (l : list A) : Z :=
  fold_right Z.add 0 (map f l).

(** * Part II: properties *)

(** ** The risk scorer *)

Example risk_score_config_h :
  _risk_score "include/common/config.h" 2 9 false =
  (65, ["included 2 time(s) across scanned files";
        "macro-heavy: 9 #define directives";
        ".h extension may indicate C/C++ mixed usage"]).
Proof. vm_compute. reflexivity. Qed.

Example suffix_examples :
  PurePath.suffix "include/core/cycle_a.hpp" = ".hpp" /\
  PurePath.suffix "a.b/noext" = EmptyString /\
  PurePath.suffix ".bashrc" = EmptyString /\
  PurePath.suffix "lib/x.tar.gz" = ".gz" /\
  PurePath.suffix "trailing." = EmptyString.
Proof. vm_compute. repeat split. Qed.

(** Case analysis on every test of [_risk_score]. *)
Ltac risk_cases :=
  unfold _risk_score, Py.append;
  repeat match goal with
         | |- context [if ?b then _ else _] => destruct b eqn:?
         end;
  cbn [fst snd negb] in *.

Lemma contains_prefix (needle s : string) :
  String.prefix needle s = true -> Py.contains needle s = true.
Proof. intros H. destruct s; cbn [Py.contains]; rewrite H; reflexivity. Qed.

(** The rationale of a header with eight or more macros has the
    macro-heavy line in second place. *)
Lemma risk_score_macro_line (header : Path) (f m : Z) (c : bool) :
  8 <= m ->
  nth_error (snd (_risk_score header f m c)) 1 =
  Some ("macro-heavy: " +:+ pretty m +:+ " #define directives").
Proof.
  intros Hm. risk_cases; try reflexivity; lia.
Qed.

(** C1, as the code has it: with eight or more macros the rationale has a
    macro-heavy phrase and the score is at least 44, that is base + 40 less
    the 6 points of the high-reuse adjustment; it is at least base + 40 = 50
    when the include frequency is below 4. *)
Theorem risk_score_macro_heavy (header : Path) (f m : Z) (c : bool) :
  8 <= m ->
  (exists r, In r (snd (_risk_score header f m c)) /\
             Py.contains "macro-heavy" r = true) /\
  44 <= fst (_risk_score header f m c) /\
  (f < 4 -> 50 <= fst (_risk_score header f m c)).
Proof.
  intros Hm. split; [|split].
  - exists ("macro-heavy: " +:+ pretty m +:+ " #define directives"). split.
    + eapply nth_error_In. apply risk_score_macro_line. exact Hm.
    + apply contains_prefix. reflexivity.
  - risk_cases; lia.
  - intros Hf. risk_cases; lia.
Qed.

Lemma risk_score_macro_heavy_witness :
  (exists r, In r (snd (_risk_score "include/common/config.h" 2 9 false)) /\
             Py.contains "macro-heavy" r = true) /\
  44 <= fst (_risk_score "include/common/config.h" 2 9 false) /\
  (2 < 4 -> 50 <= fst (_risk_score "include/common/config.h" 2 9 false)).
Proof. apply (risk_score_macro_heavy "include/common/config.h" 2 9 false). lia. Defined.

(** C1 as the specification states it fails: eight macros in a header that
    is included four times score 44, below base + 40. *)
Lemma risk_score_macro_heavy_below_50 :
  8 <= 8 /\
  fst (_risk_score "include/core/api.hpp" 4 8 false) = 44 /\
  ~ (50 <= fst (_risk_score "include/core/api.hpp" 4 8 false)).
Proof. vm_compute. repeat split; discriminate || (intros H; apply H; reflexivity). Qed.

(** C2, as the code has it: the score is the specification's formula, the
    extension penalty applying when the extension, lower-cased, is [.h]. *)
Theorem risk_score_formula (header : Path) (f m : Z) (c : bool) :
  0 <= m -> 0 <= f ->
  fst (_risk_score header f m c) =
  spec_risk_formula (String.eqb (Py.lower (PurePath.suffix header)) ".h") f m c.
Proof.
  intros Hm Hf. unfold spec_risk_formula, Py.clamp.
  risk_cases; lia.
Qed.

Lemma risk_score_formula_witness :
  fst (_risk_score "include/common/config.h" 2 9 true) =
  spec_risk_formula (String.eqb (Py.lower (PurePath.suffix "include/common/config.h")) ".h")
    2 9 true.
Proof. apply risk_score_formula; lia. Defined.

(** C2 as the specification states it, the penalty applying when the
    extension is exactly [.h], fails on an upper-case extension. *)
Lemma risk_score_formula_upper_case_extension :
  0 <= 0 /\ 0 <= 2 /\
  PurePath.suffix "include/legacy/CONFIG.H" = ".H" /\
  fst (_risk_score "include/legacy/CONFIG.H" 2 0 false) = 20 /\
  spec_risk_formula (String.eqb (PurePath.suffix "include/legacy/CONFIG.H") ".h")
    2 0 false = 10.
Proof. vm_compute. repeat split; discriminate. Qed.

(** Where the extension has no upper-case letter the two readings agree. *)
Lemma risk_score_formula_exact (header : Path) (f m : Z) (c : bool) :
  Py.lower (PurePath.suffix header) = PurePath.suffix header ->
  0 <= m -> 0 <= f ->
  fst (_risk_score header f m c) =
  spec_risk_formula (String.eqb (PurePath.suffix header) ".h") f m c.
Proof. intros H Hm Hf. rewrite <- H at 1. rewrite risk_score_formula by lia. rewrite H. reflexivity. Qed.

(** C6: a header in a cycle is told to refactor the cycle whatever its
    score; otherwise the score picks the recommendation. *)
Theorem recommendation_tiers (score : Z) (c : bool) :
  (c = true ->
   _recommendation score c = "refactor include cycle before module migration") /\
  (c = false ->
   (score <= 30 -> _recommendation score c = "P1 header unit candidate") /\
   (31 <= score <= 65 -> _recommendation score c = "P2 named module pilot") /\
   (65 < score -> _recommendation score c = "defer until macro usage is reduced")).
Proof.
  unfold _recommendation. split; intros ->; [reflexivity|].
  repeat split; intros H;
    repeat match goal with
           | |- context [if ?b then _ else _] => destruct b eqn:?
           end; try reflexivity; lia.
Qed.

Lemma recommendation_tiers_witness :
  _recommendation 99 true = "refactor include cycle before module migration" /\
  _recommendation 30 false = "P1 header unit candidate" /\
  _recommendation 31 false = "P2 named module pilot" /\
  _recommendation 66 false = "defer until macro usage is reduced".
Proof.
  split; [apply (recommendation_tiers 99 true); reflexivity|].
  split; [apply (recommendation_tiers 30 false); [reflexivity|lia]|].
  split; [apply (recommendation_tiers 31 false); [reflexivity|lia]|].
  apply (recommendation_tiers 66 false); [reflexivity|lia].
Defined.

(** ** The order of Python tuples and strings *)

Module Order.

Lemma ascii_lt_trans (a b c : ascii) :
  Ascii.compare a b = Lt -> Ascii.compare b c = Lt -> Ascii.compare a c = Lt.
Proof.
  unfold Ascii.compare. rewrite !N.compare_lt_iff. lia.
Qed.

Lemma ascii_compare_refl (a : ascii) : Ascii.compare a a = Eq.
Proof. unfold Ascii.compare. apply N.compare_refl. Qed.

Lemma compare_refl (s : string) : String.compare s s = Eq.
Proof.
  induction s as [|a s IH]; [reflexivity|].
  cbn. rewrite ascii_compare_refl. exact IH.
Qed.

Lemma compare_lt_trans (s1 s2 s3 : string) :
  String.compare s1 s2 = Lt -> String.compare s2 s3 = Lt ->
  String.compare s1 s3 = Lt.
Proof.
  revert s2 s3.
  induction s1 as [|a s1 IH]; intros [|b s2] [|c s3]; cbn; try congruence.
  destruct (Ascii.compare a b) eqn:Hab; try discriminate;
    destruct (Ascii.compare b c) eqn:Hbc; try discriminate; intros H1 H2.
  - apply Ascii.compare_eq_iff in Hab, Hbc. subst.
    rewrite ascii_compare_refl. eauto.
  - apply Ascii.compare_eq_iff in Hab. subst. rewrite Hbc. reflexivity.
  - apply Ascii.compare_eq_iff in Hbc. subst. rewrite Hab. reflexivity.
  - rewrite (ascii_lt_trans a b c Hab Hbc). reflexivity.
Qed.

Lemma ltb_irrefl (s : string) : String.ltb s s = false.
Proof. unfold String.ltb. rewrite compare_refl. reflexivity. Qed.

Lemma ltb_leb (a b : string) : String.ltb a b = negb (String.leb b a).
Proof.
  unfold String.ltb, String.leb. rewrite (String.compare_antisym b a).
  destruct (String.compare a b); reflexivity.
Qed.

Lemma ltb_asym (a b : string) : String.ltb a b = true -> String.ltb b a = false.
Proof.
  unfold String.ltb. rewrite (String.compare_antisym b a).
  destruct (String.compare a b); cbn; congruence.
Qed.

Lemma ltb_connected (a b : string) :
  String.ltb a b = false -> String.ltb b a = false -> a = b.
Proof.
  unfold String.ltb. rewrite (String.compare_antisym b a).
  destruct (String.compare a b) eqn:H; cbn; try congruence.
  intros _ _. apply String.compare_eq_iff. exact H.
Qed.

Lemma ltb_trans (a b c : string) :
  String.ltb a b = true -> String.ltb b c = true -> String.ltb a c = true.
Proof.
  unfold String.ltb.
  destruct (String.compare a b) eqn:H1; try discriminate.
  destruct (String.compare b c) eqn:H2; try discriminate.
  rewrite (compare_lt_trans _ _ _ H1 H2). reflexivity.
Qed.

(** [not (b < a)] and [not (c < b)] give [not (c < a)]. *)
Lemma ltb_neg_trans (a b c : string) :
  String.ltb b a = false -> String.ltb c b = false -> String.ltb c a = false.
Proof.
  intros Hba Hcb. destruct (String.ltb c a) eqn:Hca; [|reflexivity].
  destruct (String.ltb a b) eqn:Hab.
  - rewrite (ltb_trans c a b Hca Hab) in Hcb. discriminate.
  - assert (a = b) by (apply ltb_connected; assumption). subst.
    congruence.
Qed.

Ltac tuple_cases :=
  unfold Py_sort.tuple_lt;
  repeat match goal with
         | x : (_ * _)%type |- _ => destruct x
         end;
  repeat match goal with
         | |- context [negb (?a =? ?b)] => destruct (Z.eqb_spec a b); cbn [negb]
         | H : context [negb (?a =? ?b)] |- _ =>
             destruct (Z.eqb_spec a b); cbn [negb] in H
         end; subst.

Lemma tuple_lt_asym (a b : Z * Z * Z * string) :
  Py_sort.tuple_lt a b = true -> Py_sort.tuple_lt b a = false.
Proof.
  tuple_cases; rewrite ?Z.ltb_lt, ?Z.ltb_ge; try lia.
  apply ltb_asym.
Qed.

Lemma tuple_lt_connected (a b : Z * Z * Z * string) :
  Py_sort.tuple_lt a b = false -> Py_sort.tuple_lt b a = false -> a = b.
Proof.
  tuple_cases; rewrite ?Z.ltb_lt, ?Z.ltb_ge; try lia.
  intros H1 H2. f_equal. apply ltb_connected; assumption.
Qed.

Lemma tuple_lt_neg_trans (a b c : Z * Z * Z * string) :
  Py_sort.tuple_lt b a = false -> Py_sort.tuple_lt c b = false ->
  Py_sort.tuple_lt c a = false.
Proof.
  tuple_cases; rewrite ?Z.ltb_lt, ?Z.ltb_ge; try lia.
  apply ltb_neg_trans.
Qed.

End Order.

(** ** Sorting *)

Section SortFacts.
Context {A : Type} (lt : A -> A -> bool).
Hypothesis lt_asym : forall x y, lt x y = true -> lt y x = false.
Hypothesis lt_neg_trans :
  forall x y z, lt y x = false -> lt z y = false -> lt z x = false.

(** [x] is not above [y]. *)
Let le (x y : A) : Prop := lt y x = false.

Lemma insert_sorted_perm (x : A) (l : list A) :
  Permutation (Py_sort.insert_sorted lt x l) (x :: l).
Proof.
  induction l as [|y l IH]; cbn; [reflexivity|].
  destruct (lt y x); [|reflexivity].
  rewrite IH. apply perm_swap.
Qed.

Lemma stable_sort_perm (l : list A) : Permutation (Py_sort.stable_sort lt l) l.
Proof.
  induction l as [|x l IH]; cbn; [reflexivity|].
  rewrite insert_sorted_perm. apply perm_skip. exact IH.
Qed.

Lemma insert_sorted_sorted (x : A) (l : list A) :
  StronglySorted le l -> StronglySorted le (Py_sort.insert_sorted lt x l).
Proof.
  induction 1 as [|y l Hs IH Hy]; cbn.
  - constructor; constructor.
  - destruct (lt y x) eqn:Hyx.
    + constructor; [exact IH|].
      rewrite List.Forall_forall in *. intros z Hz.
      apply (Permutation_in _ (insert_sorted_perm x l)) in Hz.
      destruct Hz as [<-|Hz]; [apply lt_asym; exact Hyx|apply Hy; exact Hz].
    + constructor; [constructor; assumption|].
      constructor; [exact Hyx|].
      rewrite List.Forall_forall in *. intros z Hz.
      unfold le. eapply lt_neg_trans; [exact Hyx|apply Hy; exact Hz].
Qed.

Lemma stable_sort_sorted (l : list A) : StronglySorted le (Py_sort.stable_sort lt l).
Proof.
  induction l as [|x l IH]; cbn; [constructor|].
  apply insert_sorted_sorted. exact IH.
Qed.

Lemma list_sort_perm (reverse : bool) (l : list A) :
  Permutation (Py_sort.list_sort lt reverse l) l.
Proof.
  unfold Py_sort.list_sort. destruct reverse.
  - rewrite <- Permutation_rev, stable_sort_perm, <- Permutation_rev. reflexivity.
  - apply stable_sort_perm.
Qed.
End SortFacts.

Lemma StronglySorted_weaken {A : Type} (R R' : A -> A -> Prop) (l : list A) :
  (forall a b, R a b -> R' a b) -> StronglySorted R l -> StronglySorted R' l.
Proof.
  intros HR. induction 1 as [|y l Hs IH Hy]; constructor; [exact IH|].
  eapply List.Forall_impl; [|exact Hy]. intros z. apply HR.
Qed.

Lemma StronglySorted_snoc {A : Type} (R : A -> A -> Prop) (l : list A) (x : A) :
  StronglySorted R l -> Forall (fun y => R y x) l -> StronglySorted R (l ++ [x]).
Proof.
  induction 1 as [|y l Hs IH Hy]; intros Hx; cbn.
  - constructor; constructor.
  - inversion Hx; subst. constructor; [apply IH; assumption|].
    apply Forall_app. split; [assumption|]. constructor; [assumption|constructor].
Qed.

Lemma StronglySorted_rev {A : Type} (R : A -> A -> Prop) (l : list A) :
  StronglySorted R l -> StronglySorted (fun x y => R y x) (rev l).
Proof.
  induction 1 as [|y l Hs IH Hy]; cbn; [constructor|].
  apply StronglySorted_snoc; [exact IH|].
  rewrite List.Forall_forall in *. intros z Hz. apply Hy. apply in_rev. exact Hz.
Qed.

(** Two sorted arrangements of the same elements are equal when no two
    distinct elements rank equal. *)
Lemma StronglySorted_perm_eq {A : Type} (R : A -> A -> Prop) (l1 l2 : list A) :
  (forall a b, In a l1 -> In b l1 -> R a b -> R b a -> a = b) ->
  StronglySorted R l1 -> StronglySorted R l2 -> Permutation l1 l2 -> l1 = l2.
Proof.
  intros Hanti Hs1. revert l2.
  induction Hs1 as [|a l1 Hs1 IH Ha]; intros l2 Hs2 Hp.
  - apply Permutation_nil in Hp. congruence.
  - destruct Hs2 as [|b l2 Hs2 Hb].
    + symmetry in Hp. apply Permutation_nil in Hp. discriminate.
    + assert (a = b) as ->.
      { assert (Hain : In a (b :: l2))
          by (eapply Permutation_in; [exact Hp|left; reflexivity]).
        assert (Hbin : In b (a :: l1))
          by (eapply Permutation_in; [symmetry; exact Hp|left; reflexivity]).
        destruct Hain as [->|Hain]; [reflexivity|].
        destruct Hbin as [->|Hbin]; [reflexivity|].
        rewrite List.Forall_forall in Ha, Hb.
        apply Hanti; [left; reflexivity|right; exact Hbin|apply Ha; exact Hbin|
                       apply Hb; exact Hain]. }
      f_equal. apply IH; [|exact Hs2|eapply Permutation_cons_inv; exact Hp].
      intros x y Hx Hy. apply Hanti; right; assumption.
Qed.

(** ** The ranking *)

Lemma ranks_before_iff (a b : Candidate.t) :
  spec_ranks_before a b <-> Py_sort.tuple_lt (sort_key a) (sort_key b) = false.
Proof.
  unfold spec_ranks_before, sort_key, Py_sort.tuple_lt.
  rewrite Order.ltb_leb.
  destruct (Z.eqb_spec (Candidate.include_frequency a * 12 - Candidate.risk_score a)
              (Candidate.include_frequency b * 12 - Candidate.risk_score b));
    cbn [negb]; [|rewrite Z.ltb_ge; lia].
  destruct (Z.eqb_spec (Candidate.include_frequency a) (Candidate.include_frequency b));
    cbn [negb]; [|rewrite Z.ltb_ge; lia].
  destruct (Z.eqb_spec (- Candidate.risk_score a) (- Candidate.risk_score b));
    cbn [negb]; [|rewrite Z.ltb_ge; lia].
  rewrite negb_false_iff. intuition lia.
Qed.

Lemma rank_candidates_perm (candidates : list Candidate.t) :
  Permutation (rank_candidates candidates) candidates.
Proof. apply list_sort_perm. Qed.

Lemma rank_candidates_sorted (candidates : list Candidate.t) :
  StronglySorted spec_ranks_before (rank_candidates candidates).
Proof.
  unfold rank_candidates, Py_sort.list_sort.
  eapply StronglySorted_weaken;
    [|apply StronglySorted_rev, stable_sort_sorted].
  - intros a b H. apply ranks_before_iff. exact H.
  - intros x y. apply Order.tuple_lt_asym.
  - intros x y z. apply Order.tuple_lt_neg_trans.
Qed.

Lemma ranks_before_total (a b : Candidate.t) :
  spec_ranks_before a b \/ spec_ranks_before b a.
Proof.
  rewrite !ranks_before_iff.
  destruct (Py_sort.tuple_lt (sort_key a) (sort_key b)) eqn:H; [|left; reflexivity].
  right. apply Order.tuple_lt_asym. exact H.
Qed.

Lemma ranks_before_antisym (a b : Candidate.t) :
  spec_ranks_before a b -> spec_ranks_before b a -> sort_key a = sort_key b.
Proof. rewrite !ranks_before_iff. apply Order.tuple_lt_connected. Qed.

Lemma ranks_before_trans (a b c : Candidate.t) :
  spec_ranks_before a b -> spec_ranks_before b c -> spec_ranks_before a c.
Proof.
  rewrite !ranks_before_iff. intros H1 H2.
  eapply Order.tuple_lt_neg_trans; eassumption.
Qed.

Lemma NoDup_map_inj_in {A B : Type} (f : A -> B) (l : list A) (a b : A) :
  List.NoDup (map f l) -> In a l -> In b l -> f a = f b -> a = b.
Proof.
  induction l as [|x l IH]; cbn; [tauto|].
  intros Hnd Ha Hb Hf. apply List.NoDup_cons_iff in Hnd. destruct Hnd as [Hx Hnd].
  destruct Ha as [->|Ha], Hb as [->|Hb]; auto.
  - exfalso. apply Hx. rewrite Hf. apply in_map. exact Hb.
  - exfalso. apply Hx. rewrite <- Hf. apply in_map. exact Ha.
Qed.

(** The ranking does not depend on the order in which the candidates were
    collected, as long as their header paths are distinct. *)
Lemma rank_candidates_unique (l l' : list Candidate.t) :
  List.NoDup (map Candidate.header l) -> Permutation l l' ->
  rank_candidates l' = rank_candidates l.
Proof.
  intros Hnd Hp. symmetry.
  apply (StronglySorted_perm_eq spec_ranks_before).
  - intros a b Ha Hb Hab Hba.
    apply (NoDup_map_inj_in Candidate.header l); try assumption.
    + eapply Permutation_in; [apply rank_candidates_perm|exact Ha].
    + eapply Permutation_in; [apply rank_candidates_perm|exact Hb].
    + pose proof (ranks_before_antisym a b Hab Hba) as Hk.
      unfold sort_key in Hk. congruence.
  - apply rank_candidates_sorted.
  - apply rank_candidates_sorted.
  - rewrite !rank_candidates_perm. exact Hp.
Qed.

Example rank_candidates_fixture :
  map Candidate.header
    (rank_candidates [Fixture.config_h; Fixture.cycle_a; Fixture.cycle_b; Fixture.util]) =
  ["include/core/util.hpp"; "include/core/cycle_b.hpp"; "include/core/cycle_a.hpp";
   "include/common/config.h"].
Proof. vm_compute. reflexivity. Qed.

(** C3: the candidates are ranked, before the list is cut to the top ones,
    by [include_frequency * 12 - risk_score] descending, then include
    frequency descending, then risk score ascending, then header path
    descending; that relation is a total order on the sort keys, so the
    ranking of candidates with distinct headers is fully determined. *)
Theorem ranking_is_total_order (candidates : list Candidate.t) (top : Z) :
  (0 <= top ->
   top_candidates top candidates = take (Z.to_nat top) (rank_candidates candidates)) /\
  Permutation (rank_candidates candidates) candidates /\
  StronglySorted spec_ranks_before (rank_candidates candidates) /\
  (forall a b, spec_ranks_before a b \/ spec_ranks_before b a) /\
  (forall a b c, spec_ranks_before a b -> spec_ranks_before b c -> spec_ranks_before a c) /\
  (forall a b, spec_ranks_before a b -> spec_ranks_before b a ->
               Candidate.header a = Candidate.header b /\
               Candidate.include_frequency a = Candidate.include_frequency b /\
               Candidate.risk_score a = Candidate.risk_score b) /\
  (forall l', List.NoDup (map Candidate.header candidates) ->
              Permutation candidates l' ->
              rank_candidates l' = rank_candidates candidates).
Proof.
  repeat split.
  - intros Htop. unfold top_candidates, Py.slice_to.
    destruct (Z.leb_spec 0 top); [reflexivity|lia].
  - apply rank_candidates_perm.
  - apply rank_candidates_sorted.
  - apply ranks_before_total.
  - apply ranks_before_trans.
  - pose proof (ranks_before_antisym a b H H0) as Hk. unfold sort_key in Hk. congruence.
  - pose proof (ranks_before_antisym a b H H0) as Hk. unfold sort_key in Hk. congruence.
  - pose proof (ranks_before_antisym a b H H0) as Hk. unfold sort_key in Hk.
    injection Hk. lia.
  - intros l' Hnd Hp. apply rank_candidates_unique; assumption.
Qed.

Lemma ranking_is_total_order_witness :
  top_candidates 2 [Fixture.config_h; Fixture.cycle_a; Fixture.util] =
    take 2 (rank_candidates [Fixture.config_h; Fixture.cycle_a; Fixture.util]) /\
  rank_candidates [Fixture.cycle_a; Fixture.config_h; Fixture.util] =
    rank_candidates [Fixture.config_h; Fixture.cycle_a; Fixture.util].
Proof.
  destruct (ranking_is_total_order
              [Fixture.config_h; Fixture.cycle_a; Fixture.util] 2)
    as (Htop & _ & _ & _ & _ & _ & Huniq).
  split.
  - apply Htop. lia.
  - apply Huniq.
    + repeat constructor; cbn; intuition discriminate.
    + apply perm_swap.
Defined.

(** ** The include resolver *)

Lemma find_app {A : Type} (f : A -> bool) (l1 l2 : list A) :
  List.find f (l1 ++ l2) =
  match List.find f l1 with
  | Some x => Some x
  | None => List.find f l2
  end.
Proof.
  induction l1 as [|x l1 IH]; cbn; [reflexivity|].
  destruct (f x); [reflexivity|exact IH].
Qed.

Lemma find_none_iff {A : Type} (f : A -> bool) (l : list A) :
  List.find f l = None <-> Forall (fun x => f x = false) l.
Proof.
  induction l as [|x l IH]; cbn.
  - split; [constructor|reflexivity].
  - destruct (f x) eqn:Hx.
    + split; [discriminate|]. intros H. inversion H; congruence.
    + rewrite IH. split; [constructor; assumption|]. intros H. inversion H; assumption.
Qed.

Lemma fold_left_append_map {A B : Type} (f : A -> B) (l : list A) (init : list B) :
  fold_left (fun acc x => Py.append acc (f x)) l init = init ++ map f l.
Proof.
  revert init. induction l as [|x l IH]; intros init; cbn.
  - rewrite app_nil_r. reflexivity.
  - rewrite IH. unfold Py.append. rewrite <- app_assoc. reflexivity.
Qed.

Section Resolver.
Variable host : Host.
Variables include_name include_kind : string.
Variable including_file : Path.

Let include_path : Path := mk_path host include_name.
Let beside : Path :=
  resolve host (joinpath host (parent host including_file) include_path).
Let under (include_dir : Path) : Path :=
  resolve host (joinpath host include_dir include_path).

(** The places that are tried, in the order in which they are tried. *)
Lemma resolve_include_search (include_dirs : list Path) :
  _resolve_include host include_name include_kind including_file include_dirs =
  if is_absolute host include_path && path_exists host include_path
  then Some (resolve host include_path)
  else List.find (path_exists host)
         ((if String.eqb include_kind QUOTED then [beside] else [])
            ++ map under include_dirs).
Proof.
  unfold _resolve_include. fold include_path.
  destruct (is_absolute host include_path && path_exists host include_path);
    [reflexivity|].
  rewrite fold_left_append_map. unfold Py.append.
  destruct (String.eqb include_kind QUOTED); reflexivity.
Qed.

Lemma find_under_first (pre post : list Path) (d : Path) :
  Forall (fun d' => path_exists host (under d') = false) pre ->
  path_exists host (under d) = true ->
  List.find (path_exists host) (map under (pre ++ d :: post)) = Some (under d).
Proof.
  intros Hpre Hd. rewrite map_app, find_app.
  replace (List.find (path_exists host) (map under pre)) with (@None Path).
  - cbn. rewrite Hd. reflexivity.
  - symmetry. apply find_none_iff. rewrite Forall_map. exact Hpre.
Qed.

Lemma find_under_none (include_dirs : list Path) :
  Forall (fun d => path_exists host (under d) = false) include_dirs ->
  List.find (path_exists host) (map under include_dirs) = None.
Proof. intros H. apply find_none_iff. rewrite Forall_map. exact H. Qed.
End Resolver.


Example resolve_include_fixture :
  _resolve_include Fixture.host "cycle_b.hpp" QUOTED "/proj/include/core/cycle_a.hpp"
    ["/usr/include"; "/proj/include"] = Some "/proj/include/core/cycle_b.hpp" /\
  _resolve_include Fixture.host "core/cycle_b.hpp" ANGLE "/proj/src/main.cpp"
    ["/usr/include"; "/proj/include"] = Some "/proj/include/core/cycle_b.hpp" /\
  _resolve_include Fixture.host "cycle_b.hpp" ANGLE "/proj/include/core/cycle_a.hpp"
    ["/usr/include"; "/proj/include"] = None /\
  _resolve_include Fixture.host "/usr/include/vector" ANGLE "/proj/src/main.cpp" [] =
    Some "/usr/include/vector".
Proof. vm_compute. repeat split. Qed.


(** ** The cycle detector *)

Lemma dfs_extends_refl (st : DfsState) : dfs_extends st st.
Proof. unfold dfs_extends. set_solver. Qed.

Lemma dfs_extends_trans (s1 s2 s3 : DfsState) :
  dfs_extends s1 s2 -> dfs_extends s2 s3 -> dfs_extends s1 s3.
Proof.
  unfold dfs_extends. intros (-> & -> & -> & ? & ?) (-> & -> & -> & ? & ?).
  set_solver.
Qed.

Lemma dfs_extends_wf (st st' : DfsState) :
  dfs_wf st -> dfs_extends st st' -> dfs_wf st'.
Proof.
  unfold dfs_wf, dfs_extends.
  intros (H1 & H2 & H3) (-> & -> & -> & ? & ?). repeat split; [set_solver|set_solver|exact H3].
Qed.

Lemma dfs_enter_wf (node : Path) (st : DfsState) :
  dfs_wf st -> dfs_wf (dfs_enter node st).
Proof.
  unfold dfs_wf, dfs_enter, Py.append. cbn. intros (H1 & H2 & H3).
  repeat split.
  - set_solver.
  - rewrite dom_insert_L. set_solver.
  - intros n Hn. destruct (decide (n = node)) as [->|Hne].
    + exists (length (stack st)). rewrite lookup_insert_eq. split; [reflexivity|].
      apply lookup_snoc_Some. right. split; reflexivity.
    + destruct (H3 n) as (i & Hi & Hs); [set_solver|].
      exists i. rewrite lookup_insert_ne by congruence. split; [exact Hi|].
      apply lookup_app_l_Some. exact Hs.
Qed.

Lemma dfs_flag_extends (child : Path) (st : DfsState) :
  dfs_extends st (flag_segment child st).
Proof. unfold dfs_extends, flag_segment. cbn. set_solver. Qed.

Lemma dfs_leave_enter (node : Path) (st s1 : DfsState) :
  dfs_wf st -> node ∉ visited st -> dfs_extends (dfs_enter node st) s1 ->
  dfs_extends st (dfs_leave node s1) /\ node ∈ visited (dfs_leave node s1).
Proof.
  unfold dfs_wf, dfs_extends, dfs_enter, dfs_leave, Py.append. cbn.
  intros (H1 & H2 & H3) Hn (-> & -> & -> & Hv & Hc).
  repeat split.
  - apply removelast_last.
  - set_solver.
  - apply delete_insert_id. apply not_elem_of_dom. set_solver.
  - set_solver.
  - set_solver.
  - set_solver.
Qed.

Section DfsFacts.
Variable iter : gset Path -> list Path.
Variable graph : Graph.

Lemma visit_children_extends rec (children : list Path) (st st' : DfsState) :
  dfs_call_ok rec ->
  visit_children graph rec children st = Some st' ->
  dfs_wf st -> dfs_extends st st'.
Proof.
  intros Hrec. revert st.
  induction children as [|child rest IH]; intros st Hrun Hwf; cbn [visit_children dfs] in Hrun.
  - injection Hrun as <-. apply dfs_extends_refl.
  - destruct (graph_mem graph child); cbn [negb] in Hrun; [|eauto].
    destruct (bool_decide_reflect (child ∈ visited st)) as [Hv|Hv]; cbn [negb] in Hrun.
    + destruct (bool_decide (child ∈ on_stack st)); [|eauto].
      eapply dfs_extends_trans; [apply (dfs_flag_extends child)|].
      apply IH; [exact Hrun|].
      eapply dfs_extends_wf; [exact Hwf|apply dfs_flag_extends].
    + destruct (rec child st) as [s1|] eqn:Hcall; [|discriminate].
      destruct (Hrec _ _ _ Hcall Hv Hwf) as [Hext _].
      eapply dfs_extends_trans; [exact Hext|].
      apply IH; [exact Hrun|]. eapply dfs_extends_wf; eassumption.
Qed.

Lemma dfs_ok (fuel : nat) : dfs_call_ok (dfs iter graph fuel).
Proof.
  induction fuel as [|fuel IH]; intros node st st' Hrun Hv Hwf; cbn in Hrun;
    [discriminate|].
  destruct (visit_children graph (dfs iter graph fuel) _ (dfs_enter node st))
    as [s1|] eqn:Hloop; [|discriminate].
  injection Hrun as <-.
  apply dfs_leave_enter; [exact Hwf|exact Hv|].
  eapply visit_children_extends; [exact IH|exact Hloop|].
  apply dfs_enter_wf. exact Hwf.
Qed.

(** After the loop every child that is a graph node has been visited. *)
Lemma visit_children_visited rec (children : list Path) (st st' : DfsState) :
  dfs_call_ok rec ->
  visit_children graph rec children st = Some st' ->
  dfs_wf st ->
  forall c, In c children -> graph_mem graph c = true -> c ∈ visited st'.
Proof.
  intros Hrec. revert st.
  induction children as [|child rest IH]; intros st Hrun Hwf c Hin Hmem;
    [destruct Hin|].
  pose proof (visit_children_extends _ _ _ _ Hrec Hrun Hwf) as Hext0.
  cbn [visit_children] in Hrun.
  destruct Hin as [->|Hin].
  - rewrite Hmem in Hrun. cbn [negb] in Hrun.
    destruct (bool_decide_reflect (c ∈ visited st)) as [Hv|Hv]; cbn [negb] in Hrun.
    + destruct Hext0 as (_ & _ & _ & Hsub & _). set_solver.
    + destruct (rec c st) as [s1|] eqn:Hcall; [|discriminate].
      destruct (Hrec _ _ _ Hcall Hv Hwf) as [Hext Hc].
      assert (Hext' : dfs_extends s1 st').
      { eapply visit_children_extends; [exact Hrec|exact Hrun|].
        eapply dfs_extends_wf; eassumption. }
      destruct Hext' as (_ & _ & _ & Hsub & _). set_solver.
  - destruct (graph_mem graph child); cbn [negb] in Hrun; [|eauto].
    destruct (bool_decide_reflect (child ∈ visited st)) as [Hv|Hv]; cbn [negb] in Hrun.
    + destruct (bool_decide (child ∈ on_stack st)); [|eauto].
      eapply IH; [exact Hrun| |exact Hin|exact Hmem].
      eapply dfs_extends_wf; [exact Hwf|apply dfs_flag_extends].
    + destruct (rec child st) as [s1|] eqn:Hcall; [|discriminate].
      destruct (Hrec _ _ _ Hcall Hv Hwf) as [Hext _].
      eapply IH; [exact Hrun| |exact Hin|exact Hmem].
      eapply dfs_extends_wf; eassumption.
Qed.

(** A child that is a graph node and is on the stack has the whole stack
    segment from its recorded position to the top put in the cycle set. *)
Lemma visit_children_flags rec (children : list Path) (st st' : DfsState) :
  dfs_call_ok rec ->
  visit_children graph rec children st = Some st' ->
  dfs_wf st ->
  forall c, In c children -> graph_mem graph c = true -> c ∈ on_stack st ->
  forall n, n ∈ drop (default 0%nat (position st !! c)) (stack st) ->
            n ∈ cycle_nodes st'.
Proof.
  intros Hrec. revert st.
  induction children as [|child rest IH]; intros st Hrun Hwf c Hin Hmem Hon n Hn;
    [destruct Hin|].
  cbn [visit_children] in Hrun.
  destruct Hin as [->|Hin].
  - rewrite Hmem in Hrun. cbn [negb] in Hrun.
    assert (Hv : c ∈ visited st) by (destruct Hwf as (H1 & _); set_solver).
    rewrite bool_decide_eq_true_2 in Hrun by exact Hv. cbn [negb] in Hrun.
    rewrite bool_decide_eq_true_2 in Hrun by exact Hon.
    assert (Hext : dfs_extends (flag_segment c st) st').
    { eapply visit_children_extends; [exact Hrec|exact Hrun|].
      eapply dfs_extends_wf; [exact Hwf|apply dfs_flag_extends]. }
    destruct Hext as (_ & _ & _ & _ & Hsub). apply Hsub.
    unfold flag_segment. cbn. apply elem_of_union. right.
    apply elem_of_list_to_set. exact Hn.
  - destruct (graph_mem graph child); cbn [negb] in Hrun; [|eauto].
    destruct (bool_decide_reflect (child ∈ visited st)) as [Hv|Hv]; cbn [negb] in Hrun.
    + destruct (bool_decide (child ∈ on_stack st)); [|eauto].
      eapply (IH (flag_segment child st)); eassumption.
    + destruct (rec child st) as [s1|] eqn:Hcall; [|discriminate].
      destruct (Hrec _ _ _ Hcall Hv Hwf) as [Hext _].
      pose proof Hext as (Hstk & Hon' & Hpos & _ & _).
      eapply (IH s1); try eassumption.
      * eapply dfs_extends_wf; eassumption.
      * rewrite Hon'. exact Hon.
      * rewrite Hpos, Hstk. exact Hn.
Qed.

Lemma visit_roots_extends (fuel : nat) (nodes : list Path) (st st' : DfsState) :
  visit_roots iter graph fuel nodes st = Some st' ->
  dfs_wf st -> dfs_extends st st'.
Proof.
  revert st.
  induction nodes as [|node rest IH]; intros st Hrun Hwf; cbn [visit_roots] in Hrun.
  - injection Hrun as <-. apply dfs_extends_refl.
  - destruct (bool_decide_reflect (node ∈ visited st)) as [Hv|Hv];
      cbn [negb] in Hrun; [eauto|].
    destruct (dfs iter graph fuel node st) as [s1|] eqn:Hcall; [|discriminate].
    destruct (dfs_ok fuel _ _ _ Hcall Hv Hwf) as [Hext _].
    eapply dfs_extends_trans; [exact Hext|].
    apply IH; [exact Hrun|]. eapply dfs_extends_wf; eassumption.
Qed.

(** After the loop over the nodes each of them has been visited. *)
Lemma visit_roots_visited (fuel : nat) (nodes : list Path) (st st' : DfsState) :
  visit_roots iter graph fuel nodes st = Some st' ->
  dfs_wf st -> forall n, In n nodes -> n ∈ visited st'.
Proof.
  revert st.
  induction nodes as [|node rest IH]; intros st Hrun Hwf n Hin; [destruct Hin|].
  pose proof (visit_roots_extends _ _ _ _ Hrun Hwf) as Hext0.
  cbn [visit_roots] in Hrun.
  destruct (bool_decide_reflect (node ∈ visited st)) as [Hv|Hv]; cbn [negb] in Hrun.
  - destruct Hin as [->|Hin]; [|eauto].
    destruct Hext0 as (_ & _ & _ & Hsub & _). set_solver.
  - destruct (dfs iter graph fuel node st) as [s1|] eqn:Hcall; [|discriminate].
    destruct (dfs_ok fuel _ _ _ Hcall Hv Hwf) as [Hext Hn].
    pose proof (dfs_extends_wf _ _ Hwf Hext) as Hwf1.
    destruct Hin as [->|Hin]; [|eauto].
    pose proof (visit_roots_extends _ _ _ _ Hrun Hwf1) as (_ & _ & _ & Hsub & _).
    set_solver.
Qed.

Hypothesis iter_complete : forall (s : gset Path) x, x ∈ s -> In x (iter s).

(** [X] is a graph node on the stack and [Y] includes it: when [Y] is
    first visited, both land in the cycle set. *)
Section BackEdge.
Variables X Y : Path.
Hypothesis X_node : graph_mem graph X = true.
Hypothesis Y_includes_X : X ∈ graph_get graph Y.

Lemma back_edge_children rec (children : list Path) (st st' : DfsState) :
  dfs_call_ok rec ->
  (forall n s s', rec n s = Some s' -> n ∉ visited s -> dfs_wf s ->
                  X ∈ on_stack s -> Y ∉ visited s -> Y ∈ visited s' ->
                  X ∈ cycle_nodes s' /\ Y ∈ cycle_nodes s') ->
  visit_children graph rec children st = Some st' ->
  dfs_wf st -> X ∈ on_stack st -> Y ∉ visited st -> Y ∈ visited st' ->
  X ∈ cycle_nodes st' /\ Y ∈ cycle_nodes st'.
Proof.
  intros Hrec Hback. revert st.
  induction children as [|child rest IH]; intros st Hrun Hwf HX HY HY';
    cbn [visit_children] in Hrun.
  - injection Hrun as <-. contradiction.
  - destruct (graph_mem graph child); cbn [negb] in Hrun; [|eauto].
    destruct (bool_decide_reflect (child ∈ visited st)) as [Hv|Hv];
      cbn [negb] in Hrun.
    + destruct (bool_decide (child ∈ on_stack st)); [|eauto].
      apply (IH (flag_segment child st)); assumption.
    + destruct (rec child st) as [s1|] eqn:Hcall; [|discriminate].
      destruct (Hrec _ _ _ Hcall Hv Hwf) as [Hext _].
      pose proof (dfs_extends_wf _ _ Hwf Hext) as Hwf1.
      destruct (decide (Y ∈ visited s1)) as [HY1|HY1].
      * destruct (Hback _ _ _ Hcall Hv Hwf HX HY HY1) as [HXc HYc].
        pose proof (visit_children_extends _ _ _ _ Hrec Hrun Hwf1)
          as (_ & _ & _ & _ & Hsub).
        split; apply Hsub; assumption.
      * apply (IH s1); try assumption.
        destruct Hext as (_ & -> & _). exact HX.
Qed.

Lemma back_edge_dfs (fuel : nat) (node : Path) (st st' : DfsState) :
  dfs iter graph fuel node st = Some st' ->
  node ∉ visited st -> dfs_wf st ->
  X ∈ on_stack st -> Y ∉ visited st -> Y ∈ visited st' ->
  X ∈ cycle_nodes st' /\ Y ∈ cycle_nodes st'.
Proof.
  revert node st st'.
  induction fuel as [|fuel IH]; intros node st st' Hrun Hv Hwf HX HY HY';
    cbn [dfs] in Hrun; [discriminate|].
  destruct (visit_children graph (dfs iter graph fuel) _ (dfs_enter node st))
    as [s1|] eqn:Hloop; [|discriminate].
  injection Hrun as <-.
  change (X ∈ cycle_nodes s1 /\ Y ∈ cycle_nodes s1).
  change (Y ∈ visited s1) in HY'.
  pose proof (dfs_enter_wf node st Hwf) as Hwf1.
  assert (HX1 : X ∈ on_stack (dfs_enter node st)) by (cbn; set_solver).
  destruct (decide (node = Y)) as [->|Hne].
  - pose proof (visit_children_flags _ _ _ _ (dfs_ok fuel) Hloop Hwf1 X
                  (iter_complete _ _ Y_includes_X) X_node HX1) as Hflag.
    destruct Hwf1 as (_ & _ & Hpos).
    destruct (Hpos X HX1) as (i & Hi & Hs).
    rewrite Hi in Hflag. change (default 0%nat (Some i)) with i in Hflag.
    change (stack (dfs_enter Y st)) with (stack st ++ [Y]) in Hflag, Hs.
    split; apply Hflag.
    + apply (list_elem_of_lookup_2 _ 0%nat). rewrite lookup_drop, Nat.add_0_r.
      exact Hs.
    + pose proof (lookup_lt_Some _ _ _ Hs) as Hlt.
      rewrite length_app in Hlt. cbn [length] in Hlt.
      apply (list_elem_of_lookup_2 _ (length (stack st) - i)%nat).
      rewrite lookup_drop.
      replace (i + (length (stack st) - i))%nat with (length (stack st)) by lia.
      apply lookup_snoc_Some. right. split; reflexivity.
  - eapply (back_edge_children _ _ _ _ (dfs_ok fuel)); try eassumption.
    cbn. set_solver.
Qed.
End BackEdge.

(** [A] and [B] are graph nodes that include each other. *)
Section MutualInclusion.
Variables A B : Path.
Hypothesis A_node : graph_mem graph A = true.
Hypothesis B_node : graph_mem graph B = true.
Hypothesis A_includes_B : B ∈ graph_get graph A.
Hypothesis B_includes_A : A ∈ graph_get graph B.
Hypothesis A_not_B : A <> B.

Lemma mutual_children rec (children : list Path) (st st' : DfsState) :
  dfs_call_ok rec ->
  (forall n s s', rec n s = Some s' -> n ∉ visited s -> dfs_wf s ->
                  A ∉ visited s -> B ∉ visited s ->
                  A ∈ visited s' \/ B ∈ visited s' ->
                  A ∈ cycle_nodes s' /\ B ∈ cycle_nodes s') ->
  visit_children graph rec children st = Some st' ->
  dfs_wf st -> A ∉ visited st -> B ∉ visited st ->
  A ∈ visited st' \/ B ∈ visited st' ->
  A ∈ cycle_nodes st' /\ B ∈ cycle_nodes st'.
Proof.
  intros Hrec Hfirst. revert st.
  induction children as [|child rest IH]; intros st Hrun Hwf HA HB Hsome;
    cbn [visit_children] in Hrun.
  - injection Hrun as <-. tauto.
  - destruct (graph_mem graph child); cbn [negb] in Hrun; [|eauto].
    destruct (bool_decide_reflect (child ∈ visited st)) as [Hv|Hv];
      cbn [negb] in Hrun.
    + destruct (bool_decide (child ∈ on_stack st)); [|eauto].
      apply (IH (flag_segment child st)); assumption.
    + destruct (rec child st) as [s1|] eqn:Hcall; [|discriminate].
      destruct (Hrec _ _ _ Hcall Hv Hwf) as [Hext _].
      pose proof (dfs_extends_wf _ _ Hwf Hext) as Hwf1.
      destruct (decide (A ∈ visited s1 \/ B ∈ visited s1)) as [H1|H1].
      * destruct (Hfirst _ _ _ Hcall Hv Hwf HA HB H1) as [HAc HBc].
        pose proof (visit_children_extends _ _ _ _ Hrec Hrun Hwf1)
          as (_ & _ & _ & _ & Hsub).
        split; apply Hsub; assumption.
      * apply (IH s1); tauto.
Qed.

Lemma mutual_dfs (fuel : nat) (node : Path) (st st' : DfsState) :
  dfs iter graph fuel node st = Some st' ->
  node ∉ visited st -> dfs_wf st ->
  A ∉ visited st -> B ∉ visited st ->
  A ∈ visited st' \/ B ∈ visited st' ->
  A ∈ cycle_nodes st' /\ B ∈ cycle_nodes st'.
Proof.
  revert node st st'.
  induction fuel as [|fuel IH]; intros node st st' Hrun Hv Hwf HA HB Hsome;
    pose proof Hrun as Hrun0; cbn [dfs] in Hrun; [discriminate|].
  destruct (visit_children graph (dfs iter graph fuel) _ (dfs_enter node st))
    as [s1|] eqn:Hloop; [|discriminate].
  injection Hrun as <-.
  change (A ∈ visited s1 \/ B ∈ visited s1) in Hsome.
  pose proof (dfs_enter_wf node st Hwf) as Hwf1.
  assert (Hvisited : forall c, c ∈ graph_get graph node ->
                               graph_mem graph c = true -> c ∈ visited s1).
  { intros c Hc Hmem.
    eapply (visit_children_visited _ _ _ _ (dfs_ok fuel) Hloop Hwf1);
      [apply iter_complete; exact Hc|exact Hmem]. }
  destruct (decide (node = A)) as [->|HnA]; [|destruct (decide (node = B)) as [->|HnB]].
  - change (A ∈ cycle_nodes s1 /\ B ∈ cycle_nodes s1).
    apply (back_edge_children A B _ _ _ _ (dfs_ok fuel)
             (back_edge_dfs A B A_node B_includes_A fuel) Hloop Hwf1).
    + cbn. set_solver.
    + cbn. set_solver.
    + apply Hvisited; assumption.
  - change (A ∈ cycle_nodes s1 /\ B ∈ cycle_nodes s1). apply and_comm.
    apply (back_edge_children B A _ _ _ _ (dfs_ok fuel)
             (back_edge_dfs B A B_node A_includes_B fuel) Hloop Hwf1).
    + cbn. set_solver.
    + cbn. set_solver.
    + apply Hvisited; assumption.
  - change (A ∈ cycle_nodes s1 /\ B ∈ cycle_nodes s1).
    eapply (mutual_children _ _ _ _ (dfs_ok fuel) IH Hloop Hwf1); cbn;
      [set_solver|set_solver|exact Hsome].
Qed.

Lemma mutual_roots (fuel : nat) (nodes : list Path) (st st' : DfsState) :
  visit_roots iter graph fuel nodes st = Some st' ->
  dfs_wf st -> A ∉ visited st -> B ∉ visited st ->
  A ∈ visited st' \/ B ∈ visited st' ->
  A ∈ cycle_nodes st' /\ B ∈ cycle_nodes st'.
Proof.
  revert st.
  induction nodes as [|node rest IH]; intros st Hrun Hwf HA HB Hsome;
    cbn [visit_roots] in Hrun.
  - injection Hrun as <-. tauto.
  - destruct (bool_decide_reflect (node ∈ visited st)) as [Hv|Hv];
      cbn [negb] in Hrun; [eauto|].
    destruct (dfs iter graph fuel node st) as [s1|] eqn:Hcall; [|discriminate].
    destruct (dfs_ok fuel _ _ _ Hcall Hv Hwf) as [Hext _].
    pose proof (dfs_extends_wf _ _ Hwf Hext) as Hwf1.
    destruct (decide (A ∈ visited s1 \/ B ∈ visited s1)) as [H1|H1].
    + destruct (mutual_dfs _ _ _ _ Hcall Hv Hwf HA HB H1) as [HAc HBc].
      pose proof (visit_roots_extends _ _ _ _ Hrun Hwf1)
        as (_ & _ & _ & _ & Hsub).
      split; apply Hsub; assumption.
    + apply (IH s1); tauto.
Qed.
End MutualInclusion.
End DfsFacts.

(** ** The recursion of the cycle detector ends *)

Lemma graph_mem_keys (graph : Graph) (n : Path) :
  graph_mem graph n = true <-> n ∈ graph_keys graph.
Proof.
  unfold graph_mem, graph_lookup, graph_keys.
  rewrite bool_decide_eq_true, elem_of_list_to_set, list_elem_of_In.
  induction graph as [|[k v] graph IH]; cbn.
  - split; [intros [x Hx]; discriminate|tauto].
  - destruct (String.eqb_spec k n) as [->|Hne]; cbn.
    + split; [tauto|]. intros _. eexists. reflexivity.
    + rewrite IH. tauto.
Qed.

Lemma graph_keys_size (graph : Graph) : (size (graph_keys graph) <= length graph)%nat.
Proof.
  unfold graph_keys. induction graph as [|[k v] graph IH]; cbn.
  - rewrite size_empty. lia.
  - rewrite size_union_alt, size_singleton.
    pose proof (subseteq_size (list_to_set (map fst graph) ∖ {[k]})
                  (list_to_set (map fst graph) : gset Path)) as Hle.
    specialize (Hle ltac:(set_solver)). lia.
Qed.

Section DfsTotal.
Variable iter : gset Path -> list Path.
Variable graph : Graph.

Lemma unvisited_enter (node : Path) (st : DfsState) :
  graph_mem graph node = true -> node ∉ visited st ->
  (size (graph_keys graph ∖ visited (dfs_enter node st)) <
   size (graph_keys graph ∖ visited st))%nat.
Proof.
  intros Hmem Hv. apply graph_mem_keys in Hmem.
  apply subset_size. cbn. set_solver.
Qed.

Lemma unvisited_extends (st st' : DfsState) (fuel : nat) :
  dfs_extends st st' ->
  (size (graph_keys graph ∖ visited st) <= fuel)%nat ->
  (size (graph_keys graph ∖ visited st') <= fuel)%nat.
Proof.
  intros (_ & _ & _ & Hsub & _) Hle.
  etransitivity; [apply subseteq_size|exact Hle]. set_solver.
Qed.

Lemma visit_children_total rec (fuel : nat) (children : list Path) (st : DfsState) :
  dfs_call_ok rec ->
  (forall c s, graph_mem graph c = true -> c ∉ visited s -> dfs_wf s ->
               (size (graph_keys graph ∖ visited s) <= fuel)%nat ->
               exists s', rec c s = Some s') ->
  dfs_wf st -> (size (graph_keys graph ∖ visited st) <= fuel)%nat ->
  exists st', visit_children graph rec children st = Some st'.
Proof.
  intros Hok Hrec. revert st.
  induction children as [|child rest IH]; intros st Hwf Hle; cbn [visit_children].
  - eexists. reflexivity.
  - destruct (graph_mem graph child) eqn:Hmem; cbn [negb]; [|eauto].
    destruct (bool_decide_reflect (child ∈ visited st)) as [Hv|Hv]; cbn [negb].
    + destruct (bool_decide (child ∈ on_stack st)); [|eauto].
      apply IH; assumption.
    + destruct (Hrec child st Hmem Hv Hwf Hle) as [s1 Hcall]. rewrite Hcall.
      destruct (Hok _ _ _ Hcall Hv Hwf) as [Hext _].
      apply IH; [eapply dfs_extends_wf; eassumption|].
      eapply unvisited_extends; eassumption.
Qed.

(** A call of [dfs] returns when the fuel covers the nodes not yet
    visited. *)
Lemma dfs_total (fuel : nat) (node : Path) (st : DfsState) :
  graph_mem graph node = true -> node ∉ visited st -> dfs_wf st ->
  (size (graph_keys graph ∖ visited st) <= fuel)%nat ->
  exists st', dfs iter graph fuel node st = Some st'.
Proof.
  revert node st.
  induction fuel as [|fuel IH]; intros node st Hmem Hv Hwf Hle;
    pose proof (unvisited_enter node st Hmem Hv) as Hlt; [lia|].
  cbn [dfs].
  destruct (visit_children_total (dfs iter graph fuel) fuel
              (iter (graph_get graph node)) (dfs_enter node st)
              (dfs_ok iter graph fuel)) as [s1 Hloop];
    [intros c s Hc Hcv Hcwf Hcle; apply IH; assumption
    |apply dfs_enter_wf; exact Hwf|lia|].
  rewrite Hloop. eexists. reflexivity.
Qed.

Lemma visit_roots_total (fuel : nat) (nodes : list Path) (st : DfsState) :
  (forall n, In n nodes -> graph_mem graph n = true) ->
  dfs_wf st -> (size (graph_keys graph ∖ visited st) <= fuel)%nat ->
  exists st', visit_roots iter graph fuel nodes st = Some st'.
Proof.
  revert st.
  induction nodes as [|node rest IH]; intros st Hnodes Hwf Hle; cbn [visit_roots].
  - eexists. reflexivity.
  - assert (Hrest : forall n, In n rest -> graph_mem graph n = true)
      by (intros n Hn; apply Hnodes; right; exact Hn).
    destruct (bool_decide_reflect (node ∈ visited st)) as [Hv|Hv]; cbn [negb];
      [apply IH; assumption|].
    destruct (dfs_total fuel node st) as [s1 Hcall];
      [apply Hnodes; left; reflexivity|exact Hv|exact Hwf|exact Hle|].
    rewrite Hcall.
    destruct (dfs_ok iter graph fuel _ _ _ Hcall Hv Hwf) as [Hext _].
    apply IH; [exact Hrest|eapply dfs_extends_wf; eassumption|].
    eapply unvisited_extends; eassumption.
Qed.

Lemma dfs_init_wf : dfs_wf dfs_init.
Proof.
  unfold dfs_wf, dfs_init. cbn. repeat split; try set_solver.
Qed.

(** The cycle detector returns, whatever the graph and the iteration
    order of its sets. *)
Lemma detect_cycle_nodes_total :
  exists st, visit_roots iter graph (S (length graph)) (map fst graph) dfs_init = Some st /\
             _detect_cycle_nodes iter graph = Some (cycle_nodes st).
Proof.
  destruct (visit_roots_total (S (length graph)) (map fst graph) dfs_init)
    as [st Hst].
  - intros n Hn. apply graph_mem_keys. unfold graph_keys.
    apply elem_of_list_to_set, list_elem_of_In. exact Hn.
  - apply dfs_init_wf.
  - pose proof (graph_keys_size graph) as Hsz.
    pose proof (subseteq_size (graph_keys graph ∖ visited dfs_init) (graph_keys graph))
      as Hle.
    specialize (Hle ltac:(set_solver)). lia.
  - exists st. split; [exact Hst|]. unfold _detect_cycle_nodes. rewrite Hst. reflexivity.
Qed.
End DfsTotal.


Example detect_cycle_nodes_pair :
  _detect_cycle_nodes elements
    [("/proj/include/core/cycle_a.hpp", {["/proj/include/core/cycle_b.hpp"]});
     ("/proj/include/core/cycle_b.hpp", {["/proj/include/core/cycle_a.hpp"]})] =
  Some {["/proj/include/core/cycle_a.hpp"; "/proj/include/core/cycle_b.hpp"]}.
Proof. vm_compute. reflexivity. Qed.


(** ** Iteration order and the cycle set *)

Lemma forwards_enumerates (s : gset Path) (x : Path) :
  In x (GraphFixture.forwards s) <-> x ∈ s.
Proof. unfold GraphFixture.forwards. rewrite <- list_elem_of_In. apply elem_of_elements. Qed.

Lemma backwards_enumerates (s : gset Path) (x : Path) :
  In x (GraphFixture.backwards s) <-> x ∈ s.
Proof.
  unfold GraphFixture.backwards. rewrite <- in_rev, <- list_elem_of_In.
  apply elem_of_elements.
Qed.

(** C9 fails on the code: the cycle set depends on the order in which the
    sets of the graph are iterated. On one and the same graph, the two
    orders flag different sets of headers: [b.hpp], which lies on the cycle
    a, b, c, is flagged under one order and not under the other. *)
Theorem detect_cycle_nodes_order_dependent :
  (forall s x, In x (GraphFixture.forwards s) <-> x ∈ s) /\
  (forall s x, In x (GraphFixture.backwards s) <-> x ∈ s) /\
  _detect_cycle_nodes GraphFixture.forwards GraphFixture.triangle =
    Some {[GraphFixture.a_hpp; GraphFixture.c_hpp]} /\
  _detect_cycle_nodes GraphFixture.backwards GraphFixture.triangle =
    Some {[GraphFixture.a_hpp; GraphFixture.b_hpp; GraphFixture.c_hpp]} /\
  _detect_cycle_nodes GraphFixture.forwards GraphFixture.triangle <>
  _detect_cycle_nodes GraphFixture.backwards GraphFixture.triangle.
Proof.
  split; [exact forwards_enumerates|]. split; [exact backwards_enumerates|].
  assert (H1 : _detect_cycle_nodes GraphFixture.forwards GraphFixture.triangle =
               Some {[GraphFixture.a_hpp; GraphFixture.c_hpp]})
    by (vm_compute; reflexivity).
  assert (H2 : _detect_cycle_nodes GraphFixture.backwards GraphFixture.triangle =
               Some {[GraphFixture.a_hpp; GraphFixture.b_hpp; GraphFixture.c_hpp]})
    by (vm_compute; reflexivity).
  split; [exact H1|]. split; [exact H2|].
  rewrite H1, H2. intros Heq. apply (inj Some) in Heq.
  assert (Hb : GraphFixture.b_hpp ∈
               ({[GraphFixture.a_hpp; GraphFixture.b_hpp; GraphFixture.c_hpp]}
                : gset Path)) by set_solver.
  rewrite <- Heq in Hb. set_unfold in Hb. destruct Hb; discriminate.
Qed.

(** ** Headers that cannot be read *)

Example parse_includes_fixture :
  _parse_includes Fixture.host "/proj/src/main.cpp" =
    [(ANGLE, "vector"); (QUOTED, "core/cycle_a.hpp"); (QUOTED, "common/config.h");
     (QUOTED, "missing.hpp")] /\
  _count_defines Fixture.host "/proj/include/common/config.h" = 9 /\
  _count_defines Fixture.host "/proj/src/main.cpp" = 0.
Proof. vm_compute. repeat split. Qed.

(** X1: a header whose text cannot be read, because it is missing or
    because opening or reading it raises an [OSError], has no includes and
    no macros, and the turn of the scanning loop that meets it goes on with
    the rest of the queue: the header is skipped when it is missing or
    already scanned, and otherwise marked as scanned with zero macros and no
    edges. *)
Theorem unreadable_header_degrades (host : Host) (project_root : Path)
    (all_include_dirs : list Path) (header : Path) (st : Scan.t) :
  path_exists host header = false \/ read_lines host header = ReadOSError ->
  _parse_includes host header = [] /\
  _count_defines host header = 0 /\
  scan_header host project_root all_include_dirs header st =
    (if bool_decide (header ∈ Scan.scanned_headers st) || negb (path_exists host header)
     then st else Scan.mark_scanned header 0 st) /\
  (forall fuel rest,
      Scan.header_queue st = header :: rest ->
      drain_queue (S fuel) host project_root all_include_dirs st =
      drain_queue fuel host project_root all_include_dirs
        (if bool_decide (header ∈ Scan.scanned_headers st) || negb (path_exists host header)
         then Scan.set_queue rest st
         else Scan.mark_scanned header 0 (Scan.set_queue rest st))).
Proof.
  intros Hbad.
  assert (Hinc : _parse_includes host header = []).
  { unfold _parse_includes. destruct Hbad as [-> | ->]; [reflexivity|].
    destruct (path_exists host header); reflexivity. }
  assert (Hdef : _count_defines host header = 0).
  { unfold _count_defines. destruct Hbad as [-> | ->]; [reflexivity|].
    destruct (negb (path_exists host header) || negb (_is_header header)); reflexivity. }
  assert (Hturn : forall s,
             scan_header host project_root all_include_dirs header s =
             (if bool_decide (header ∈ Scan.scanned_headers s)
                 || negb (path_exists host header)
              then s else Scan.mark_scanned header 0 s)).
  { intros s. unfold scan_header. rewrite Hinc, Hdef. reflexivity. }
  repeat split; try assumption.
  - apply Hturn.
  - intros fuel rest Hq. cbn [drain_queue]. rewrite Hq, Hturn. reflexivity.
Qed.

Lemma unreadable_header_degrades_witness :
  _parse_includes Fixture.host "/proj/include/core/locked.hpp" = [] /\
  _count_defines Fixture.host "/proj/include/core/locked.hpp" = 0.
Proof.
  destruct (unreadable_header_degrades Fixture.host "/proj" ["/proj/include"]
              "/proj/include/core/locked.hpp" Scan.init) as (H1 & H2 & _).
  - right. reflexivity.
  - split; assumption.
Defined.

(** ** Unresolved includes *)

Lemma token_quoted (include_name : string) :
  String.prefix QUOTED (_token QUOTED include_name) = true.
Proof.
  unfold _token. change (String.eqb QUOTED ANGLE) with false.
  unfold QUOTED. cbn. destruct (ascii_dec Py.dquote Py.dquote); [|congruence].
  destruct (include_name +:+ _); reflexivity.
Qed.

Section OnlyQuoted.
Variable host : Host.
Variable project_root : Path.

(** Every recorded unresolved include is a quoted one. *)
Let only_quoted (st : Scan.t) : Prop :=
  Forall (fun e => String.prefix QUOTED (snd e) = true) (Scan.unresolved_includes st).

Lemma scan_tu_include_quoted tu st include :
  only_quoted st -> only_quoted (scan_tu_include host project_root tu st include).
Proof.
  unfold only_quoted, scan_tu_include. destruct include as [kind include_name].
  intros H.
  destruct (_resolve_include host include_name kind _ _) as [resolved|].
  - destruct (_is_header resolved); [|exact H].
    destruct (_is_project_path host resolved project_root); exact H.
  - destruct (String.eqb_spec kind QUOTED) as [->|]; [|exact H].
    cbn. unfold Py.append. apply Forall_app. split; [exact H|].
    constructor; [apply token_quoted|constructor].
Qed.

Lemma scan_header_include_quoted dirs header st include :
  only_quoted st ->
  only_quoted (scan_header_include host project_root dirs header st include).
Proof.
  unfold only_quoted, scan_header_include. destruct include as [kind include_name].
  intros H.
  destruct (_resolve_include host include_name kind _ _) as [resolved|].
  - destruct (_is_header resolved); [|exact H]. cbn [negb].
    destruct (_is_project_path host resolved project_root); exact H.
  - destruct (String.eqb_spec kind QUOTED) as [->|]; [|exact H].
    cbn. unfold Py.append. apply Forall_app. split; [exact H|].
    constructor; [apply token_quoted|constructor].
Qed.

Lemma fold_left_preserves {A B : Type} (P : A -> Prop) (f : A -> B -> A) (l : list B) :
  (forall a b, P a -> P (f a b)) -> forall a, P a -> P (fold_left f l a).
Proof.
  intros Hf. induction l as [|b l IH]; intros a Ha; cbn; [exact Ha|].
  apply IH, Hf, Ha.
Qed.

Lemma scan_translation_units_quoted tus st :
  only_quoted st -> only_quoted (scan_translation_units host project_root tus st).
Proof.
  unfold scan_translation_units. apply fold_left_preserves.
  intros a tu. apply fold_left_preserves. intros a' inc.
  apply scan_tu_include_quoted.
Qed.

Lemma scan_header_quoted dirs header st :
  only_quoted st -> only_quoted (scan_header host project_root dirs header st).
Proof.
  unfold scan_header. intros H.
  destruct (bool_decide _ || negb _); [exact H|].
  apply fold_left_preserves; [|exact H].
  intros a inc. apply scan_header_include_quoted.
Qed.

Lemma drain_queue_quoted fuel dirs st st' :
  drain_queue fuel host project_root dirs st = Some st' ->
  only_quoted st -> only_quoted st'.
Proof.
  revert st. induction fuel as [|fuel IH]; intros st Hrun H; cbn [drain_queue] in Hrun.
  - destruct (Scan.header_queue st); [|discriminate]. injection Hrun as <-. exact H.
  - destruct (Scan.header_queue st) as [|header rest] eqn:Hq.
    + injection Hrun as <-. exact H.
    + eapply IH; [exact Hrun|]. apply scan_header_quoted. exact H.
Qed.
End OnlyQuoted.

Lemma readiness_checks_resolution (tus : list TranslationUnit.t)
    (macro_counts : list (Path * Z)) (cycle_nodes : gset Path) (unresolved_count : Z) :
  nth_error (_build_readiness_checks tus macro_counts cycle_nodes unresolved_count) 3 =
  Some (Check.mk "Include resolution quality"
          (if unresolved_count =? 0 then "pass" else "warn")
          (if unresolved_count =? 0 then "All scanned includes resolved"
           else pretty unresolved_count +:+ " unresolved include(s); verify include paths")).
Proof. reflexivity. Qed.

Lemma assemble_report_unresolved (host : Host) (iter : gset Path -> list Path)
    (compile_commands project_root : Path) (tus : list TranslationUnit.t)
    (top : Z) (st : Scan.t) (report : PlannerReport.t) :
  assemble_report host iter compile_commands project_root tus top st = Ok report ->
  PlannerReport.unresolved_includes report = take 50 (Scan.unresolved_includes st) /\
  exists cycle_nodes,
    PlannerReport.readiness_checks report =
    _build_readiness_checks tus (Scan.macro_counts st) cycle_nodes
      (Z.of_nat (length (Scan.unresolved_includes st))).
Proof.
  unfold assemble_report.
  destruct (_detect_cycle_nodes iter (Scan.header_graph st)) as [cycle_nodes|];
    [|discriminate].
  destruct (build_candidates host project_root st cycle_nodes _) as [candidates| |];
    cbn; [|discriminate|discriminate].
  intros H. injection H as <-. cbn. split; [reflexivity|].
  exists cycle_nodes. reflexivity.
Qed.

Lemma scan_project_quoted (fuel : nat) (host : Host) (rt : Runtime)
    (compile_commands : Path) (tus : list TranslationUnit.t) (st : Scan.t) :
  scan_project fuel host rt compile_commands = Ok (tus, st) ->
  Forall (fun e => String.prefix QUOTED (snd e) = true) (Scan.unresolved_includes st).
Proof.
  unfold scan_project.
  destruct (_load_compile_commands host rt compile_commands) as [entries| |];
    cbn; [|discriminate|discriminate].
  destruct (_collect_translation_units host rt entries compile_commands)
    as [tus'| |]; cbn; [|discriminate|discriminate].
  destruct tus' as [|tu tus']; [discriminate|].
  destruct (drain_queue fuel host _ _ _) as [st'|] eqn:Hdrain; [|discriminate].
  intros H. injection H as <- <-.
  eapply drain_queue_quoted; [exact Hdrain|].
  apply scan_translation_units_quoted. constructor.
Qed.

(** X2: the report keeps the first 50 unresolved quoted includes, the
    summary counts the kept ones, so at most 50, and the readiness check
    states the number of all of them; the two numbers differ when more than
    50 quoted includes are unresolved. *)
Theorem unresolved_count_is_truncated (fuel : nat) (host : Host) (rt : Runtime)
    (iter : gset Path -> list Path) (compile_commands_path : string) (top : Z)
    (report : PlannerReport.t) :
  analyze_compile_commands fuel host rt iter compile_commands_path top = Ok report ->
  exists tus st,
    scan_project fuel host rt
      (resolve host (expanduser rt (mk_path host compile_commands_path))) = Ok (tus, st) /\
    let unresolved := Scan.unresolved_includes st in
    let total := Z.of_nat (length unresolved) in
    let count :=
      PlannerReport.unresolved_include_count
        (PlannerReport.summary (PlannerReport.to_dict report)) in
    Forall (fun e => String.prefix QUOTED (snd e) = true) unresolved /\
    PlannerReport.unresolved_includes report = take 50 unresolved /\
    count = Z.min 50 total /\
    count <= 50 /\
    nth_error (PlannerReport.readiness_checks report) 3 =
      Some (Check.mk "Include resolution quality"
              (if total =? 0 then "pass" else "warn")
              (if total =? 0 then "All scanned includes resolved"
               else pretty total +:+ " unresolved include(s); verify include paths")) /\
    (50 < total -> count <> total).
Proof.
  unfold analyze_compile_commands.
  destruct (scan_project fuel host rt _) as [[tus st]| |] eqn:Hscan;
    intros Hreport; cbn in Hreport; [|discriminate|discriminate].
  exists tus, st. split; [reflexivity|].
  destruct (assemble_report_unresolved _ _ _ _ _ _ _ _ Hreport)
    as (Hkept & cycle_nodes & Hchecks).
  assert (Hlen : Z.of_nat (length (PlannerReport.unresolved_includes report)) =
                 Z.min 50 (Z.of_nat (length (Scan.unresolved_includes st))))
    by (rewrite Hkept, length_take; lia).
  cbv zeta. change (PlannerReport.unresolved_include_count
                      (PlannerReport.summary (PlannerReport.to_dict report)))
    with (Z.of_nat (length (PlannerReport.unresolved_includes report))).
  split; [eapply scan_project_quoted; exact Hscan|].
  split; [exact Hkept|].
  split; [exact Hlen|].
  split; [lia|].
  split; [rewrite Hchecks; apply readiness_checks_resolution|].
  lia.
Qed.

(** With 51 unresolved quoted includes the summary says 50 and the
    readiness check says 51. *)
Example unresolved_count_fixture :
  exists report,
    analyze_compile_commands 5 Fixture.host_many_missing Fixture.runtime
      GraphFixture.forwards "/proj/compile_commands.json" 10 = Ok report /\
    PlannerReport.unresolved_include_count
      (PlannerReport.summary (PlannerReport.to_dict report)) = 50 /\
    Check.details <$> nth_error (PlannerReport.readiness_checks report) 3 =
      Some "51 unresolved include(s); verify include paths".
Proof.
  destruct (analyze_compile_commands 5 Fixture.host_many_missing Fixture.runtime
              GraphFixture.forwards "/proj/compile_commands.json" 10)
    as [report| |] eqn:H; vm_compute in H; try discriminate.
  exists report. injection H as <-. vm_compute. repeat split.
Qed.

Lemma unresolved_count_is_truncated_witness :
  exists report tus st,
    analyze_compile_commands 5 Fixture.host_many_missing Fixture.runtime
      GraphFixture.forwards "/proj/compile_commands.json" 10 = Ok report /\
    scan_project 5 Fixture.host_many_missing Fixture.runtime
      "/proj/compile_commands.json" = Ok (tus, st) /\
    PlannerReport.unresolved_includes report = take 50 (Scan.unresolved_includes st) /\
    PlannerReport.unresolved_include_count
      (PlannerReport.summary (PlannerReport.to_dict report)) <>
    Z.of_nat (length (Scan.unresolved_includes st)).
Proof.
  destruct (analyze_compile_commands 5 Fixture.host_many_missing Fixture.runtime
              GraphFixture.forwards "/proj/compile_commands.json" 10)
    as [report| |] eqn:H.
  - destruct (unresolved_count_is_truncated _ _ _ _ _ _ _ H)
      as (tus & st & Hscan & _ & Hkept & _ & _ & _ & Hdiff).
    exists report, tus, st. repeat split; try assumption.
    apply Hdiff. change (resolve Fixture.host_many_missing
                           (expanduser Fixture.runtime
                              (mk_path Fixture.host_many_missing
                                 "/proj/compile_commands.json")))
      with "/proj/compile_commands.json" in Hscan.
    vm_compute in Hscan. injection Hscan as <- <-. vm_compute. reflexivity.
  - vm_compute in H. discriminate.
  - vm_compute in H. discriminate.
Defined.

(** ** The scanning loop ends *)

Section ScanTermination.
Variable host : Host.
Variable project_root : Path.
Variable dirs : list Path.

Lemma scan_header_include_step (header : Path) (st : Scan.t) (include : string * string) :
  Scan.scanned_headers (scan_header_include host project_root dirs header st include) =
    Scan.scanned_headers st /\
  (length (Scan.header_queue (scan_header_include host project_root dirs header st include))
   <= S (length (Scan.header_queue st)))%nat.
Proof.
  unfold scan_header_include. destruct include as [kind include_name].
  destruct (_resolve_include host include_name kind header dirs) as [resolved|].
  - destruct (_is_header resolved); cbn [negb]; [|cbn; split; [reflexivity|lia]].
    destruct (_is_project_path host resolved project_root); cbn;
      [|split; [reflexivity|lia]].
    unfold Py.append. rewrite length_app. cbn. split; [reflexivity|lia].
  - destruct (String.eqb kind QUOTED); cbn; split; (reflexivity || lia).
Qed.

Lemma scan_header_includes_step (header : Path) (includes : list (string * string))
    (st : Scan.t) :
  Scan.scanned_headers
    (fold_left (scan_header_include host project_root dirs header) includes st) =
    Scan.scanned_headers st /\
  (length (Scan.header_queue
             (fold_left (scan_header_include host project_root dirs header) includes st))
   <= length (Scan.header_queue st) + length includes)%nat.
Proof.
  revert st. induction includes as [|include includes IH]; intros st; cbn [fold_left].
  - split; [reflexivity|]. cbn. lia.
  - destruct (IH (scan_header_include host project_root dirs header st include))
      as [Hs Hq].
    destruct (scan_header_include_step header st include) as [Hs1 Hq1].
    rewrite Hs, Hs1. split; [reflexivity|]. cbn [length]. lia.
Qed.

Variable universe : list Path.

Lemma list_sum_cons (n : nat) (l : list nat) : list_sum (n :: l) = (n + list_sum l)%nat.
Proof. reflexivity. Qed.

Lemma pending_cost_mono (l : list Path) (s s' : gset Path) :
  s ⊆ s' -> (pending_cost host l s' <= pending_cost host l s)%nat.
Proof.
  intros Hsub. unfold pending_cost. induction l as [|p l IH]; cbn [map];
    [reflexivity|rewrite !list_sum_cons].
  destruct (bool_decide_reflect (p ∈ s')) as [H'|H'];
    destruct (bool_decide_reflect (p ∈ s)) as [H|H]; try lia.
  exfalso. apply H'. apply Hsub. exact H.
Qed.

Lemma pending_cost_scanned (l : list Path) (header : Path) (s : gset Path) :
  In header l -> header ∉ s ->
  (pending_cost host l ({[header]} ∪ s) + scan_cost host header
   <= pending_cost host l s)%nat.
Proof.
  intros Hin Hs. induction l as [|p l IH]; [destruct Hin|].
  unfold pending_cost in *. cbn [map]. rewrite !list_sum_cons.
  destruct (decide (p = header)) as [->|Hne].
  - rewrite bool_decide_eq_true_2 by set_solver.
    rewrite (bool_decide_eq_false_2 (header ∈ s)) by exact Hs.
    pose proof (pending_cost_mono l s ({[header]} ∪ s) ltac:(set_solver)) as Hmono.
    unfold pending_cost in Hmono. lia.
  - destruct Hin as [Heq|Hin]; [congruence|].
    specialize (IH Hin).
    destruct (bool_decide_reflect (p ∈ {[header]} ∪ s)) as [H'|H'];
      destruct (bool_decide_reflect (p ∈ s)) as [H|H]; try lia;
      exfalso; set_solver.
Qed.

Hypothesis universe_complete : forall p, path_exists host p = true -> In p universe.

(** A turn of the loop lowers the weight. *)
Lemma scan_header_weight (header : Path) (rest : list Path) (st : Scan.t) :
  Scan.header_queue st = header :: rest ->
  (scan_weight host universe
     (scan_header host project_root dirs header (Scan.set_queue rest st))
   < scan_weight host universe st)%nat.
Proof.
  intros Hq. unfold scan_weight, scan_header. rewrite Hq. cbn [Scan.scanned_headers Scan.set_queue].
  destruct (bool_decide_reflect (header ∈ Scan.scanned_headers st)) as [Hs|Hs];
    cbn [orb]; [cbn; lia|].
  destruct (path_exists host header) eqn:Hex; cbn [negb]; [|cbn; lia].
  destruct (scan_header_includes_step header (_parse_includes host header)
              (Scan.mark_scanned header (_count_defines host header)
                 (Scan.set_queue rest st))) as [Hscanned Hqueue].
  rewrite Hscanned. cbn [Scan.scanned_headers Scan.mark_scanned Scan.header_queue
                           Scan.set_queue] in *.
  pose proof (pending_cost_scanned universe header (Scan.scanned_headers st)
                (universe_complete header Hex) Hs) as Hcost.
  unfold scan_cost in Hcost. cbn [length]. lia.
Qed.

Lemma drain_queue_total (fuel : nat) (st : Scan.t) :
  (scan_weight host universe st <= fuel)%nat ->
  exists st', drain_queue fuel host project_root dirs st = Some st'.
Proof.
  revert st. induction fuel as [|fuel IH]; intros st Hw; cbn [drain_queue];
    destruct (Scan.header_queue st) as [|header rest] eqn:Hq;
    try (eexists; reflexivity).
  - exfalso. unfold scan_weight in Hw. rewrite Hq in Hw. cbn in Hw. lia.
  - apply IH. pose proof (scan_header_weight header rest st Hq). lia.
Qed.
End ScanTermination.

(** More fuel does not change the result. *)
Lemma drain_queue_more_fuel (fuel fuel' : nat) (host : Host) (project_root : Path)
    (dirs : list Path) (st st' : Scan.t) :
  drain_queue fuel host project_root dirs st = Some st' -> (fuel <= fuel')%nat ->
  drain_queue fuel' host project_root dirs st = Some st'.
Proof.
  revert fuel' st. induction fuel as [|fuel IH]; intros fuel' st Hrun Hle;
    cbn [drain_queue] in Hrun.
  - destruct (Scan.header_queue st) eqn:Hq; [|discriminate].
    destruct fuel'; cbn [drain_queue]; rewrite Hq; exact Hrun.
  - destruct fuel' as [|fuel']; [lia|]. cbn [drain_queue].
    destruct (Scan.header_queue st) as [|header rest]; [exact Hrun|].
    apply IH; [exact Hrun|lia].
Qed.

(** ** Input errors and exit codes *)

Lemma translation_unit_of_typed (host : Host) (rt : Runtime) (cc : Path)
    (fields : list (string * JSON)) :
  well_typed_entry (JDict fields) = true ->
  exists tu, translation_unit_of host rt cc fields = Ok tu /\
             (tu = None <-> has_file_value (JDict fields) = false).
Proof.
  unfold well_typed_entry, translation_unit_of, has_file_value, path_of_value.
  destruct (PyValue.get "file" fields) as [|b|n|z|s|l|d];
    destruct (PyValue.get "directory" fields) as [|b'|n'|z'|s'|l'|d'];
    cbn [PyValue.truthy is_str andb negb];
    intros Htyped;
    repeat (cbn in *;
            match goal with
            | H : context [if ?c then _ else _] |- _ => destruct c eqn:?
            | |- context [if ?c then _ else _] => destruct c eqn:?
            end);
    cbn in *; try discriminate;
    eexists; (split; [reflexivity|]); split; congruence.
Qed.

Lemma collect_translation_units_typed (host : Host) (rt : Runtime) (cc : Path)
    (items : list JSON) :
  forallb well_typed_entry items = true ->
  exists tus,
    _collect_translation_units host rt (omap PyValue.dict_fields items) cc = Ok tus /\
    (tus = [] <-> forallb (fun entry => negb (has_file_value entry)) items = true).
Proof.
  induction items as [|item items IH]; intros Htyped.
  - exists []. split; [reflexivity|tauto].
  - cbn [forallb] in Htyped |- *. apply andb_true_iff in Htyped.
    destruct Htyped as [Hitem Hitems]. destruct (IH Hitems) as (tus & Hrun & Hnil).
    destruct item as [| | | | |l|fields];
      try (exists tus; split; [exact Hrun|cbn; exact Hnil]).
    cbn [omap list_omap PyValue.dict_fields _collect_translation_units].
    destruct (translation_unit_of_typed host rt cc fields Hitem) as (tu & Htu & Hnone).
    rewrite Htu. cbn [mbind outcome_bind]. rewrite Hrun. cbn [mbind outcome_bind].
    destruct (has_file_value (JDict fields)); cbn [negb andb].
    + destruct tu as [tu|]; [|destruct Hnone as [Hnone _]; discriminate (Hnone eq_refl)].
      exists (tu :: tus). split; [reflexivity|]. split; discriminate.
    + destruct Hnone as [_ Hnone]. rewrite (Hnone eq_refl).
      exists tus. split; [reflexivity|exact Hnil].
Qed.

Lemma build_candidates_ok (host : Host) (project_root : Path) (st : Scan.t)
    (cycle_nodes : gset Path) (headers : list Path) :
  (forall header, In header headers ->
                  exists name, _suggest_module_name host header project_root = Ok name) ->
  exists candidates,
    build_candidates host project_root st cycle_nodes headers = Ok candidates.
Proof.
  induction headers as [|header headers IH]; intros Hnamed; cbn [build_candidates].
  - eexists. reflexivity.
  - destruct (Hnamed header (or_introl eq_refl)) as [name Hname].
    destruct IH as [candidates Hrest]; [intros h Hh; apply Hnamed; right; exact Hh|].
    unfold build_candidate.
    destruct (_risk_score header _ _ _) as [risk rationale].
    rewrite Hname. cbn. rewrite Hrest. cbn. eexists. reflexivity.
Qed.

Lemma sorted_paths_in (iter : gset Path -> list Path) (s : gset Path) (p : Path) :
  In p (sorted_paths iter s) -> In p (iter s).
Proof.
  unfold sorted_paths. apply Permutation_in. apply list_sort_perm.
Qed.

Lemma assemble_report_ok (host : Host) (iter : gset Path -> list Path)
    (compile_commands project_root : Path) (tus : list TranslationUnit.t)
    (top : Z) (st : Scan.t) :
  (forall header, In header (iter (all_project_headers host project_root st)) ->
                  exists name, _suggest_module_name host header project_root = Ok name) ->
  exists report,
    assemble_report host iter compile_commands project_root tus top st = Ok report.
Proof.
  intros Hnamed. unfold assemble_report.
  destruct (detect_cycle_nodes_total iter (Scan.header_graph st)) as (dst & _ & ->).
  destruct (build_candidates_ok host project_root st (cycle_nodes dst)
              (sorted_paths iter (all_project_headers host project_root st)))
    as [candidates ->].
  - intros header Hin. apply Hnamed, sorted_paths_in, Hin.
  - cbn. eexists. reflexivity.
Qed.

Lemma scan_project_loaded (fuel : nat) (host : Host) (rt : Runtime) (cc : Path)
    (items : list JSON) (tus : list TranslationUnit.t) :
  path_exists host cc = true ->
  load_json rt cc = LoadPayload (JList items) ->
  _collect_translation_units host rt (omap PyValue.dict_fields items) cc = Ok tus ->
  tus <> [] ->
  scan_project fuel host rt cc =
  match drain_queue fuel host (project_root_of host tus cc) (all_include_dirs_of host tus)
          (scan_translation_units host (project_root_of host tus cc) tus Scan.init) with
  | None => OutOfFuel
  | Some st => Ok (tus, st)
  end.
Proof.
  intros Hex Hload Hcollect Hne. unfold scan_project, _load_compile_commands.
  rewrite Hex, Hload. cbn [negb mbind outcome_bind]. rewrite Hcollect.
  cbn [mbind outcome_bind]. destruct tus; [congruence|reflexivity].
Qed.

(** What [main] prints for a report. *)
Lemma main_of_analysis (fuel : nat) (host : Host) (rt : Runtime)
    (iter : gset Path -> list Path) (args : Cli.Args) (report : PlannerReport.t) :
  analyze_compile_commands fuel host rt iter (Cli.compile_commands args) (Cli.top args)
    = Ok report ->
  Cli.main fuel host rt iter args =
  Ok (0, if Cli.as_json args then Cli.PrintJson (PlannerReport.to_dict report)
         else Cli.PrintText report).
Proof. unfold Cli.main. intros ->. reflexivity. Qed.

Section ExitCodes.
Variable host : Host.
Variable rt : Runtime.
Variable iter : gset Path -> list Path.
Variable args : Cli.Args.

Let cc : Path := resolve host (expanduser rt (mk_path host (Cli.compile_commands args))).

Lemma main_input_error :
  (forall items, load_json rt cc = LoadPayload (JList items) ->
                 forallb well_typed_entry items = true) ->
  spec_input_error host rt cc = true ->
  exists msg, forall fuel, Cli.main fuel host rt iter args = Ok (2, Cli.PrintError msg).
Proof.
  intros Htyped. unfold spec_input_error, Cli.main, analyze_compile_commands,
    scan_project, _load_compile_commands. fold cc.
  destruct (path_exists host cc); cbn [negb orb].
  - destruct (load_json rt cc) as [msg|msg|payload] eqn:Hload; [discriminate| |].
    + intros _. eexists. intros fuel. reflexivity.
    + destruct payload as [| | | | |items|];
        try (intros _; eexists; intros fuel; reflexivity).
      intros Hnone.
      destruct (collect_translation_units_typed host rt cc items (Htyped items eq_refl))
        as (tus & Hcollect & Hnil).
      apply Hnil in Hnone. subst tus.
      eexists. intros fuel. cbn [mbind outcome_bind]. rewrite Hcollect. reflexivity.
  - intros _. eexists. intros fuel. reflexivity.
Qed.

Hypothesis database_opens :
  path_exists host cc = true -> forall msg, load_json rt cc <> LoadOpenFails msg.
Hypothesis entries_typed :
  forall items, load_json rt cc = LoadPayload (JList items) ->
                forallb well_typed_entry items = true.
Hypothesis finitely_many_paths :
  exists universe, forall p, path_exists host p = true -> In p universe.
Hypothesis headers_named :
  forall fuel tus st,
    scan_project fuel host rt cc = Ok (tus, st) ->
    forall header,
      In header (iter (all_project_headers host (project_root_of host tus cc) st)) ->
      exists name, _suggest_module_name host header (project_root_of host tus cc) = Ok name.

Lemma main_no_input_error :
  spec_input_error host rt cc = false ->
  exists fuel0 report,
    forall fuel,
      ((fuel0 <= fuel)%nat ->
       Cli.main fuel host rt iter args =
       Ok (0, if Cli.as_json args then Cli.PrintJson (PlannerReport.to_dict report)
              else Cli.PrintText report)) /\
      (Cli.main fuel host rt iter args = OutOfFuel \/
       Cli.main fuel host rt iter args =
       Ok (0, if Cli.as_json args then Cli.PrintJson (PlannerReport.to_dict report)
              else Cli.PrintText report)).
Proof.
  unfold spec_input_error.
  destruct (path_exists host cc) eqn:Hex; cbn [negb orb]; [|discriminate].
  destruct (load_json rt cc) as [msg|msg|payload] eqn:Hload;
    [exfalso; exact (database_opens eq_refl msg eq_refl)|discriminate|].
  destruct payload as [| | | | |items|]; try discriminate.
  intros Hsome.
  destruct (collect_translation_units_typed host rt cc items (entries_typed items eq_refl))
    as (tus & Hcollect & Hnil).
  assert (Hne : tus <> []).
  { intros Heq. apply Hnil in Heq. congruence. }
  destruct finitely_many_paths as [universe Huniverse].
  pose (root := project_root_of host tus cc).
  pose (dirs := all_include_dirs_of host tus).
  pose (st0 := scan_translation_units host root tus Scan.init).
  destruct (drain_queue_total host root dirs universe Huniverse
              (scan_weight host universe st0) st0 (Nat.le_refl _)) as [st Hdrain].
  assert (Hscan : forall fuel,
             (scan_weight host universe st0 <= fuel)%nat ->
             scan_project fuel host rt cc = Ok (tus, st)).
  { intros fuel Hle.
    rewrite (scan_project_loaded fuel host rt cc items tus Hex Hload Hcollect Hne).
    fold root dirs st0.
    rewrite (drain_queue_more_fuel _ fuel _ _ _ _ _ Hdrain Hle). reflexivity. }
  destruct (assemble_report_ok host iter cc root tus (Cli.top args) st) as [report Hreport].
  { apply (headers_named _ tus st (Hscan _ (Nat.le_refl _))). }
  exists (scan_weight host universe st0), report. intros fuel.
  assert (Hbig : (scan_weight host universe st0 <= fuel)%nat ->
                 Cli.main fuel host rt iter args =
                 Ok (0, if Cli.as_json args
                        then Cli.PrintJson (PlannerReport.to_dict report)
                        else Cli.PrintText report)).
  { intros Hle. apply main_of_analysis. unfold analyze_compile_commands. fold cc.
    rewrite (Hscan fuel Hle). cbn [mbind outcome_bind]. exact Hreport. }
  split; [exact Hbig|].
  destruct (le_lt_dec (scan_weight host universe st0) fuel) as [Hle|Hlt];
    [right; apply Hbig; exact Hle|].
  destruct (drain_queue fuel host root dirs st0) as [st'|] eqn:Hsmall.
  - right.
    pose proof (drain_queue_more_fuel _ (scan_weight host universe st0) _ _ _ _ _
                  Hsmall ltac:(lia)) as Hsame.
    rewrite Hdrain in Hsame. injection Hsame as <-.
    apply main_of_analysis. unfold analyze_compile_commands. fold cc.
    rewrite (scan_project_loaded fuel host rt cc items tus Hex Hload Hcollect Hne).
    fold root dirs st0. rewrite Hsmall. cbn [mbind outcome_bind]. exact Hreport.
  - left. unfold Cli.main, analyze_compile_commands. fold cc.
    rewrite (scan_project_loaded fuel host rt cc items tus Hex Hload Hcollect Hne).
    fold root dirs st0. rewrite Hsmall. reflexivity.
Qed.
End ExitCodes.

(** The result of the scan does not depend on the fuel. *)
Lemma scan_project_fuel_irrelevant (fuel1 fuel2 : nat) (host : Host) (rt : Runtime)
    (cc : Path) (r1 r2 : list TranslationUnit.t * Scan.t) :
  scan_project fuel1 host rt cc = Ok r1 ->
  scan_project fuel2 host rt cc = Ok r2 ->
  r1 = r2.
Proof.
  unfold scan_project.
  destruct (_load_compile_commands host rt cc) as [entries| |];
    cbn [mbind outcome_bind]; [|discriminate|discriminate].
  destruct (_collect_translation_units host rt entries cc) as [tus| |];
    cbn [mbind outcome_bind]; [|discriminate|discriminate].
  destruct tus as [|tu tus]; [discriminate|].
  destruct (drain_queue fuel1 host _ _ _) as [st1|] eqn:H1; [|discriminate].
  destruct (drain_queue fuel2 host _ _ _) as [st2|] eqn:H2; [|discriminate].
  intros Hr1 Hr2. injection Hr1 as <-. injection Hr2 as <-.
  pose proof (drain_queue_more_fuel _ (Nat.max fuel1 fuel2) _ _ _ _ _ H1
                (Nat.le_max_l _ _)) as H1'.
  pose proof (drain_queue_more_fuel _ (Nat.max fuel1 fuel2) _ _ _ _ _ H2
                (Nat.le_max_r _ _)) as H2'.
  congruence.
Qed.


(** An entry whose [file] is the number 5 is an object with a [file]
    value, so none of the four input errors holds, yet no report is
    produced: [Path(5)] raises a [TypeError], which [main] does not catch. *)
Lemma input_errors_untyped_file :
  spec_input_error Fixture.host
    (Fixture.runtime_with (JList [JDict [("file", JInt 5)]]))
    "/proj/compile_commands.json" = false /\
  forall fuel,
    Cli.main fuel Fixture.host
      (Fixture.runtime_with (JList [JDict [("file", JInt 5)]]))
      GraphFixture.forwards Fixture.args =
    Raise (TypeError "expected str, bytes or os.PathLike object").
Proof. split; [reflexivity|]. intros fuel. reflexivity. Qed.

Example main_fixture_no_units :
  Cli.main 0 Fixture.host
    (Fixture.runtime_with (JList [JStr "x"; JDict [("file", JStr EmptyString)]]))
    GraphFixture.forwards Fixture.args =
  Ok (2, Cli.PrintError "error: No translation units found in compile_commands.json").
Proof. reflexivity. Qed.

Lemma fixture_paths_finite (fs : list (Path * option (list string))) (p : Path) :
  path_exists (Fixture.host_of fs) p = true ->
  In p (map fst fs ++ Fixture.directories).
Proof.
  cbn [path_exists Fixture.host_of]. intros H. apply in_or_app.
  apply orb_true_iff in H. destruct H as [H|H].
  - left. apply bool_decide_eq_true in H. destruct H as [v Hv].
    unfold Fixture.lookup_in in Hv.
    destruct (List.find _ fs) as [kv|] eqn:Hfind; [|discriminate].
    apply find_some in Hfind. destruct Hfind as [Hin Heq].
    apply String.eqb_eq in Heq. subst p. apply in_map. exact Hin.
  - right. apply existsb_exists in H. destruct H as (d & Hd & Heq).
    apply String.eqb_eq in Heq. subst. exact Hd.
Qed.

Lemma stack_chain_reaches (graph : Graph) (st : DfsState) (i j : nat) (a b : Path) :
  stack_chained graph st -> (i <= j)%nat ->
  stack st !! i = Some a -> stack st !! j = Some b ->
  rtc (graph_edge graph) a b.
Proof.
  intros Hchain Hle Ha. revert b. induction Hle as [|j Hle IH]; intros b Hb.
  - rewrite Ha in Hb. injection Hb as <-. apply rtc_refl.
  - destruct (stack st !! j) as [c|] eqn:Hc.
    + eapply rtc_r; [apply IH; reflexivity|]. eapply Hchain; eassumption.
    + apply lookup_ge_None in Hc. apply lookup_lt_Some in Hb. lia.
Qed.

Lemma flag_segment_sound (graph : Graph) (node child : Path) (st : DfsState) :
  dfs_wf st -> stack_chained graph st ->
  last (stack st) = Some node ->
  graph_edge graph node child -> child ∈ on_stack st ->
  flagged_on_cycles graph st ->
  flagged_on_cycles graph (flag_segment child st).
Proof.
  intros Hwf Hchain Hlast Hedge Hon Hflag n Hn.
  unfold flag_segment in Hn. cbn in Hn. apply elem_of_union in Hn.
  destruct Hn as [Hn|Hn]; [apply Hflag; exact Hn|].
  destruct Hwf as (_ & _ & Hpos). destruct (Hpos child Hon) as (i & Hi & Hs).
  rewrite Hi in Hn. cbn in Hn.
  apply elem_of_list_to_set, list_elem_of_lookup in Hn. destruct Hn as [k Hk].
  rewrite lookup_drop in Hk.
  rewrite last_lookup in Hlast.
  pose proof (lookup_lt_Some _ _ _ Hk) as Hlt.
  unfold on_cycle.
  eapply tc_rtc_r; [eapply tc_rtc_l; [|apply tc_once; exact Hedge]|].
  - eapply (stack_chain_reaches graph st (i + k) (Nat.pred (length (stack st))));
      [exact Hchain|lia|exact Hk|exact Hlast].
  - eapply (stack_chain_reaches graph st i (i + k)); [exact Hchain|lia|exact Hs|exact Hk].
Qed.

Lemma dfs_enter_chained (graph : Graph) (node : Path) (st : DfsState) :
  stack_chained graph st ->
  (forall top, last (stack st) = Some top -> graph_edge graph top node) ->
  stack_chained graph (dfs_enter node st) /\
  last (stack (dfs_enter node st)) = Some node.
Proof.
  intros Hchain Htop. unfold dfs_enter, Py.append. cbn. split.
  - intros i a b Ha Hb. apply lookup_snoc_Some in Hb.
    destruct Hb as [[Hlt Hb]|[Heq <-]].
    + apply lookup_snoc_Some in Ha. destruct Ha as [[_ Ha]|[Heq _]]; [|lia].
      eapply Hchain; eassumption.
    + apply lookup_snoc_Some in Ha. destruct Ha as [[_ Ha]|[Heq' _]]; [|lia].
      apply Htop. rewrite last_lookup. rewrite <- Heq. exact Ha.
  - apply last_snoc.
Qed.

Section CycleSoundness.
Variable iter : gset Path -> list Path.
Variable graph : Graph.
Hypothesis iter_sound : forall (s : gset Path) x, In x (iter s) -> x ∈ s.

Lemma visit_children_sound rec (node : Path) (children : list Path)
    (st st' : DfsState) :
  dfs_call_ok rec -> dfs_call_sound graph rec ->
  visit_children graph rec children st = Some st' ->
  dfs_wf st -> stack_chained graph st -> last (stack st) = Some node ->
  (forall c, In c children -> c ∈ graph_get graph node) ->
  flagged_on_cycles graph st -> flagged_on_cycles graph st'.
Proof.
  intros Hok Hsound. revert st.
  induction children as [|child rest IH]; intros st Hrun Hwf Hchain Hlast Hedges Hflag;
    cbn [visit_children] in Hrun.
  - injection Hrun as <-. exact Hflag.
  - assert (Hrest : forall c, In c rest -> c ∈ graph_get graph node)
      by (intros c Hc; apply Hedges; right; exact Hc).
    destruct (graph_mem graph child) eqn:Hmem; cbn [negb] in Hrun; [|eauto].
    assert (Hedge : graph_edge graph node child)
      by (split; [apply Hedges; left; reflexivity|exact Hmem]).
    destruct (bool_decide_reflect (child ∈ visited st)) as [Hv|Hv]; cbn [negb] in Hrun.
    + destruct (bool_decide_reflect (child ∈ on_stack st)) as [Hon|Hon]; [|eauto].
      apply (IH (flag_segment child st)); try assumption.
      eapply flag_segment_sound; eassumption.
    + destruct (rec child st) as [s1|] eqn:Hcall; [|discriminate].
      destruct (Hok _ _ _ Hcall Hv Hwf) as [Hext _].
      pose proof Hext as (Hstack & _).
      apply (IH s1); try assumption.
      * eapply dfs_extends_wf; eassumption.
      * unfold stack_chained. rewrite Hstack. exact Hchain.
      * rewrite Hstack. exact Hlast.
      * eapply Hsound; try eassumption.
        intros top Htop. rewrite Hlast in Htop. injection Htop as <-. exact Hedge.
Qed.

Lemma dfs_sound (fuel : nat) : dfs_call_sound graph (dfs iter graph fuel).
Proof.
  induction fuel as [|fuel IH]; intros node st st' Hrun Hv Hwf Hchain Htop Hflag;
    cbn [dfs] in Hrun; [discriminate|].
  destruct (visit_children graph (dfs iter graph fuel) _ (dfs_enter node st))
    as [s1|] eqn:Hloop; [|discriminate].
  injection Hrun as <-.
  destruct (dfs_enter_chained graph node st Hchain Htop) as [Hchain1 Hlast1].
  change (flagged_on_cycles graph s1).
  eapply (visit_children_sound _ node _ _ _ (dfs_ok iter graph fuel) IH Hloop);
    try assumption.
  - apply dfs_enter_wf. exact Hwf.
  - intros c Hc. apply iter_sound. exact Hc.
Qed.

Lemma visit_roots_sound (fuel : nat) (nodes : list Path) (st st' : DfsState) :
  visit_roots iter graph fuel nodes st = Some st' ->
  dfs_wf st -> stack st = [] ->
  flagged_on_cycles graph st -> flagged_on_cycles graph st'.
Proof.
  revert st.
  induction nodes as [|node rest IH]; intros st Hrun Hwf Hempty Hflag;
    cbn [visit_roots] in Hrun.
  - injection Hrun as <-. exact Hflag.
  - destruct (bool_decide_reflect (node ∈ visited st)) as [Hv|Hv];
      cbn [negb] in Hrun; [eauto|].
    destruct (dfs iter graph fuel node st) as [s1|] eqn:Hcall; [|discriminate].
    destruct (dfs_ok iter graph fuel _ _ _ Hcall Hv Hwf) as [Hext _].
    pose proof Hext as (Hstack & _).
    apply (IH s1); try assumption.
    + eapply dfs_extends_wf; eassumption.
    + rewrite Hstack. exact Hempty.
    + eapply dfs_sound; try eassumption.
      * intros i a b Ha. rewrite Hempty in Ha. discriminate.
      * intros top Htop. rewrite Hempty in Htop. discriminate.
Qed.
End CycleSoundness.

Lemma tc_target {A : Type} (R : A -> A -> Prop) (x y : A) :
  tc R x y -> exists z, R z y.
Proof. induction 1 as [x y H|x y z H _ IH]; [exists x; exact H|exact IH]. Qed.

(** What the detector flags lies on a cycle and is a node of the graph. *)
Lemma flagged_nodes_on_cycles (iter : gset Path -> list Path) (graph : Graph)
    (flagged : gset Path) (node : Path) :
  (forall (s : gset Path) x, In x (iter s) -> x ∈ s) ->
  _detect_cycle_nodes iter graph = Some flagged ->
  node ∈ flagged ->
  on_cycle graph node /\ graph_mem graph node = true.
Proof.
  intros Hiter Hrun Hnode. unfold _detect_cycle_nodes in Hrun.
  destruct (visit_roots iter graph _ _ dfs_init) as [st|] eqn:Hroots; [|discriminate].
  injection Hrun as <-.
  assert (Hcycle : on_cycle graph node).
  { eapply (visit_roots_sound iter graph Hiter _ _ _ _ Hroots); try exact Hnode.
    - apply dfs_init_wf.
    - reflexivity.
    - intros n Hn. cbn in Hn. set_solver. }
  split; [exact Hcycle|].
  destruct (tc_target _ _ _ Hcycle) as (z & _ & Hmem). exact Hmem.
Qed.

(** X4: every header that the cycle detector flags is a node of the graph
    and lies on a cycle of the graph: it reaches itself along one or more
    include edges between graph nodes. The detector never flags a header
    outside every cycle, whatever the order in which the sets are
    iterated. *)
Theorem detect_cycle_nodes_sound (iter : gset Path -> list Path) (graph : Graph)
    (flagged : gset Path) :
  (forall (s : gset Path) x, In x (iter s) -> x ∈ s) ->
  _detect_cycle_nodes iter graph = Some flagged ->
  flagged ⊆ graph_keys graph /\
  forall node, node ∈ flagged -> on_cycle graph node.
Proof.
  intros Hiter Hrun. split.
  - intros node Hnode. apply graph_mem_keys.
    apply (flagged_nodes_on_cycles iter graph flagged node Hiter Hrun Hnode).
  - intros node Hnode.
    apply (flagged_nodes_on_cycles iter graph flagged node Hiter Hrun Hnode).
Qed.

Lemma detect_cycle_nodes_sound_witness :
  ({[GraphFixture.a_hpp; GraphFixture.c_hpp]} : gset Path) ⊆
    graph_keys GraphFixture.triangle /\
  on_cycle GraphFixture.triangle GraphFixture.a_hpp.
Proof.
  destruct (detect_cycle_nodes_sound GraphFixture.forwards GraphFixture.triangle
              {[GraphFixture.a_hpp; GraphFixture.c_hpp]}) as [Hkeys Hcycles].
  - intros s x Hx. apply forwards_enumerates. exact Hx.
  - vm_compute. reflexivity.
  - split; [exact Hkeys|]. apply Hcycles.
    apply elem_of_union. left. apply elem_of_singleton. reflexivity.
Defined.


(** ** Dictionaries in insertion order *)

Section DictFacts.
Context {V : Type}.

Lemma dict_get_in (key : string) (d : list (string * V)) (v : V) :
  PyDict.get key d = Some v -> In (key, v) d.
Proof.
  unfold PyDict.get. destruct (List.find _ d) as [[k v']|] eqn:Hfind; [|discriminate].
  cbn. intros H. injection H as <-.
  apply find_some in Hfind. destruct Hfind as [Hin Heq]. cbn in Heq.
  apply String.eqb_eq in Heq. subst. exact Hin.
Qed.

Lemma dict_get_none (key : string) (d : list (string * V)) :
  PyDict.get key d = None <-> ~ In key (map fst d).
Proof.
  unfold PyDict.get. induction d as [|[k v] d IH]; cbn.
  - tauto.
  - destruct (String.eqb_spec k key) as [->|Hne]; cbn.
    + split; [discriminate|]. intros H. exfalso. apply H. left. reflexivity.
    + rewrite IH. tauto.
Qed.

Lemma dict_get_some (key : string) (d : list (string * V)) :
  In key (map fst d) -> exists v, PyDict.get key d = Some v.
Proof.
  intros Hin. destruct (PyDict.get key d) as [v|] eqn:Hget; [exists v; reflexivity|].
  apply dict_get_none in Hget. contradiction.
Qed.

Lemma dict_update_in (key : string) (f : option V -> V) (d : list (string * V))
    (k : string) (v : V) :
  In (k, v) (PyDict.update key f d) ->
  In (k, v) d \/ (k = key /\ v = f (PyDict.get key d)).
Proof.
  unfold PyDict.get. induction d as [|[k' v'] d IH]; cbn.
  - intros [H|[]]. injection H as <- <-. right. split; reflexivity.
  - destruct (String.eqb_spec k' key) as [->|Hne]; cbn.
    + intros [H|H]; [|left; right; exact H].
      injection H as <- <-. right. split; reflexivity.
    + intros [H|H]; [left; left; exact H|].
      destruct (IH H) as [Hin|Hnew]; [left; right; exact Hin|right; exact Hnew].
Qed.

Lemma dict_update_keys (key : string) (f : option V -> V) (d : list (string * V)) :
  (In key (map fst d) -> map fst (PyDict.update key f d) = map fst d) /\
  (~ In key (map fst d) -> map fst (PyDict.update key f d) = map fst d ++ [key]).
Proof.
  induction d as [|[k v] d [IH1 IH2]]; cbn.
  - split; [tauto|reflexivity].
  - destruct (String.eqb_spec k key) as [->|Hne]; cbn.
    + split; [reflexivity|]. intros H. exfalso. apply H. left. reflexivity.
    + split.
      * intros [H|H]; [contradiction|]. rewrite IH1 by exact H. reflexivity.
      * intros H. rewrite IH2 by tauto. reflexivity.
Qed.

Lemma dict_update_forall (P : string * V -> Prop) (key : string) (f : option V -> V)
    (d : list (string * V)) :
  Forall P d -> P (key, f (PyDict.get key d)) -> Forall P (PyDict.update key f d).
Proof.
  intros Hd Hnew. rewrite List.Forall_forall in *. intros [k v] Hin.
  destruct (dict_update_in _ _ _ _ _ Hin) as [Hold|[-> ->]]; [apply Hd; exact Hold|exact Hnew].
Qed.

(** The value under [key] after the update. *)
Lemma dict_update_get (key : string) (f : option V -> V) (d : list (string * V)) :
  PyDict.get key (PyDict.update key f d) = Some (f (PyDict.get key d)).
Proof.
  unfold PyDict.get. induction d as [|[k v] d IH]; cbn.
  - rewrite String.eqb_refl. reflexivity.
  - destruct (String.eqb_spec k key) as [->|Hne]; cbn.
    + rewrite String.eqb_refl. reflexivity.
    + destruct (String.eqb_spec k key); [contradiction|]. exact IH.
Qed.

Lemma dict_update_get_other (key other : string) (f : option V -> V)
    (d : list (string * V)) :
  other <> key -> PyDict.get other (PyDict.update key f d) = PyDict.get other d.
Proof.
  intros Hne. unfold PyDict.get. induction d as [|[k v] d IH]; cbn.
  - destruct (String.eqb_spec key other); [congruence|reflexivity].
  - destruct (String.eqb_spec k key) as [->|Hk]; cbn.
    + destruct (String.eqb_spec key other); [congruence|reflexivity].
    + destruct (String.eqb_spec k other); [reflexivity|exact IH].
Qed.

Lemma dict_update_key_in (key : string) (f : option V -> V) (d : list (string * V)) :
  In key (map fst (PyDict.update key f d)).
Proof.
  induction d as [|[k v] d IH]; cbn.
  - left. reflexivity.
  - destruct (String.eqb_spec k key) as [->|Hne]; cbn; [left; reflexivity|right; exact IH].
Qed.

Lemma dict_update_keys_mono (key : string) (f : option V -> V) (d : list (string * V))
    (k : string) :
  In k (map fst d) -> In k (map fst (PyDict.update key f d)).
Proof.
  induction d as [|[k' v] d IH]; cbn.
  - tauto.
  - destruct (String.eqb_spec k' key) as [->|Hne]; cbn; tauto.
Qed.

Lemma dict_update_keys_inv (key : string) (f : option V -> V) (d : list (string * V))
    (k : string) :
  In k (map fst (PyDict.update key f d)) -> In k (map fst d) \/ k = key.
Proof.
  induction d as [|[k' v] d IH]; cbn.
  - intros [<-|[]]. right. reflexivity.
  - destruct (String.eqb_spec k' key) as [->|Hne]; cbn; tauto.
Qed.
End DictFacts.

Lemma counter_incr_positive (key : string) (counter : list (string * Z)) :
  Forall (fun kv => 1 <= snd kv) counter ->
  Forall (fun kv => 1 <= snd kv) (PyDict.incr key counter).
Proof.
  intros H. unfold PyDict.incr. apply dict_update_forall; [exact H|]. cbn.
  destruct (PyDict.get key counter) as [v|] eqn:Hget; cbn; [|lia].
  apply dict_get_in in Hget. rewrite List.Forall_forall in H.
  specialize (H _ Hget). cbn in H. lia.
Qed.

(** ** The graph builder keeps its invariant *)

Lemma count_defines_nonneg (host : Host) (path : Path) : 0 <= _count_defines host path.
Proof.
  unfold _count_defines.
  destruct (negb (path_exists host path) || negb (_is_header path)); [lia|].
  destruct (read_lines host path); lia.
Qed.

Section ScanInvariant.
Variable host : Host.
Variable project_root : Path.

Let inv : Scan.t -> Prop := scan_invariant host project_root.

Lemma scan_init_invariant : inv Scan.init.
Proof.
  unfold inv, Scan.init. constructor; cbn; try constructor; try tauto; set_solver.
Qed.

Lemma count_token_invariant (token : string) (st : Scan.t) :
  inv st -> inv (Scan.count_token token st).
Proof.
  unfold inv, Scan.count_token.
  intros [Hq Hqf Hk Hnd Hs He Hsf Hedge Hm Hf Hfh Hff Ht Hme].
  constructor; cbn; try assumption.
  apply counter_incr_positive. exact Ht.
Qed.

Lemma record_unresolved_invariant (source token : string) (st : Scan.t) :
  inv st -> inv (Scan.record_unresolved source token st).
Proof.
  unfold inv, Scan.record_unresolved. intros []. constructor; cbn; assumption.
Qed.

(** [include_frequency[resolved] += 1] for a header outside the project. *)
Lemma count_include_invariant (resolved : Path) (st : Scan.t) :
  _is_header resolved = true ->
  _is_project_path host resolved project_root = false ->
  inv st -> inv (Scan.count_include resolved st).
Proof.
  unfold inv, Scan.count_include.
  intros Hh Hp [Hq Hqf Hk Hnd Hs He Hsf Hedge Hm Hf Hfh Hff Ht Hme].
  constructor; cbn; try assumption.
  - intros h Hin. apply dict_update_keys_mono. apply Hqf. exact Hin.
  - intros h Hin. apply dict_update_keys_mono. apply Hsf. exact Hin.
  - apply counter_incr_positive. exact Hf.
  - apply dict_update_forall; [exact Hfh|exact Hh].
  - intros h Hin Hproj. apply dict_update_keys_inv in Hin.
    destruct Hin as [Hin| ->]; [apply Hff; assumption|congruence].
Qed.

(** [include_frequency[resolved] += 1] and [header_queue.append(resolved)]
    for a header of the project. *)
Lemma enqueue_invariant (resolved : Path) (st : Scan.t) :
  project_header host project_root resolved ->
  inv st -> inv (Scan.enqueue resolved (Scan.count_include resolved st)).
Proof.
  unfold inv, Scan.enqueue, Scan.count_include, Py.append.
  intros Hp [Hq Hqf Hk Hnd Hs He Hsf Hedge Hm Hf Hfh Hff Ht Hme].
  constructor; cbn; try assumption.
  - apply Forall_app. split; [exact Hq|]. constructor; [exact Hp|constructor].
  - intros h Hin. apply in_app_or in Hin. destruct Hin as [Hin|[<-|[]]].
    + apply dict_update_keys_mono. apply Hqf. exact Hin.
    + apply dict_update_key_in.
  - intros h Hin. apply dict_update_keys_mono. apply Hsf. exact Hin.
  - intros h targets t Hin Ht'.
    destruct (Hedge _ _ _ Hin Ht') as (Hproj & Hwhere). split; [exact Hproj|].
    destruct Hwhere as [Hw|[Hw|Hw]]; auto.
    left. apply in_or_app. left. exact Hw.
  - apply counter_incr_positive. exact Hf.
  - apply dict_update_forall; [exact Hfh|apply Hp].
  - intros h Hin Hproj. apply dict_update_keys_inv in Hin.
    rewrite in_app_iff. cbn.
    destruct Hin as [Hin| ->]; [|auto].
    destruct (Hff h Hin Hproj) as [Hw|[Hw|Hw]]; auto.
Qed.

(** The same with [header_graph[header].add(resolved)], lines 161-164. *)
Lemma add_edge_invariant (header resolved : Path) (st : Scan.t) :
  In header (map fst (Scan.header_graph st)) ->
  project_header host project_root resolved ->
  inv st ->
  inv (Scan.enqueue resolved
         (Scan.add_edge header resolved (Scan.count_include resolved st))).
Proof.
  unfold inv, Scan.enqueue, Scan.add_edge, Scan.count_include, Py.append.
  intros Hkey Hp [Hq Hqf Hk Hnd Hs He Hsf Hedge Hm Hf Hfh Hff Ht Hme].
  pose proof (proj1 (dict_update_keys header
                       (fun v : option (gset Path) => {[resolved]} ∪ default ∅ v)
                       (Scan.header_graph st)) Hkey) as Hkeys.
  constructor; cbn; rewrite ?Hkeys; try assumption.
  - apply Forall_app. split; [exact Hq|]. constructor; [exact Hp|constructor].
  - intros h Hin. apply in_app_or in Hin. destruct Hin as [Hin|[<-|[]]].
    + apply dict_update_keys_mono. apply Hqf. exact Hin.
    + apply dict_update_key_in.
  - intros h Hin. apply dict_update_keys_mono. apply Hsf. exact Hin.
  - intros h targets t Hin Ht'.
    assert (Hcase : t = resolved \/
                    exists old, In (h, old) (Scan.header_graph st) /\ t ∈ old).
    { destruct (dict_update_in _ _ _ _ _ Hin) as [Hold|[-> ->]].
      - right. exists targets. split; assumption.
      - apply elem_of_union in Ht'. destruct Ht' as [Ht'|Ht'].
        + left. apply elem_of_singleton in Ht'. exact Ht'.
        + right. destruct (PyDict.get header (Scan.header_graph st)) as [old|] eqn:Hget;
            cbn in Ht'; [|apply not_elem_of_empty in Ht'; destruct Ht'].
          exists old. split; [eapply dict_get_in; exact Hget|exact Ht']. }
    destruct Hcase as [->|(old & Hold & Hmem)].
    + split; [exact Hp|]. left. apply in_or_app. right. left. reflexivity.
    + destruct (Hedge _ _ _ Hold Hmem) as (Hproj & Hwhere). split; [exact Hproj|].
      destruct Hwhere as [Hw|[Hw|Hw]]; auto.
      left. apply in_or_app. left. exact Hw.
  - apply counter_incr_positive. exact Hf.
  - apply dict_update_forall; [exact Hfh|apply Hp].
  - intros h Hin Hproj. apply dict_update_keys_inv in Hin.
    rewrite in_app_iff. cbn.
    destruct Hin as [Hin| ->]; [|auto].
    destruct (Hff h Hin Hproj) as [Hw|[Hw|Hw]]; auto.
Qed.

(** [header_queue.popleft()] of a header that is skipped. *)
Lemma pop_skip_invariant (header : Path) (rest : list Path) (st : Scan.t) :
  Scan.header_queue st = header :: rest ->
  header ∈ Scan.scanned_headers st \/ path_exists host header = false ->
  inv st -> inv (Scan.set_queue rest st).
Proof.
  unfold inv, Scan.set_queue.
  intros Hqueue Hskip [Hq Hqf Hk Hnd Hs He Hsf Hedge Hm Hf Hfh Hff Ht Hme].
  rewrite Hqueue in Hq, Hqf. inversion Hq as [|? ? Hheader Hrest]; subst.
  constructor; cbn; try assumption.
  - intros h Hin. apply Hqf. right. exact Hin.
  - intros h targets t Hin Ht'.
    destruct (Hedge _ _ _ Hin Ht') as (Hproj & Hwhere). split; [exact Hproj|].
    destruct Hwhere as [Hw|[Hw|Hw]]; auto.
    rewrite Hqueue in Hw. destruct Hw as [<-|Hw]; [|left; exact Hw].
    destruct Hskip; auto.
  - intros h Hin Hproj. destruct (Hff h Hin Hproj) as [Hw|[Hw|Hw]]; auto.
    rewrite Hqueue in Hw. destruct Hw as [<-|Hw]; [|left; exact Hw].
    destruct Hskip; auto.
Qed.

(** [header_queue.popleft()] of a header that is scanned, lines 136-138. *)
Lemma pop_mark_invariant (header : Path) (rest : list Path) (st : Scan.t) :
  Scan.header_queue st = header :: rest ->
  header ∉ Scan.scanned_headers st -> path_exists host header = true ->
  inv st ->
  inv (Scan.mark_scanned header (_count_defines host header) (Scan.set_queue rest st)) /\
  In header (map fst (Scan.header_graph
                        (Scan.mark_scanned header (_count_defines host header)
                           (Scan.set_queue rest st)))).
Proof.
  unfold inv, Scan.set_queue, Scan.mark_scanned.
  pose proof (count_defines_nonneg host header) as Hmc.
  remember (_count_defines host header) as macro_count eqn:Hexact.
  intros Hqueue Hnew Hex [Hq Hqf Hk Hnd Hs He Hsf Hedge Hm Hf Hfh Hff Ht Hme].
  rewrite Hqueue in Hq, Hqf.
  pose proof (List.Forall_inv Hq) as Hheader.
  pose proof (List.Forall_inv_tail Hq) as Hrest.
  assert (Hfresh : ~ In header (map fst (Scan.header_graph st)))
    by (rewrite Hs; exact Hnew).
  assert (Hfresh' : ~ In header (map fst (Scan.macro_counts st)))
    by (rewrite <- Hk; exact Hfresh).
  pose proof (proj2 (dict_update_keys header
                       (fun v : option (gset Path) => default ∅ v)
                       (Scan.header_graph st)) Hfresh) as Hkeys.
  pose proof (proj2 (dict_update_keys header (fun _ : option Z => macro_count)
                       (Scan.macro_counts st)) Hfresh') as Hkeys'.
  cbn. split; [|rewrite Hkeys; apply in_or_app; right; left; reflexivity].
  assert (Hold : forall h targets t,
             In (h, targets)
               (PyDict.update header (fun v : option (gset Path) => default ∅ v)
                  (Scan.header_graph st)) ->
             t ∈ targets -> In (h, targets) (Scan.header_graph st)).
  { intros h targets t Hin Ht'.
    destruct (dict_update_in _ _ _ _ _ Hin) as [Hold|[-> ->]]; [exact Hold|].
    rewrite (proj2 (dict_get_none header (Scan.header_graph st)) Hfresh) in Ht'.
    cbn in Ht'. apply not_elem_of_empty in Ht'. destruct Ht'. }
  constructor; cbn; rewrite ?Hkeys, ?Hkeys'; try assumption.
  - intros h Hin. apply Hqf. right. exact Hin.
  - rewrite Hk. reflexivity.
  - apply NoDup_ListNoDup. apply NoDup_app. split; [apply NoDup_ListNoDup; exact Hnd|].
    split.
    + intros x Hx Hx'. apply list_elem_of_In in Hx.
      apply list_elem_of_In in Hx'. destruct Hx' as [<-|[]]. contradiction.
    + apply NoDup_singleton.
  - intros h. rewrite in_app_iff, elem_of_union, elem_of_singleton, Hs. cbn.
    split; [intros [Hin|[<-|[]]]; auto|intros [->|Hin]; auto].
  - intros h Hin. apply elem_of_union in Hin. destruct Hin as [Hin|Hin].
    + apply elem_of_singleton in Hin. subst. split; assumption.
    + apply He. exact Hin.
  - intros h Hin. apply elem_of_union in Hin. destruct Hin as [Hin|Hin].
    + apply elem_of_singleton in Hin. subst. apply Hqf. left. reflexivity.
    + apply Hsf. exact Hin.
  - intros h targets t Hin Ht'. specialize (Hold _ _ _ Hin Ht').
    destruct (Hedge _ _ _ Hold Ht') as (Hproj & Hwhere). split; [exact Hproj|].
    rewrite elem_of_union, elem_of_singleton.
    destruct Hwhere as [Hw|[Hw|Hw]]; auto.
    rewrite Hqueue in Hw. destruct Hw as [<-|Hw]; auto.
  - apply dict_update_forall; [exact Hm|exact Hmc].
  - intros h Hin Hproj. rewrite elem_of_union, elem_of_singleton.
    destruct (Hff h Hin Hproj) as [Hw|[Hw|Hw]]; auto.
    rewrite Hqueue in Hw. destruct Hw as [<-|Hw]; auto.
  - apply dict_update_forall; [exact Hme|exact Hexact].
Qed.

Lemma scan_tu_include_invariant tu st include :
  inv st -> inv (scan_tu_include host project_root tu st include).
Proof.
  unfold scan_tu_include. destruct include as [kind include_name]. intros H.
  apply (count_token_invariant (_token kind include_name)) in H.
  destruct (_resolve_include host include_name kind _ _) as [resolved|].
  - destruct (_is_header resolved) eqn:Hh; [|exact H].
    destruct (_is_project_path host resolved project_root) eqn:Hp.
    + apply enqueue_invariant; [split; assumption|exact H].
    + apply count_include_invariant; assumption.
  - destruct (String.eqb kind QUOTED); [|exact H].
    apply record_unresolved_invariant. exact H.
Qed.

Lemma scan_translation_units_invariant tus st :
  inv st -> inv (scan_translation_units host project_root tus st).
Proof.
  unfold scan_translation_units. apply fold_left_preserves.
  intros a tu. apply fold_left_preserves. intros a' inc.
  apply scan_tu_include_invariant.
Qed.

Lemma scan_header_include_invariant dirs header st include :
  inv st /\ In header (map fst (Scan.header_graph st)) ->
  inv (scan_header_include host project_root dirs header st include) /\
  In header (map fst (Scan.header_graph
                        (scan_header_include host project_root dirs header st include))).
Proof.
  unfold scan_header_include. destruct include as [kind include_name].
  intros [H Hkey].
  apply (count_token_invariant (_token kind include_name)) in H.
  destruct (_resolve_include host include_name kind _ _) as [resolved|].
  - destruct (_is_header resolved) eqn:Hh; cbn [negb]; [|split; assumption].
    destruct (_is_project_path host resolved project_root) eqn:Hp.
    + split.
      * apply add_edge_invariant; [exact Hkey|split; assumption|exact H].
      * cbn. rewrite (proj1 (dict_update_keys header _ (Scan.header_graph st)) Hkey).
        exact Hkey.
    + split; [apply count_include_invariant; assumption|exact Hkey].
  - destruct (String.eqb kind QUOTED); [|split; assumption].
    split; [apply record_unresolved_invariant; exact H|exact Hkey].
Qed.

Lemma scan_header_invariant dirs header rest st :
  Scan.header_queue st = header :: rest ->
  inv st -> inv (scan_header host project_root dirs header (Scan.set_queue rest st)).
Proof.
  intros Hqueue H. unfold scan_header. cbn [Scan.scanned_headers Scan.set_queue].
  destruct (bool_decide_reflect (header ∈ Scan.scanned_headers st)) as [Hs|Hs]; cbn [orb].
  - eapply pop_skip_invariant; [exact Hqueue|left; exact Hs|exact H].
  - destruct (path_exists host header) eqn:Hex; cbn [negb].
    + eapply proj1.
      apply (fold_left_preserves
               (fun s => inv s /\ In header (map fst (Scan.header_graph s)))).
      * intros a inc. apply scan_header_include_invariant.
      * apply pop_mark_invariant; assumption.
    + eapply pop_skip_invariant; [exact Hqueue|right; exact Hex|exact H].
Qed.

Lemma drain_queue_invariant fuel dirs st st' :
  drain_queue fuel host project_root dirs st = Some st' ->
  inv st -> inv st' /\ Scan.header_queue st' = [].
Proof.
  revert st. induction fuel as [|fuel IH]; intros st Hrun H; cbn [drain_queue] in Hrun;
    destruct (Scan.header_queue st) as [|header rest] eqn:Hq; try discriminate.
  - injection Hrun as <-. split; assumption.
  - injection Hrun as <-. split; assumption.
  - eapply IH; [exact Hrun|]. apply scan_header_invariant; assumption.
Qed.
End ScanInvariant.

Lemma scan_project_invariant (fuel : nat) (host : Host) (rt : Runtime) (cc : Path)
    (tus : list TranslationUnit.t) (st : Scan.t) :
  scan_project fuel host rt cc = Ok (tus, st) ->
  scan_invariant host (project_root_of host tus cc) st /\ Scan.header_queue st = [].
Proof.
  unfold scan_project.
  destruct (_load_compile_commands host rt cc) as [entries| |];
    cbn [mbind outcome_bind]; [|discriminate|discriminate].
  destruct (_collect_translation_units host rt entries cc) as [tus'| |];
    cbn [mbind outcome_bind]; [|discriminate|discriminate].
  destruct tus' as [|tu tus']; [discriminate|].
  destruct (drain_queue fuel host _ _ _) as [st'|] eqn:Hdrain; [|discriminate].
  intros H. injection H as <- <-.
  eapply drain_queue_invariant; [exact Hdrain|].
  apply scan_translation_units_invariant. apply scan_init_invariant.
Qed.

(** X6: when the scan of a project ends, the queue is empty and the header
    graph is closed: its keys are distinct, are exactly the scanned headers
    and the keys of the macro counts, each key exists, is a header under the
    project root and has been counted as included at least once, and every
    edge leads to a header under the project root that is itself a key of
    the graph unless it does not exist on the host. *)
Theorem scan_project_graph_closed (fuel : nat) (host : Host) (rt : Runtime) (cc : Path)
    (tus : list TranslationUnit.t) (st : Scan.t) :
  scan_project fuel host rt cc = Ok (tus, st) ->
  Scan.header_queue st = [] /\
  List.NoDup (map fst (Scan.header_graph st)) /\
  map fst (Scan.macro_counts st) = map fst (Scan.header_graph st) /\
  (forall h, In h (map fst (Scan.header_graph st)) <-> h ∈ Scan.scanned_headers st) /\
  (forall h, In h (map fst (Scan.header_graph st)) ->
     path_exists host h = true /\ _is_header h = true /\
     _is_project_path host h (project_root_of host tus cc) = true /\
     exists n, PyDict.get h (Scan.include_frequency st) = Some n /\ 1 <= n) /\
  (forall h targets t,
     In (h, targets) (Scan.header_graph st) -> t ∈ targets ->
     _is_header t = true /\
     _is_project_path host t (project_root_of host tus cc) = true /\
     (In t (map fst (Scan.header_graph st)) \/ path_exists host t = false)).
Proof.
  intros Hscan. destruct (scan_project_invariant _ _ _ _ _ _ Hscan) as [Hinv Hqueue].
  destruct Hinv as [Hq Hqf Hk Hnd Hs He Hsf Hedge Hm Hf Hfh Hff Ht Hme].
  split_and!; try assumption.
  - symmetry. exact Hk.
  - intros h Hin. apply Hs in Hin. destruct (He h Hin) as (Hex & Hh & Hp).
    split_and!; try assumption.
    destruct (dict_get_some _ _ (Hsf h Hin)) as [n Hn]. exists n. split; [exact Hn|].
    rewrite List.Forall_forall in Hf. apply (Hf _ (dict_get_in _ _ _ Hn)).
  - intros h targets t Hin Ht'. destruct (Hedge _ _ _ Hin Ht') as ((Hh & Hp) & Hwhere).
    split_and!; try assumption.
    rewrite Hqueue in Hwhere. destruct Hwhere as [[]|[Hw|Hw]]; [left|right; exact Hw].
    apply Hs. exact Hw.
Qed.

Lemma scan_project_graph_closed_witness :
  exists tus st,
    scan_project 20 Fixture.host Fixture.runtime "/proj/compile_commands.json" =
    Ok (tus, st) /\
    Scan.header_queue st = [] /\
    List.NoDup (map fst (Scan.header_graph st)).
Proof.
  pose (r := scan_project 20 Fixture.host Fixture.runtime "/proj/compile_commands.json").
  assert (Hrun : scan_project 20 Fixture.host Fixture.runtime
                   "/proj/compile_commands.json" = r) by reflexivity.
  assert (Hcheck : match r with Ok _ => true | _ => false end = true)
    by (vm_compute; reflexivity).
  clearbody r.
  destruct r as [[tus st]| |]; [|discriminate Hcheck|discriminate Hcheck].
  exists tus, st. split; [exact Hrun|].
  destruct (scan_project_graph_closed _ _ _ _ _ _ Hrun) as (Hqueue & Hnd & _).
  split; assumption.
Defined.

(** ** The candidates of the report *)

Lemma all_project_headers_spec (host : Host) (project_root : Path) (st : Scan.t)
    (h : Path) :
  h ∈ all_project_headers host project_root st <->
  (In h (map fst (Scan.include_frequency st)) \/ In h (map fst (Scan.header_graph st))) /\
  _is_project_path host h project_root = true /\ _is_header h = true.
Proof.
  unfold all_project_headers.
  rewrite elem_of_list_to_set, list_elem_of_In, filter_In, in_app_iff, andb_true_iff.
  reflexivity.
Qed.

Lemma scanned_project_headers (host : Host) (project_root : Path) (st : Scan.t)
    (h : Path) :
  scan_invariant host project_root st -> Scan.header_queue st = [] ->
  h ∈ all_project_headers host project_root st ->
  In h (map fst (Scan.include_frequency st)) /\
  (h ∈ Scan.scanned_headers st \/ path_exists host h = false).
Proof.
  intros [Hq Hqf Hk Hnd Hs He Hsf Hedge Hm Hf Hfh Hff Ht Hme] Hqueue Hin.
  apply all_project_headers_spec in Hin. destruct Hin as (Hkey & Hp & Hh).
  assert (Hcounted : In h (map fst (Scan.include_frequency st))).
  { destruct Hkey as [Hkey|Hkey]; [exact Hkey|]. apply Hsf, Hs, Hkey. }
  split; [exact Hcounted|].
  destruct (Hff h Hcounted Hp) as [Hw|Hw]; [|exact Hw].
  rewrite Hqueue in Hw. destruct Hw.
Qed.

(** X7: when the scan of a project ends, the headers that become candidates
    are the scanned headers: every scanned header is one, and every one is
    a scanned header unless it does not exist on the host; and each has been
    counted as included at least once. *)
Theorem candidates_are_scanned_headers (fuel : nat) (host : Host) (rt : Runtime)
    (cc : Path) (tus : list TranslationUnit.t) (st : Scan.t) :
  scan_project fuel host rt cc = Ok (tus, st) ->
  (forall h, h ∈ Scan.scanned_headers st ->
             h ∈ all_project_headers host (project_root_of host tus cc) st) /\
  (forall h, h ∈ all_project_headers host (project_root_of host tus cc) st ->
             (h ∈ Scan.scanned_headers st \/ path_exists host h = false) /\
             exists n, PyDict.get h (Scan.include_frequency st) = Some n /\ 1 <= n).
Proof.
  intros Hscan. destruct (scan_project_invariant _ _ _ _ _ _ Hscan) as [Hinv Hqueue].
  split.
  - intros h Hin. apply all_project_headers_spec.
    destruct (scanned_exist _ _ _ Hinv h Hin) as (_ & Hh & Hp).
    split_and!; try assumption. right. apply (graph_keys_scanned _ _ _ Hinv). exact Hin.
  - intros h Hin.
    destruct (scanned_project_headers _ _ _ _ Hinv Hqueue Hin) as [Hcounted Hwhere].
    split; [exact Hwhere|].
    destruct (dict_get_some _ _ Hcounted) as [n Hn]. exists n. split; [exact Hn|].
    pose proof (frequency_positive _ _ _ Hinv) as Hf.
    rewrite List.Forall_forall in Hf. apply (Hf _ (dict_get_in _ _ _ Hn)).
Qed.

Lemma candidates_are_scanned_headers_witness :
  exists tus st,
    scan_project 20 Fixture.host Fixture.runtime "/proj/compile_commands.json" =
    Ok (tus, st) /\
    forall h, h ∈ Scan.scanned_headers st ->
              h ∈ all_project_headers Fixture.host
                    (project_root_of Fixture.host tus "/proj/compile_commands.json") st.
Proof.
  pose (r := scan_project 20 Fixture.host Fixture.runtime "/proj/compile_commands.json").
  assert (Hrun : scan_project 20 Fixture.host Fixture.runtime
                   "/proj/compile_commands.json" = r) by reflexivity.
  assert (Hcheck : match r with Ok _ => true | _ => false end = true)
    by (vm_compute; reflexivity).
  clearbody r.
  destruct r as [[tus st]| |]; [|discriminate Hcheck|discriminate Hcheck].
  exists tus, st. split; [exact Hrun|].
  destruct (candidates_are_scanned_headers _ _ _ _ _ _ Hrun) as [Hall _]. exact Hall.
Defined.

Lemma risk_score_range (header : Path) (f m : Z) (c : bool) :
  0 <= fst (_risk_score header f m c) <= 100.
Proof.
  unfold _risk_score.
  repeat match goal with
         | |- context [if ?b then _ else _] => destruct b
         end; cbn [fst]; lia.
Qed.

Lemma build_candidates_in (host : Host) (project_root : Path) (st : Scan.t)
    (cycle_nodes : gset Path) (headers : list Path) (candidates : list Candidate.t)
    (c : Candidate.t) :
  build_candidates host project_root st cycle_nodes headers = Ok candidates ->
  In c candidates ->
  exists header, In header headers /\
                 build_candidate host project_root st cycle_nodes header = Ok c.
Proof.
  revert candidates.
  induction headers as [|header headers IH]; intros candidates Hrun Hin;
    cbn [build_candidates] in Hrun.
  - injection Hrun as <-. destruct Hin.
  - destruct (build_candidate host project_root st cycle_nodes header) as [c0| |] eqn:Hc;
      cbn [mbind outcome_bind] in Hrun; [|discriminate Hrun|discriminate Hrun].
    destruct (build_candidates host project_root st cycle_nodes headers) as [cs| |];
      cbn [mbind outcome_bind] in Hrun; [|discriminate Hrun|discriminate Hrun].
    injection Hrun as <-. destruct Hin as [<-|Hin].
    + exists header. split; [left; reflexivity|exact Hc].
    + destruct (IH cs eq_refl Hin) as (h & Hh & Hb).
      exists h. split; [right; exact Hh|exact Hb].
Qed.

Lemma slice_to_in {A : Type} (top : Z) (l : list A) (x : A) :
  In x (Py.slice_to top l) -> In x l.
Proof.
  unfold Py.slice_to. rewrite <- !list_elem_of_In.
  destruct (0 <=? top); apply subseteq_take.
Qed.

Lemma top_candidates_in (top : Z) (candidates : list Candidate.t) (c : Candidate.t) :
  In c (top_candidates top candidates) -> In c candidates.
Proof.
  unfold top_candidates, rank_candidates. intros Hin. apply slice_to_in in Hin.
  eapply Permutation_in; [apply list_sort_perm|exact Hin].
Qed.

Lemma analyze_compile_commands_ok (fuel : nat) (host : Host) (rt : Runtime)
    (iter : gset Path -> list Path) (path : string) (top : Z) (report : PlannerReport.t) :
  analyze_compile_commands fuel host rt iter path top = Ok report ->
  exists tus st,
    scan_project fuel host rt (resolve host (expanduser rt (mk_path host path))) =
    Ok (tus, st) /\
    assemble_report host iter (resolve host (expanduser rt (mk_path host path)))
      (project_root_of host tus (resolve host (expanduser rt (mk_path host path))))
      tus top st = Ok report.
Proof.
  unfold analyze_compile_commands. cbv zeta.
  destruct (scan_project fuel host rt _) as [[tus st]| |];
    cbn [mbind outcome_bind]; [|discriminate|discriminate].
  intros H. exists tus, st. split; [reflexivity|exact H].
Qed.

Lemma assemble_report_candidates (host : Host) (iter : gset Path -> list Path)
    (cc project_root : Path) (tus : list TranslationUnit.t) (top : Z) (st : Scan.t)
    (report : PlannerReport.t) :
  assemble_report host iter cc project_root tus top st = Ok report ->
  exists flagged candidates,
    _detect_cycle_nodes iter (Scan.header_graph st) = Some flagged /\
    build_candidates host project_root st flagged
      (sorted_paths iter (all_project_headers host project_root st)) = Ok candidates /\
    PlannerReport.candidates report = top_candidates top candidates /\
    PlannerReport.cycle_header_count report = Z.of_nat (size flagged) /\
    PlannerReport.scanned_headers report = Z.of_nat (size (Scan.scanned_headers st)).
Proof.
  unfold assemble_report.
  destruct (_detect_cycle_nodes iter (Scan.header_graph st)) as [flagged|] eqn:Hflag;
    [|discriminate].
  destruct (build_candidates host project_root st flagged _) as [candidates| |] eqn:Hb;
    cbn [mbind outcome_bind]; [|discriminate|discriminate].
  intros H. injection H as <-. exists flagged, candidates.
  split; [reflexivity|]. split; [exact Hb|]. cbn. split_and!; reflexivity.
Qed.

(** X8: in every report, each candidate has been included at least once,
    has a macro count that is not negative and a score between 0 and 100;
    its score and rationale are those of the risk scorer on its counts, its
    level and its recommendation are those of its score, and it has a
    suggested module name. *)
Theorem report_candidates_consistent (fuel : nat) (host : Host) (rt : Runtime)
    (iter : gset Path -> list Path) (path : string) (top : Z)
    (report : PlannerReport.t) (c : Candidate.t) :
  (forall (s : gset Path) x, In x (iter s) -> x ∈ s) ->
  analyze_compile_commands fuel host rt iter path top = Ok report ->
  In c (PlannerReport.candidates report) ->
  1 <= Candidate.include_frequency c /\
  0 <= Candidate.macro_defines c /\
  0 <= Candidate.risk_score c <= 100 /\
  Candidate.risk_level c = _risk_level (Candidate.risk_score c) /\
  Candidate.recommendation c =
    _recommendation (Candidate.risk_score c) (Candidate.in_cycle c) /\
  (exists name, Candidate.suggested_module c = Some name) /\
  exists header,
    _is_header header = true /\
    (Candidate.risk_score c, Candidate.rationale c) =
    _risk_score header (Candidate.include_frequency c) (Candidate.macro_defines c)
      (Candidate.in_cycle c).
Proof.
  intros Hiter Hrun Hin.
  destruct (analyze_compile_commands_ok _ _ _ _ _ _ _ Hrun) as (tus & st & Hscan & Hrep).
  destruct (scan_project_invariant _ _ _ _ _ _ Hscan) as [Hinv Hqueue].
  destruct (assemble_report_candidates _ _ _ _ _ _ _ _ Hrep)
    as (flagged & candidates & _ & Hbuild & Hcands & _).
  rewrite Hcands in Hin. apply top_candidates_in in Hin.
  destruct (build_candidates_in _ _ _ _ _ _ _ Hbuild Hin) as (header & Hheader & Hc).
  apply sorted_paths_in, Hiter in Hheader.
  destruct (scanned_project_headers _ _ _ _ Hinv Hqueue Hheader) as [Hcounted _].
  apply all_project_headers_spec in Hheader. destruct Hheader as (_ & _ & Hh).
  destruct (dict_get_some _ _ Hcounted) as [n Hn].
  assert (Hpos : 1 <= n).
  { pose proof (frequency_positive _ _ _ Hinv) as Hf.
    rewrite List.Forall_forall in Hf. apply (Hf _ (dict_get_in _ _ _ Hn)). }
  assert (Hmacro : 0 <= default (_count_defines host header)
                               (PyDict.get header (Scan.macro_counts st))).
  { destruct (PyDict.get header (Scan.macro_counts st)) as [m|] eqn:Hm; cbn.
    - pose proof (macro_counts_nonneg _ _ _ Hinv) as Hall.
      rewrite List.Forall_forall in Hall. apply (Hall _ (dict_get_in _ _ _ Hm)).
    - apply count_defines_nonneg. }
  unfold build_candidate in Hc. rewrite Hn in Hc. cbv zeta in Hc.
  change (default 0 (Some n)) with n in Hc.
  pose proof (risk_score_range header n
                (default (_count_defines host header)
                   (PyDict.get header (Scan.macro_counts st)))
                (bool_decide (header ∈ flagged))) as Hrange.
  destruct (_risk_score header n _ _) as [risk rationale] eqn:Hscore.
  destruct (_suggest_module_name host header _) as [name| |];
    cbn [mbind outcome_bind] in Hc; [|discriminate Hc|discriminate Hc].
  injection Hc as <-. cbn. cbn in Hrange.
  split_and!; try assumption; try reflexivity; try lia.
  - exists name. reflexivity.
  - exists header. split; [exact Hh|]. symmetry. exact Hscore.
Qed.

Lemma report_candidates_consistent_witness :
  exists report c,
    analyze_compile_commands 20 Fixture.host Fixture.runtime GraphFixture.forwards
      "/proj/compile_commands.json" 10 = Ok report /\
    In c (PlannerReport.candidates report) /\
    1 <= Candidate.include_frequency c /\
    0 <= Candidate.risk_score c <= 100.
Proof.
  pose (r := analyze_compile_commands 20 Fixture.host Fixture.runtime
               GraphFixture.forwards "/proj/compile_commands.json" 10).
  assert (Hrun : analyze_compile_commands 20 Fixture.host Fixture.runtime
                   GraphFixture.forwards "/proj/compile_commands.json" 10 = r)
    by reflexivity.
  assert (Hcheck : match r with
                   | Ok report =>
                       match PlannerReport.candidates report with
                       | _ :: _ => true
                       | [] => false
                       end
                   | _ => false
                   end = true) by (vm_compute; reflexivity).
  clearbody r.
  destruct r as [report| |]; [|discriminate Hcheck|discriminate Hcheck].
  destruct (PlannerReport.candidates report) as [|c rest] eqn:Hcands;
    [discriminate Hcheck|].
  exists report, c.
  assert (Hin : In c (PlannerReport.candidates report))
    by (rewrite Hcands; left; reflexivity).
  destruct (report_candidates_consistent 20 Fixture.host Fixture.runtime
              GraphFixture.forwards "/proj/compile_commands.json" 10 report c)
    as (Hfreq & _ & Hrange & _); try assumption.
  - intros s x Hx. apply forwards_enumerates. exact Hx.
  - split; [exact Hrun|]. split; [exact Hin|]. split; [exact Hfreq|exact Hrange].
Defined.

(** ** The risk scorer, continued *)

(** The score in closed form, for every sign of the counts. *)
Lemma risk_score_closed_form (header : Path) (f m : Z) (c : bool) :
  fst (_risk_score header f m c) =
  let total :=
    10 + Z.min 55 (m * 5) + (if c then 30 else 0) +
    (if String.eqb (Py.lower (PurePath.suffix header)) ".h" then 10 else 0) in
  Z.max 0 (Z.min 100 (if f <=? 1 then total + 8
                      else if 4 <=? f then Z.max 0 (total - 6) else total)).
Proof.
  unfold _risk_score.
  destruct (Z.eqb_spec m 0) as [Hm|Hm]; cbn [negb];
    destruct (8 <=? m), c, (String.eqb (Py.lower (PurePath.suffix header)) ".h"),
      (f <=? 1), (4 <=? f); cbn [fst]; cbv zeta; f_equal; lia.
Qed.

(** X9: the score never goes down when the macro count goes up, when the
    header comes to lie on a cycle, or when the include frequency goes
    down, whatever the signs of the counts. *)
Theorem risk_score_monotone (header : Path) (f f' m m' : Z) (c c' : bool) :
  m <= m' -> f' <= f -> (c = true -> c' = true) ->
  fst (_risk_score header f m c) <= fst (_risk_score header f' m' c').
Proof.
  intros Hm Hf Hc. rewrite !risk_score_closed_form. cbv zeta.
  destruct (String.eqb (Py.lower (PurePath.suffix header)) ".h");
    destruct c, c'; try (specialize (Hc eq_refl); discriminate Hc);
    destruct (Z.leb_spec f 1), (Z.leb_spec f' 1), (Z.leb_spec 4 f), (Z.leb_spec 4 f');
    lia.
Qed.

Lemma risk_score_monotone_witness :
  fst (_risk_score "include/common/config.h" 4 2 false) <=
  fst (_risk_score "include/common/config.h" 1 9 true).
Proof. apply risk_score_monotone; [lia|lia|discriminate]. Defined.

(** ** Include directories *)

Lemma unique_from_spec (host : Host) (paths : list Path) (seen : gset Path) :
  List.NoDup (unique_from host seen paths) /\
  (forall p, In p (unique_from host seen paths) <->
             p ∉ seen /\ exists q, In q paths /\ p = resolve host q) /\
  sublist (unique_from host seen paths) (map (resolve host) paths).
Proof.
  revert seen. induction paths as [|path rest IH]; intros seen; cbn [unique_from map].
  - split; [constructor|]. split; [|constructor].
    intros p. cbn. split; [tauto|]. intros (_ & q & [] & _).
  - cbv zeta.
    destruct (bool_decide_reflect (resolve host path ∈ seen)) as [Hseen|Hseen].
    + destruct (IH seen) as (Hnd & Hin & Hsub). split; [exact Hnd|].
      split; [|apply sublist_cons; exact Hsub].
      intros p. rewrite Hin. split.
      * intros (Hp & q & Hq & ->). split; [exact Hp|]. exists q. split; [right|]; auto.
      * intros (Hp & q & [<-|Hq] & ->); [contradiction|].
        split; [exact Hp|]. exists q. split; auto.
    + destruct (IH ({[resolve host path]} ∪ seen)) as (Hnd & Hin & Hsub).
      split; [|split].
      * constructor; [|exact Hnd]. rewrite Hin. intros (Hp & _).
        apply Hp. apply elem_of_union. left. apply elem_of_singleton. reflexivity.
      * intros p. cbn [In]. rewrite Hin, not_elem_of_union, not_elem_of_singleton.
        split.
        -- intros [<-|((Hne & Hp) & q & Hq & ->)].
           ++ split; [exact Hseen|]. exists path. split; [left|]; reflexivity.
           ++ split; [exact Hp|]. exists q. split; [right|]; auto.
        -- intros (Hp & q & [<-|Hq] & ->); [left; reflexivity|].
           destruct (decide (resolve host path = resolve host q)) as [Heq|Hne];
             [left; exact Heq|right].
           split; [split; [congruence|exact Hp]|]. exists q. split; auto.
      * apply sublist_skip. exact Hsub.
Qed.


(** X11: an include directory may be spelled as a flag followed by its
    value or joined to the flag: [-I dir] and [-Idir], [/I dir] and
    [/Idir], [-isystem dir] and [-isystemdir] give the same directories. A
    flag that ends the command line without a value adds nothing. *)
Theorem extract_include_dirs_spellings (host : Host) (flag value : string)
    (rest : list string) (directory : Path) :
  is_include_flag flag = true -> value <> EmptyString ->
  _extract_include_dirs host (flag :: value :: rest) directory =
  _extract_include_dirs host ((flag +:+ value) :: rest) directory /\
  _extract_include_dirs host [flag] directory = [].
Proof.
  intros Hflag Hvalue. unfold _extract_include_dirs.
  destruct value as [|c value]; [congruence|].
  unfold is_include_flag in Hflag.
  apply orb_true_iff in Hflag. destruct Hflag as [Hflag|Hflag];
    [apply orb_true_iff in Hflag; destruct Hflag as [Hflag|Hflag]|];
    apply String.eqb_eq in Hflag; subst flag; split; reflexivity.
Qed.

Lemma extract_include_dirs_spellings_witness :
  _extract_include_dirs Fixture.host ["-isystem"; "third_party"; "-O2"] "/proj" =
  _extract_include_dirs Fixture.host ["-isystemthird_party"; "-O2"] "/proj" /\
  _extract_include_dirs Fixture.host ["-isystem"] "/proj" = [].
Proof.
  apply (extract_include_dirs_spellings Fixture.host "-isystem" "third_party");
    [reflexivity|discriminate].
Defined.

(** ** Include directives *)

Lemma str_append_assoc (a b c : string) : (a +:+ b) +:+ c = a +:+ (b +:+ c).
Proof.
  induction a as [|x a IH]; [reflexivity|].
  change (String x ((a +:+ b) +:+ c) = String x (a +:+ (b +:+ c))).
  rewrite IH. reflexivity.
Qed.

Lemma span_name_app (name : string) (close : ascii) (rest : string) :
  forallb (fun c => negb (Regex.is_delimiter c)) (list_ascii_of_string name) = true ->
  Regex.is_delimiter close = true ->
  Regex.span_name (name +:+ String close rest) = (name, String close rest).
Proof.
  intros Hname Hclose. induction name as [|c name IH].
  - change (Regex.span_name (String close rest) = (EmptyString, String close rest)).
    cbn [Regex.span_name]. rewrite Hclose. reflexivity.
  - change (Regex.span_name (String c (name +:+ String close rest)) =
            (String c name, String close rest)).
    cbn [list_ascii_of_string forallb] in Hname.
    apply andb_true_iff in Hname. destruct Hname as [Hc Hname].
    apply negb_true_iff in Hc. cbn [Regex.span_name]. rewrite Hc, (IH Hname).
    reflexivity.
Qed.

Lemma lstrip_spaces (ws s : string) :
  forallb PyStr.is_space (list_ascii_of_string ws) = true ->
  PyStr.lstrip (ws +:+ s) = PyStr.lstrip s.
Proof.
  induction ws as [|c ws IH]; [reflexivity|].
  cbn [list_ascii_of_string forallb]. intros H. apply andb_true_iff in H.
  destruct H as [Hc Hws].
  change (PyStr.lstrip (String c (ws +:+ s)) = PyStr.lstrip s).
  unfold PyStr.lstrip in *. cbn [PyStr.lstrip_by]. rewrite Hc. apply IH. exact Hws.
Qed.

Lemma prefix_append (lit s : string) : String.prefix lit (lit +:+ s) = true.
Proof.
  induction lit as [|a lit IH]; [destruct s; reflexivity|].
  change (String.prefix (String a lit) (String a (lit +:+ s)) = true).
  cbn [String.prefix]. destruct (ascii_dec a a); [exact IH|congruence].
Qed.

Lemma str_drop_append (lit s : string) : Py.str_drop (String.length lit) (lit +:+ s) = s.
Proof. induction lit as [|a lit IH]; [reflexivity|exact IH]. Qed.

Lemma expect_app (lit s : string) : Regex.expect lit (lit +:+ s) = Some s.
Proof. unfold Regex.expect. rewrite prefix_append, str_drop_append. reflexivity. Qed.

(** What [INCLUDE_RE] does with a line that spells a directive; [d] opens
    the name. *)
Lemma match_include_directive (ws1 ws2 ws3 : string) (d : ascii) (body : string) :
  forallb PyStr.is_space (list_ascii_of_string ws1) = true ->
  forallb PyStr.is_space (list_ascii_of_string ws2) = true ->
  forallb PyStr.is_space (list_ascii_of_string ws3) = true ->
  d = "<"%char \/ d = Py.dquote ->
  Regex.match_include (ws1 +:+ "#" +:+ ws2 +:+ "include" +:+ ws3 +:+ String d body) =
  match Regex.span_name body with
  | (EmptyString, _) => None
  | (_, EmptyString) => None
  | (name, String _ _) => Some (String d EmptyString, name)
  end.
Proof.
  intros H1 H2 H3 Hd. unfold Regex.match_include.
  rewrite (lstrip_spaces ws1 _ H1).
  change (PyStr.lstrip ("#" +:+ ws2 +:+ "include" +:+ ws3 +:+ String d body))
    with (String "#"%char (ws2 +:+ "include" +:+ ws3 +:+ String d body)).
  cbv iota. rewrite (lstrip_spaces ws2 _ H2).
  change (PyStr.lstrip ("include" +:+ ws3 +:+ String d body))
    with ("include" +:+ ws3 +:+ String d body).
  rewrite expect_app, (lstrip_spaces ws3 _ H3).
  destruct Hd as [-> | ->]; reflexivity.
Qed.

(** X12: an include directive is read back as it was written. A line made
    of optional white space, [#], optional white space, [include], optional
    white space, an opening delimiter, a name and a closing delimiter parses
    to the kind and the name, for every name that is not empty and holds
    neither a double quote nor a closing angle bracket; the closing
    delimiter need not match the opening one, and what follows it is
    ignored. In particular the line made of [#include] and a token of
    [_token] gives back the kind and the name of the token. *)
Theorem parse_include_round_trip (ws1 ws2 ws3 kind name : string) (close : ascii)
    (rest : string) :
  forallb PyStr.is_space (list_ascii_of_string ws1) = true ->
  forallb PyStr.is_space (list_ascii_of_string ws2) = true ->
  forallb PyStr.is_space (list_ascii_of_string ws3) = true ->
  kind = ANGLE \/ kind = QUOTED ->
  name <> EmptyString ->
  forallb (fun c => negb (Regex.is_delimiter c)) (list_ascii_of_string name) = true ->
  Regex.is_delimiter close = true ->
  Regex.match_include
    (ws1 +:+ "#" +:+ ws2 +:+ "include" +:+ ws3 +:+ kind +:+ name +:+ String close rest) =
  Some (kind, name) /\
  Regex.match_include ("#include " +:+ _token kind name +:+ rest) = Some (kind, name).
Proof.
  intros H1 H2 H3 Hkind Hne Hname Hclose.
  assert (Hgeneral : forall w1 w2 w3 close' rest',
             forallb PyStr.is_space (list_ascii_of_string w1) = true ->
             forallb PyStr.is_space (list_ascii_of_string w2) = true ->
             forallb PyStr.is_space (list_ascii_of_string w3) = true ->
             Regex.is_delimiter close' = true ->
             Regex.match_include
               (w1 +:+ "#" +:+ w2 +:+ "include" +:+ w3 +:+ kind +:+ name +:+
                String close' rest') = Some (kind, name)).
  { intros w1 w2 w3 close' rest' Hw1 Hw2 Hw3 Hclose'.
    destruct Hkind as [-> | ->].
    - change (w1 +:+ "#" +:+ w2 +:+ "include" +:+ w3 +:+ ANGLE +:+ name +:+
              String close' rest')
        with (w1 +:+ "#" +:+ w2 +:+ "include" +:+ w3 +:+
              String "<"%char (name +:+ String close' rest')).
      rewrite match_include_directive by (assumption || (left; reflexivity)).
      rewrite (span_name_app name close' rest' Hname Hclose').
      destruct name; [congruence|reflexivity].
    - change (w1 +:+ "#" +:+ w2 +:+ "include" +:+ w3 +:+ QUOTED +:+ name +:+
              String close' rest')
        with (w1 +:+ "#" +:+ w2 +:+ "include" +:+ w3 +:+
              String Py.dquote (name +:+ String close' rest')).
      rewrite match_include_directive by (assumption || (right; reflexivity)).
      rewrite (span_name_app name close' rest' Hname Hclose').
      destruct name; [congruence|reflexivity]. }
  split; [apply Hgeneral; assumption|].
  destruct Hkind as [-> | ->]; unfold _token.
  - change (String.eqb ANGLE ANGLE) with true. cbv iota.
    replace (("<" +:+ name +:+ ">") +:+ rest)
      with (ANGLE +:+ name +:+ String ">"%char rest).
    + apply (Hgeneral EmptyString EmptyString " " ">"%char rest); reflexivity.
    + change (String "<"%char (name +:+ String ">"%char rest) =
              String "<"%char ((name +:+ ">") +:+ rest)).
      rewrite str_append_assoc. reflexivity.
  - change (String.eqb QUOTED ANGLE) with false. cbv iota.
    replace ((QUOTED +:+ name +:+ QUOTED) +:+ rest)
      with (QUOTED +:+ name +:+ String Py.dquote rest).
    + apply (Hgeneral EmptyString EmptyString " " Py.dquote rest); reflexivity.
    + change (String Py.dquote (name +:+ String Py.dquote rest) =
              String Py.dquote ((name +:+ QUOTED) +:+ rest)).
      rewrite str_append_assoc. reflexivity.
Qed.

Lemma parse_include_round_trip_witness :
  Regex.match_include
    ("  " +:+ "#" +:+ " " +:+ "include" +:+ EmptyString +:+ ANGLE +:+ "vector" +:+
     String Py.dquote " // STL") = Some (ANGLE, "vector") /\
  Regex.match_include ("#include " +:+ _token ANGLE "vector" +:+ " // STL") =
  Some (ANGLE, "vector").
Proof.
  apply (parse_include_round_trip "  " " " EmptyString ANGLE "vector" Py.dquote " // STL");
    try reflexivity; [left; reflexivity|discriminate].
Defined.



(** ** The language standard *)

Lemma digit_lower (c : ascii) : StdFlag.is_digit c = true -> Py.lower_ascii c = c.
Proof.
  unfold StdFlag.is_digit, Py.lower_ascii. cbv zeta. intros H.
  apply andb_true_iff in H. destruct H as [_ H]. apply Nat.leb_le in H.
  destruct (Nat.leb_spec 65 (nat_of_ascii c)); [lia|reflexivity].
Qed.

Lemma digits_lower (d : string) :
  forallb StdFlag.is_digit (list_ascii_of_string d) = true -> Py.lower d = d.
Proof.
  induction d as [|c d IH]; cbn [list_ascii_of_string forallb Py.lower];
    [reflexivity|].
  intros H. apply andb_true_iff in H. destruct H as [Hc Hd].
  rewrite (digit_lower c Hc), (IH Hd). reflexivity.
Qed.

Lemma digits_all (d : string) :
  forallb StdFlag.is_digit (list_ascii_of_string d) = true -> StdFlag.digits d = d.
Proof.
  induction d as [|c d IH]; cbn [list_ascii_of_string forallb StdFlag.digits];
    [reflexivity|].
  intros H. apply andb_true_iff in H. destruct H as [Hc Hd].
  rewrite Hc, (IH Hd). reflexivity.
Qed.

Lemma prefix_chars (needle s : string) (ch : ascii) :
  String.prefix needle s = true -> In ch (list_ascii_of_string needle) ->
  In ch (list_ascii_of_string s).
Proof.
  revert s. induction needle as [|a needle IH]; intros s Hp Hin; [destruct Hin|].
  destruct s as [|b s]; [discriminate Hp|]. cbn [String.prefix] in Hp.
  destruct (ascii_dec a b) as [->|]; [|discriminate Hp].
  destruct Hin as [<-|Hin]; [left; reflexivity|right; apply IH; assumption].
Qed.

(** A string that holds [needle] holds each of its characters. *)
Lemma contains_chars (needle s : string) (ch : ascii) :
  Py.contains needle s = true -> In ch (list_ascii_of_string needle) ->
  In ch (list_ascii_of_string s).
Proof.
  intros Hc Hin. induction s as [|b s IH]; cbn [Py.contains] in Hc.
  - rewrite orb_false_r in Hc. eapply prefix_chars; eassumption.
  - apply orb_true_iff in Hc. destruct Hc as [Hp|Hc].
    + eapply prefix_chars; eassumption.
    + right. apply IH. exact Hc.
Qed.

Lemma digits_no_letter (d : string) (ch : ascii) :
  forallb StdFlag.is_digit (list_ascii_of_string d) = true ->
  In ch (list_ascii_of_string d) -> StdFlag.is_digit ch = true.
Proof. intros H Hin. exact (proj1 (forallb_forall _ _) H ch Hin). Qed.

(** [int_from] reads on from where it stands. *)
Lemma int_from_app (acc : Z) (a b : string) :
  StdFlag.int_from acc (a +:+ b) = StdFlag.int_from (StdFlag.int_from acc a) b.
Proof.
  revert acc. induction a as [|c a IH]; intros acc; [reflexivity|].
  change (StdFlag.int_from acc (String c (a +:+ b)) =
          StdFlag.int_from (StdFlag.int_from acc (String c a)) b).
  cbn [StdFlag.int_from]. apply IH.
Qed.

Lemma list_ascii_of_string_app (a b : string) :
  list_ascii_of_string (a +:+ b) = list_ascii_of_string a ++ list_ascii_of_string b.
Proof.
  induction a as [|c a IH]; [reflexivity|].
  change (c :: list_ascii_of_string (a +:+ b) =
          c :: (list_ascii_of_string a ++ list_ascii_of_string b)).
  rewrite IH. reflexivity.
Qed.

Lemma pretty_N_char_digit (x : N) :
  (x < 10)%N ->
  StdFlag.is_digit (pretty_N_char x) = true /\
  Z.of_nat (nat_of_ascii (pretty_N_char x) - 48) = Z.of_N x.
Proof.
  intros H.
  assert (Hx : In x [0; 1; 2; 3; 4; 5; 6; 7; 8; 9]%N).
  { cbn. lia. }
  cbn in Hx. repeat destruct Hx as [<-|Hx]; try (split; reflexivity). destruct Hx.
Qed.

Lemma pretty_N_go_app (x : N) (s : string) :
  pretty_N_go x s = pretty_N_go x EmptyString +:+ s.
Proof.
  revert s. induction (N.lt_wf_0 x) as [x _ IH]; intros s.
  destruct (decide (x = 0)%N) as [->|Hx]; [rewrite !pretty_N_go_0; reflexivity|].
  rewrite !(pretty_N_go_step x) by lia.
  rewrite (IH (x `div` 10)%N) by (apply N.div_lt; lia).
  rewrite (IH (x `div` 10)%N ltac:(apply N.div_lt; lia) (String _ EmptyString)).
  rewrite str_append_assoc. reflexivity.
Qed.

(** Reading the decimal spelling of a number gives the number back, and the
    spelling is made of digits. *)
Lemma pretty_N_go_decimal (x : N) :
  StdFlag.int_from 0 (pretty_N_go x EmptyString) = Z.of_N x /\
  forallb StdFlag.is_digit (list_ascii_of_string (pretty_N_go x EmptyString)) = true.
Proof.
  induction (N.lt_wf_0 x) as [x _ IH].
  destruct (decide (x = 0)%N) as [->|Hx]; [rewrite pretty_N_go_0; split; reflexivity|].
  rewrite (pretty_N_go_step x) by lia. rewrite pretty_N_go_app.
  destruct (IH (x `div` 10)%N ltac:(apply N.div_lt; lia)) as [Hval Hdig].
  destruct (pretty_N_char_digit (x `mod` 10)%N ltac:(apply N.mod_lt; lia))
    as [Hdigit Hchar].
  split.
  - rewrite int_from_app, Hval. cbn [StdFlag.int_from]. rewrite Hchar.
    pose proof (N.div_mod x 10 ltac:(lia)). lia.
  - rewrite list_ascii_of_string_app, forallb_app, Hdig.
    cbn [list_ascii_of_string forallb andb]. rewrite Hdigit. reflexivity.
Qed.

Lemma pretty_Z_decimal (n : Z) :
  0 <= n ->
  StdFlag.int_from 0 (pretty n) = n /\
  forallb StdFlag.is_digit (list_ascii_of_string (pretty n)) = true /\
  pretty n <> EmptyString.
Proof.
  intros Hn. destruct n as [|p|p]; [repeat split; discriminate| |lia].
  change (pretty (Z.pos p)) with (pretty_N_go (N.pos p) EmptyString).
  destruct (pretty_N_go_decimal (N.pos p)) as [Hval Hdig].
  split; [exact Hval|]. split; [exact Hdig|].
  intros Hempty. rewrite Hempty in Hval. discriminate Hval.
Qed.

Lemma search_version_digits (d : string) :
  d <> EmptyString ->
  forallb StdFlag.is_digit (list_ascii_of_string d) = true ->
  StdFlag.search_version ("++" +:+ d) = Some d.
Proof.
  intros Hne Hdig. destruct d as [|c d]; [congruence|].
  change (StdFlag.search_version ("++" +:+ String c d))
    with (match StdFlag.digits (String c d) with
          | EmptyString => StdFlag.search_version (String "+"%char (String c d))
          | String a r => Some (String a r)
          end).
  rewrite (digits_all _ Hdig). reflexivity.
Qed.

Lemma is_cxx20_digits (dialect d : string) :
  dialect = "c" \/ dialect = "gnu" ->
  d <> EmptyString ->
  forallb StdFlag.is_digit (list_ascii_of_string d) = true ->
  _is_cxx20_or_newer (dialect +:+ "++" +:+ d) = (20 <=? StdFlag.int_from 0 d).
Proof.
  intros Hdialect Hne Hdig. unfold _is_cxx20_or_newer. cbv zeta.
  assert (Hlower : Py.lower (dialect +:+ "++" +:+ d) = dialect +:+ "++" +:+ d).
  { destruct Hdialect as [-> | ->].
    - change (String "c"%char (String "+"%char (String "+"%char (Py.lower d))) =
              String "c"%char (String "+"%char (String "+"%char d))).
      rewrite (digits_lower d Hdig). reflexivity.
    - change (String "g"%char (String "n"%char (String "u"%char
                (String "+"%char (String "+"%char (Py.lower d))))) =
              String "g"%char (String "n"%char (String "u"%char
                (String "+"%char (String "+"%char d))))).
      rewrite (digits_lower d Hdig). reflexivity. }
  rewrite Hlower.
  assert (Hunknown : String.eqb (dialect +:+ "++" +:+ d) "unknown" = false)
    by (destruct Hdialect as [-> | ->]; reflexivity).
  rewrite Hunknown.
  assert (Hfresh : forall ch, In ch (list_ascii_of_string (dialect +:+ "++" +:+ d)) ->
                              ch <> "a"%char /\ ch <> "b"%char).
  { intros ch Hin.
    assert (Hcase : In ch (list_ascii_of_string (dialect +:+ "++")) \/
                    In ch (list_ascii_of_string d)).
    { rewrite !list_ascii_of_string_app, !in_app_iff in *. tauto. }
    destruct Hcase as [Hc|Hc].
    - destruct Hdialect as [-> | ->];
        change (In ch (list_ascii_of_string ("c" +:+ "++")))
          with (In ch ["c"; "+"; "+"]%char) in Hc ||
        change (In ch (list_ascii_of_string ("gnu" +:+ "++")))
          with (In ch ["g"; "n"; "u"; "+"; "+"]%char) in Hc;
        cbn [In] in Hc;
        repeat destruct Hc as [<-|Hc]; try (split; discriminate); destruct Hc.
    - pose proof (digits_no_letter d ch Hdig Hc) as Hd.
      split; intros ->; discriminate Hd. }
  assert (H2a : Py.contains "c++2a" (dialect +:+ "++" +:+ d) = false).
  { destruct (Py.contains "c++2a" _) eqn:Hc; [|reflexivity].
    destruct (Hfresh "a"%char) as [Ha _]; [|congruence].
    eapply contains_chars; [exact Hc|]. cbn. tauto. }
  assert (H2b : Py.contains "c++2b" (dialect +:+ "++" +:+ d) = false).
  { destruct (Py.contains "c++2b" _) eqn:Hc; [|reflexivity].
    destruct (Hfresh "b"%char) as [_ Hb]; [|congruence].
    eapply contains_chars; [exact Hc|]. cbn. tauto. }
  rewrite H2a, H2b. cbn [orb].
  assert (Hsearch : StdFlag.search_version (dialect +:+ "++" +:+ d) = Some d).
  { transitivity (StdFlag.search_version ("++" +:+ d));
      [destruct Hdialect as [-> | ->]; reflexivity|].
    apply search_version_digits; assumption. }
  rewrite Hsearch. reflexivity.
Qed.



(** ** Module names, continued *)

Lemma keep_chars (p : ascii -> bool) (s : string) (ch : ascii) :
  In ch (list_ascii_of_string (ModuleName.keep p s)) ->
  p ch = true /\ In ch (list_ascii_of_string s).
Proof.
  induction s as [|c s IH]; cbn [ModuleName.keep list_ascii_of_string]; [intros []|].
  destruct (p c) eqn:Hc; cbn [list_ascii_of_string In].
  - intros [<-|Hin]; [auto|]. destruct (IH Hin). auto.
  - intros Hin. destruct (IH Hin). auto.
Qed.

Lemma replace_chars (a b : ascii) (s : string) (ch : ascii) :
  In ch (list_ascii_of_string (ModuleName.replace a b s)) ->
  ch <> a \/ ch = b.
Proof.
  induction s as [|c s IH]; cbn [ModuleName.replace list_ascii_of_string In];
    [intros []|].
  intros [<-|Hin]; [|exact (IH Hin)].
  destruct (Ascii.eqb_spec c a); [right; reflexivity|left; assumption].
Qed.

Lemma replace_chars_from (a b : ascii) (s : string) (ch : ascii) :
  In ch (list_ascii_of_string (ModuleName.replace a b s)) ->
  ch = b \/ In ch (list_ascii_of_string s).
Proof.
  induction s as [|c s IH]; cbn [ModuleName.replace list_ascii_of_string In];
    [intros []|].
  intros [<-|Hin].
  - destruct (Ascii.eqb_spec c a); [left; reflexivity|right; left; reflexivity].
  - destruct (IH Hin); auto.
Qed.

Lemma collapse_dots_chars (s : string) (ch : ascii) :
  In ch (list_ascii_of_string (ModuleName.collapse_dots s)) ->
  In ch (list_ascii_of_string s).
Proof.
  induction s as [|c s IH]; [intros []|].
  cbn [ModuleName.collapse_dots].
  destruct (Ascii.eqb c "."%char).
  - destruct s as [|c' s']; [intros H; exact H|].
    destruct (Ascii.eqb c' "."%char).
    + intros Hin. right. apply IH. exact Hin.
    + cbn [list_ascii_of_string In]. intros [<-|Hin]; [left; reflexivity|].
      right. apply IH. exact Hin.
  - cbn [list_ascii_of_string In]. intros [<-|Hin]; [left; reflexivity|].
    right. apply IH. exact Hin.
Qed.

Lemma lstrip_by_chars (p : ascii -> bool) (s : string) (ch : ascii) :
  In ch (list_ascii_of_string (PyStr.lstrip_by p s)) -> In ch (list_ascii_of_string s).
Proof.
  induction s as [|c s IH]; cbn [PyStr.lstrip_by]; [intros []|].
  destruct (p c); [|intros H; exact H]. intros Hin. right. apply IH. exact Hin.
Qed.

Lemma rstrip_by_chars (p : ascii -> bool) (s : string) (ch : ascii) :
  In ch (list_ascii_of_string (PyStr.rstrip_by p s)) -> In ch (list_ascii_of_string s).
Proof.
  induction s as [|c s IH]; cbn [PyStr.rstrip_by]; [intros []|].
  destruct (PyStr.rstrip_by p s) as [|c' r] eqn:Hr.
  - destruct (p c); [intros []|]. cbn. tauto.
  - cbn [list_ascii_of_string In]. intros [<-|Hin]; [left; reflexivity|].
    right. apply IH. exact Hin.
Qed.

(** What [lstrip] leaves does not start with a stripped character. *)
Lemma lstrip_by_head (p : ascii -> bool) (s : string) (c : ascii) (r : string) :
  PyStr.lstrip_by p s = String c r -> p c = false.
Proof.
  induction s as [|a s IH]; cbn [PyStr.lstrip_by]; [discriminate|].
  destruct (p a) eqn:Ha; [exact IH|]. intros H. injection H as <- _. exact Ha.
Qed.

(** What [rstrip] leaves starts as the string did and does not end with a
    stripped character. *)
Lemma rstrip_by_head (p : ascii -> bool) (s : string) (c : ascii) (r : string) :
  PyStr.rstrip_by p s = String c r -> exists s', s = String c s'.
Proof.
  destruct s as [|a s]; cbn [PyStr.rstrip_by]; [discriminate|].
  destruct (PyStr.rstrip_by p s); [destruct (p a); [discriminate|]|];
    intros H; injection H as <- _; eexists; reflexivity.
Qed.

Lemma rstrip_by_last (p : ascii -> bool) (s pre : string) (c : ascii) :
  PyStr.rstrip_by p s = pre +:+ String c EmptyString -> p c = false.
Proof.
  revert pre. induction s as [|a s IH]; intros pre; cbn [PyStr.rstrip_by].
  - destruct pre; discriminate.
  - destruct (PyStr.rstrip_by p s) as [|c' r] eqn:Hr.
    + destruct (p a) eqn:Ha; [destruct pre; discriminate|].
      destruct pre as [|x pre]; [intros H; injection H as <-; exact Ha|].
      change (String a EmptyString = String x (pre +:+ String c EmptyString) -> p c = false).
      intros H. injection H as _ H. destruct pre; discriminate H.
    + destruct pre as [|x pre]; [discriminate|].
      change (String a (String c' r) = String x (pre +:+ String c EmptyString) ->
              p c = false).
      intros H. injection H as _ H. apply (IH pre). exact H.
Qed.

Lemma prefix_app (needle a t : string) :
  String.prefix needle a = true -> String.prefix needle (a +:+ t) = true.
Proof.
  revert a. induction needle as [|x needle IH]; intros a.
  - intros _. destruct (a +:+ t); reflexivity.
  - destruct a as [|y a]; [discriminate|].
    change (String.prefix (String x needle) (String y a) = true ->
            String.prefix (String x needle) (String y (a +:+ t)) = true).
    cbn [String.prefix]. destruct (ascii_dec x y); [apply IH|discriminate].
Qed.

Lemma contains_app (needle a t : string) :
  needle <> EmptyString ->
  Py.contains needle a = true -> Py.contains needle (a +:+ t) = true.
Proof.
  intros Hne. induction a as [|y a IH].
  - cbn [Py.contains]. rewrite orb_false_r. destruct needle; [congruence|discriminate].
  - change (Py.contains needle (String y a) = true ->
            Py.contains needle (String y (a +:+ t)) = true).
    cbn [Py.contains]. rewrite !orb_true_iff. intros [Hp|Hc].
    + left. exact (prefix_app needle (String y a) t Hp).
    + right. apply IH. exact Hc.
Qed.

Lemma rstrip_by_prefix (p : ascii -> bool) (s : string) :
  exists t, s = PyStr.rstrip_by p s +:+ t.
Proof.
  induction s as [|a s [t IH]]; cbn [PyStr.rstrip_by]; [exists EmptyString; reflexivity|].
  destruct (PyStr.rstrip_by p s) as [|c' r] eqn:Hr.
  - destruct (p a).
    + exists (String a s). reflexivity.
    + exists s. reflexivity.
  - exists t. change (String a s = String a (String c' r +:+ t)). rewrite <- IH.
    reflexivity.
Qed.

Lemma lstrip_by_contains (p : ascii -> bool) (needle s : string) :
  Py.contains needle (PyStr.lstrip_by p s) = true -> Py.contains needle s = true.
Proof.
  induction s as [|a s IH]; cbn [PyStr.lstrip_by]; [intros H; exact H|].
  destruct (p a); [|intros H; exact H].
  intros H. cbn [Py.contains]. rewrite (IH H). apply orb_true_r.
Qed.

Lemma collapse_dots_head (s : string) (c : ascii) (r : string) :
  ModuleName.collapse_dots s = String c r ->
  c = "."%char -> String.prefix "." r = false.
Proof.
  revert c r. induction s as [|a s IH]; intros c r; cbn [ModuleName.collapse_dots];
    [discriminate|].
  destruct (Ascii.eqb_spec a "."%char) as [->|Ha].
  - destruct s as [|a' s']; [intros H _; injection H as <- <-; reflexivity|].
    destruct (Ascii.eqb_spec a' "."%char) as [->|Ha'].
    + apply IH.
    + intros H _. injection H as <- <-.
      cbn [ModuleName.collapse_dots].
      destruct (Ascii.eqb_spec a' "."%char) as [|_]; [contradiction|].
      cbn [String.prefix]. destruct (ascii_dec "."%char a'); [congruence|reflexivity].
  - intros H Hc. injection H as <- _. contradiction.
Qed.

(** No two dots in a row are left. *)
Lemma collapse_dots_contains (s : string) :
  Py.contains ".." (ModuleName.collapse_dots s) = false.
Proof.
  induction s as [|a s IH]; [reflexivity|].
  assert (Hstep : forall c r, Py.contains ".." r = false ->
                              (c = "."%char -> String.prefix "." r = false) ->
                              Py.contains ".." (String c r) = false).
  { intros c r Hr Hhead. cbn [Py.contains]. rewrite Hr, orb_false_r.
    cbn [String.prefix]. destruct (ascii_dec "."%char c) as [<-|]; [|reflexivity].
    specialize (Hhead eq_refl). destruct r as [|c' r]; [reflexivity|].
    cbn [String.prefix] in Hhead |- *.
    destruct (ascii_dec "."%char c'); [|reflexivity].
    destruct r; discriminate Hhead. }
  cbn [ModuleName.collapse_dots].
  destruct (Ascii.eqb_spec a "."%char) as [->|Ha].
  - destruct s as [|a' s']; [reflexivity|].
    destruct (Ascii.eqb_spec a' "."%char) as [->|Ha']; [exact IH|].
    apply Hstep; [exact IH|]. intros _.
    cbn [ModuleName.collapse_dots].
    destruct (Ascii.eqb_spec a' "."%char) as [|_]; [contradiction|].
    cbn [String.prefix]. destruct (ascii_dec "."%char a'); [congruence|reflexivity].
  - apply Hstep; [exact IH|]. intros Hc. contradiction.
Qed.

Lemma suggested_stem_shape (stem : string) :
  let kept := ModuleName.keep ModuleName.is_kept stem in
  let dotted :=
    ModuleName.replace "-"%char "_"%char (ModuleName.replace "/"%char "."%char kept) in
  let name :=
    PyStr.rstrip_by ModuleName.is_dot
      (PyStr.lstrip_by ModuleName.is_dot (ModuleName.collapse_dots dotted)) in
  (forall ch, In ch (list_ascii_of_string name) ->
              ModuleName.is_kept ch = true /\ ch <> "/"%char /\ ch <> "-"%char) /\
  String.prefix "." name = false /\
  (forall pre, name <> pre +:+ ".") /\
  Py.contains ".." name = false.
Proof.
  intros kept dotted name. split; [|split; [|split]].
  - intros ch Hin.
    apply rstrip_by_chars, lstrip_by_chars, collapse_dots_chars in Hin.
    pose proof (replace_chars _ _ _ _ Hin) as Hdash.
    apply replace_chars_from in Hin.
    assert (Hslash : ch = "_"%char \/
                     (ch <> "/"%char \/ ch = "."%char) /\
                     (ch = "."%char \/ In ch (list_ascii_of_string kept))).
    { destruct Hin as [->|Hin]; [left; reflexivity|right].
      split; [exact (replace_chars _ _ _ _ Hin)|exact (replace_chars_from _ _ _ _ Hin)]. }
    destruct Hslash as [->|[Hslash Hfrom]];
      [split; [reflexivity|split; discriminate]|].
    assert (Hkept : ModuleName.is_kept ch = true).
    { destruct Hfrom as [->|Hfrom]; [reflexivity|].
      apply keep_chars in Hfrom. apply Hfrom. }
    split; [exact Hkept|]. split.
    + destruct Hslash as [Hslash| ->]; [exact Hslash|discriminate].
    + destruct Hdash as [Hdash| ->]; [exact Hdash|discriminate].
  - destruct name as [|c r] eqn:Hname; [reflexivity|].
    destruct (rstrip_by_head _ _ _ _ Hname) as [s' Hs'].
    apply lstrip_by_head in Hs'. unfold ModuleName.is_dot in Hs'.
    cbn [String.prefix]. destruct (ascii_dec "."%char c) as [<-|]; [|reflexivity].
    discriminate Hs'.
  - intros pre Hpre. apply rstrip_by_last in Hpre. discriminate Hpre.
  - destruct (Py.contains ".." name) eqn:Hc; [|reflexivity].
    destruct (rstrip_by_prefix ModuleName.is_dot
                (PyStr.lstrip_by ModuleName.is_dot (ModuleName.collapse_dots dotted)))
      as [t Ht].
    fold name in Ht.
    apply (contains_app ".." name t) in Hc; [|discriminate]. rewrite <- Ht in Hc.
    apply lstrip_by_contains in Hc. rewrite collapse_dots_contains in Hc.
    discriminate Hc.
Qed.

(** X14: a suggested module name is a dotted name: it is not empty, is made
    of letters, digits, underscores and dots only, neither starts nor ends
    with a dot and holds no two dots in a row. *)
Theorem suggest_module_name_shape (host : Host) (path project_root : Path)
    (name : string) :
  _suggest_module_name host path project_root = Ok name ->
  name <> EmptyString /\
  (forall ch, In ch (list_ascii_of_string name) ->
              ModuleName.is_kept ch = true /\ ch <> "/"%char /\ ch <> "-"%char) /\
  String.prefix "." name = false /\
  (forall pre, name <> pre +:+ ".") /\
  Py.contains ".." name = false.
Proof.
  unfold _suggest_module_name. cbv zeta.
  destruct (ModuleName.without_suffix host _) as [stem| |];
    cbn [mbind outcome_bind]; [|discriminate|discriminate].
  pose proof (suggested_stem_shape stem) as Hshape. cbv zeta in Hshape.
  destruct (String.eqb_spec
              (PyStr.rstrip_by ModuleName.is_dot
                 (PyStr.lstrip_by ModuleName.is_dot
                    (ModuleName.collapse_dots
                       (ModuleName.replace "-"%char "_"%char
                          (ModuleName.replace "/"%char "."%char
                             (ModuleName.keep ModuleName.is_kept stem))))))
              EmptyString) as [Hempty|Hne]; intros H; injection H as <-.
  - split; [discriminate|]. split; [|split; [reflexivity|split; [|reflexivity]]].
    + intros ch Hin. cbn in Hin.
      repeat destruct Hin as [<-|Hin]; try (split; [reflexivity|split; discriminate]).
      destruct Hin.
    + intros pre Hpre.
      assert (Hlast : PyStr.rstrip_by ModuleName.is_dot "unnamed.module" =
                      pre +:+ ".") by (rewrite <- Hpre; reflexivity).
      apply rstrip_by_last in Hlast. discriminate Hlast.
  - split; [exact Hne|exact Hshape].
Qed.

Lemma suggest_module_name_shape_witness :
  "common.config" <> EmptyString /\ Py.contains ".." "common.config" = false.
Proof.
  destruct (suggest_module_name_shape Fixture.host "/proj/include/common/config.h"
              "/proj" "common.config") as (Hne & _ & _ & _ & Hdots).
  - vm_compute. reflexivity.
  - split; assumption.
Defined.

(** ** A graph without flagged headers has no cycle *)

Lemma finished_extends (st st' : DfsState) (n : Path) :
  dfs_extends st st' -> finished st n -> finished st' n.
Proof.
  intros (_ & Hon & _ & Hv & _) [H1 H2]. split; [apply Hv; exact H1|].
  rewrite Hon. exact H2.
Qed.

Lemma finished_closed_reach (graph : Graph) (st : DfsState) (a b : Path) :
  finished_acyclic graph st -> rtc (graph_edge graph) a b ->
  finished st a -> finished st b.
Proof.
  intros Hinv Hreach. induction Hreach as [a|a c b Hedge _ IH]; [tauto|].
  intros Ha. apply IH. apply (proj1 (Hinv a Ha)). exact Hedge.
Qed.

Lemma tc_first {A : Type} (R : A -> A -> Prop) (x y : A) :
  tc R x y -> exists z, R x z /\ rtc R z y.
Proof.
  intros H. destruct H as [x y H|x z y H Htc].
  - exists y. split; [exact H|apply rtc_refl].
  - exists z. split; [exact H|apply tc_rtc; exact Htc].
Qed.

(** A child on the stack puts at least itself in the cycle set. *)
Lemma flag_segment_flags (child : Path) (st : DfsState) :
  dfs_wf st -> child ∈ on_stack st -> child ∈ cycle_nodes (flag_segment child st).
Proof.
  intros (_ & _ & Hpos) Hon. destruct (Hpos child Hon) as (i & Hi & Hs).
  unfold flag_segment. cbn. rewrite Hi. cbn.
  apply elem_of_union. right. apply elem_of_list_to_set, list_elem_of_lookup.
  exists 0%nat. rewrite lookup_drop, Nat.add_0_r. exact Hs.
Qed.

Section CycleCompleteness.
Variable iter : gset Path -> list Path.
Variable graph : Graph.
Hypothesis iter_complete : forall (s : gset Path) x, x ∈ s -> In x (iter s).

Lemma visit_children_acyclic rec (children : list Path) (st st' : DfsState) :
  dfs_call_ok rec -> dfs_call_acyclic graph rec ->
  visit_children graph rec children st = Some st' ->
  dfs_wf st -> cycle_nodes st' = ∅ ->
  finished_acyclic graph st ->
  finished_acyclic graph st' /\
  forall c, In c children -> graph_mem graph c = true -> finished st' c.
Proof.
  intros Hok Hacyclic. revert st.
  induction children as [|child rest IH]; intros st Hrun Hwf Hnone Hinv;
    cbn [visit_children] in Hrun.
  - injection Hrun as <-. split; [exact Hinv|]. intros c [].
  - destruct (graph_mem graph child) eqn:Hmem; cbn [negb] in Hrun.
    + destruct (bool_decide_reflect (child ∈ visited st)) as [Hv|Hv]; cbn [negb] in Hrun.
      * destruct (bool_decide_reflect (child ∈ on_stack st)) as [Hon|Hon].
        -- exfalso.
           assert (Hwf' : dfs_wf (flag_segment child st))
             by (eapply dfs_extends_wf; [exact Hwf|apply dfs_flag_extends]).
           pose proof (visit_children_extends graph rec rest _ _ Hok Hrun Hwf')
             as (_ & _ & _ & _ & Hsub).
           pose proof (flag_segment_flags child st Hwf Hon) as Hflag.
           apply Hsub in Hflag. rewrite Hnone in Hflag.
           apply not_elem_of_empty in Hflag. exact Hflag.
        -- destruct (IH st Hrun Hwf Hnone Hinv) as [Hinv' Hrest].
           split; [exact Hinv'|]. intros c [<-|Hc] Hc'; [|apply Hrest; assumption].
           eapply finished_extends;
             [exact (visit_children_extends graph rec rest _ _ Hok Hrun Hwf)|].
           split; assumption.
      * destruct (rec child st) as [s1|] eqn:Hcall; [|discriminate].
        destruct (Hok _ _ _ Hcall Hv Hwf) as [Hext Hvisited].
        assert (Hwf1 : dfs_wf s1) by (eapply dfs_extends_wf; eassumption).
        pose proof (visit_children_extends graph rec rest _ _ Hok Hrun Hwf1) as Hext1.
        assert (Hnone1 : cycle_nodes s1 = ∅).
        { destruct Hext1 as (_ & _ & _ & _ & Hsub). apply elem_of_equiv_empty_L.
          intros x Hx. apply Hsub in Hx. rewrite Hnone in Hx.
          apply not_elem_of_empty in Hx. exact Hx. }
        pose proof (Hacyclic _ _ _ Hcall Hv Hwf Hnone1 Hinv) as Hinv1.
        destruct (IH s1 Hrun Hwf1 Hnone Hinv1) as [Hinv' Hrest].
        split; [exact Hinv'|]. intros c [<-|Hc] Hc'; [|apply Hrest; assumption].
        eapply finished_extends; [exact Hext1|].
        split; [exact Hvisited|].
        destruct Hext as (_ & Hon & _). rewrite Hon.
        destruct Hwf as (Hsub & _). intros Hc. apply Hv, Hsub, Hc.
    + destruct (IH st Hrun Hwf Hnone Hinv) as [Hinv' Hrest].
      split; [exact Hinv'|]. intros c [<-|Hc] Hc'; [congruence|apply Hrest; assumption].
Qed.

Lemma dfs_acyclic (fuel : nat) : dfs_call_acyclic graph (dfs iter graph fuel).
Proof.
  induction fuel as [|fuel IH]; intros node st st' Hrun Hv Hwf Hnone Hinv;
    cbn [dfs] in Hrun; [discriminate|].
  destruct (visit_children graph (dfs iter graph fuel) _ (dfs_enter node st))
    as [s1|] eqn:Hloop; [|discriminate].
  injection Hrun as <-. cbn in Hnone.
  pose proof (dfs_enter_wf node st Hwf) as Hwf0.
  pose proof (visit_children_extends graph _ _ _ _ (dfs_ok iter graph fuel) Hloop Hwf0)
    as Hext.
  assert (Hinv0 : finished_acyclic graph (dfs_enter node st)).
  { assert (Hsame : forall n, finished (dfs_enter node st) n <-> finished st n).
    { intros n. unfold finished, dfs_enter. cbn.
      destruct Hwf as (Hsub & _). set_solver. }
    intros n Hn. apply Hsame in Hn. destruct (Hinv n Hn) as [Hclosed Hno].
    split; [|exact Hno]. intros child Hedge. apply Hsame. apply Hclosed. exact Hedge. }
  destruct (visit_children_acyclic _ _ _ _ (dfs_ok iter graph fuel) IH Hloop Hwf0 Hnone
              Hinv0) as [Hinv1 Hchildren].
  destruct Hext as (Hstack & Hon & _ & Hvis & _).
  assert (Hnode_on : node ∈ on_stack s1) by (rewrite Hon; cbn; set_solver).
  assert (Hnode_visited : node ∈ visited s1) by (apply Hvis; cbn; set_solver).
  assert (Hleave : forall n, finished (dfs_leave node s1) n <-> finished s1 n \/ n = node).
  { intros n. unfold finished, dfs_leave. cbn. split.
    - intros [H1 H2]. destruct (decide (n = node)) as [->|Hne]; [right; reflexivity|].
      left. split; [exact H1|]. set_solver.
    - intros [[H1 H2]| ->]; [split; [exact H1|set_solver]|].
      split; [exact Hnode_visited|set_solver]. }
  assert (Hedges : forall child, graph_edge graph node child -> finished s1 child).
  { intros child [Hchild Hmem]. apply Hchildren; [|exact Hmem].
    apply iter_complete. exact Hchild. }
  intros n Hn. apply Hleave in Hn. destruct Hn as [Hn| ->].
  - destruct (Hinv1 n Hn) as [Hclosed Hno]. split; [|exact Hno].
    intros child Hedge. apply Hleave. left. apply Hclosed. exact Hedge.
  - split.
    + intros child Hedge. apply Hleave. left. apply Hedges. exact Hedge.
    + intros Hcycle. destruct (tc_first _ _ _ Hcycle) as (child & Hedge & Hback).
      pose proof (finished_closed_reach graph s1 child node Hinv1 Hback
                    (Hedges child Hedge)) as [_ Hoff].
      contradiction.
Qed.

Lemma visit_roots_acyclic (fuel : nat) (nodes : list Path) (st st' : DfsState) :
  visit_roots iter graph fuel nodes st = Some st' ->
  dfs_wf st -> cycle_nodes st' = ∅ ->
  finished_acyclic graph st -> finished_acyclic graph st'.
Proof.
  revert st.
  induction nodes as [|node rest IH]; intros st Hrun Hwf Hnone Hinv;
    cbn [visit_roots] in Hrun.
  - injection Hrun as <-. exact Hinv.
  - destruct (bool_decide_reflect (node ∈ visited st)) as [Hv|Hv];
      cbn [negb] in Hrun; [eauto|].
    destruct (dfs iter graph fuel node st) as [s1|] eqn:Hcall; [|discriminate].
    destruct (dfs_ok iter graph fuel _ _ _ Hcall Hv Hwf) as [Hext _].
    assert (Hwf1 : dfs_wf s1) by (eapply dfs_extends_wf; eassumption).
    apply (IH s1); try assumption.
    eapply dfs_acyclic; try eassumption.
    pose proof (visit_roots_extends iter graph _ _ _ _ Hrun Hwf1)
      as (_ & _ & _ & _ & Hsub).
    apply elem_of_equiv_empty_L. intros x Hx. apply Hsub in Hx. rewrite Hnone in Hx.
    apply not_elem_of_empty in Hx. exact Hx.
Qed.
End CycleCompleteness.

Lemma unflagged_graph_acyclic (iter : gset Path -> list Path) (graph : Graph) :
  (forall (s : gset Path) x, x ∈ s -> In x (iter s)) ->
  _detect_cycle_nodes iter graph = Some ∅ ->
  forall node, ~ on_cycle graph node.
Proof.
  intros Hiter Hrun node Hcycle. unfold _detect_cycle_nodes in Hrun.
  destruct (visit_roots iter graph _ _ dfs_init) as [st|] eqn:Hroots; [|discriminate].
  apply (inj Some) in Hrun.
  pose proof (visit_roots_extends iter graph _ _ _ _ Hroots dfs_init_wf)
    as (_ & Hon & _).
  assert (Hinv : finished_acyclic graph st).
  { eapply (visit_roots_acyclic iter graph Hiter _ _ _ _ Hroots);
      [apply dfs_init_wf|exact Hrun|].
    intros n [Hn _]. cbn in Hn. apply not_elem_of_empty in Hn. destruct Hn. }
  destruct (tc_target _ _ _ Hcycle) as (z & _ & Hmem).
  apply (proj2 (Hinv node ltac:(split;
    [eapply (visit_roots_visited iter graph _ _ _ _ Hroots dfs_init_wf);
     apply graph_mem_keys in Hmem; unfold graph_keys in Hmem;
     apply elem_of_list_to_set, list_elem_of_In in Hmem; exact Hmem
    |rewrite Hon; cbn; apply not_elem_of_empty]))).
  exact Hcycle.
Qed.

(** X15: the detector flags no header exactly when the graph has no cycle,
    whatever the order in which the sets are iterated, as long as the
    iteration yields each element of a set and nothing else. *)
Theorem detect_cycle_nodes_empty_iff_acyclic (iter : gset Path -> list Path)
    (graph : Graph) (flagged : gset Path) :
  (forall (s : gset Path) x, In x (iter s) <-> x ∈ s) ->
  _detect_cycle_nodes iter graph = Some flagged ->
  (flagged = ∅ <-> forall node, ~ on_cycle graph node).
Proof.
  intros Hiter Hrun. split.
  - intros ->. apply (unflagged_graph_acyclic iter graph); [|exact Hrun].
    intros s x. apply Hiter.
  - intros Hacyclic. apply elem_of_equiv_empty_L. intros node Hnode.
    apply (Hacyclic node).
    eapply (flagged_nodes_on_cycles iter graph flagged node); try eassumption.
    intros s x. apply Hiter.
Qed.

Lemma detect_cycle_nodes_empty_iff_acyclic_witness :
  ({[GraphFixture.a_hpp; GraphFixture.c_hpp]} : gset Path) = ∅ <->
  forall node, ~ on_cycle GraphFixture.triangle node.
Proof.
  apply (detect_cycle_nodes_empty_iff_acyclic GraphFixture.forwards).
  - apply forwards_enumerates.
  - vm_compute. reflexivity.
Defined.

(** ** The cycle figures of the report *)

Lemma assemble_report_cycles (host : Host) (iter : gset Path -> list Path)
    (cc project_root : Path) (tus : list TranslationUnit.t) (top : Z) (st : Scan.t)
    (report : PlannerReport.t) :
  assemble_report host iter cc project_root tus top st = Ok report ->
  exists flagged,
    _detect_cycle_nodes iter (Scan.header_graph st) = Some flagged /\
    PlannerReport.cycle_header_count report = Z.of_nat (size flagged) /\
    PlannerReport.scanned_headers report = Z.of_nat (size (Scan.scanned_headers st)) /\
    PlannerReport.readiness_checks report =
    _build_readiness_checks tus (Scan.macro_counts st) flagged
      (Z.of_nat (length (Scan.unresolved_includes st))).
Proof.
  unfold assemble_report.
  destruct (_detect_cycle_nodes iter (Scan.header_graph st)) as [flagged|] eqn:Hflag;
    [|discriminate].
  destruct (build_candidates host project_root st flagged _) as [candidates| |] eqn:Hb;
    cbn [mbind outcome_bind]; [|discriminate|discriminate].
  intros H. injection H as <-. exists flagged.
  split; [reflexivity|]. cbn. split_and!; reflexivity.
Qed.

Lemma cycle_check_passes (tus : list TranslationUnit.t) (macro_counts : list (Path * Z))
    (flagged : gset Path) (unresolved_count : Z) :
  In (Check.mk "Include cycle cleanup" "pass" "No include cycles detected")
    (_build_readiness_checks tus macro_counts flagged unresolved_count) <->
  flagged = ∅.
Proof.
  unfold _build_readiness_checks, Py.append. cbv zeta. cbn [app In].
  destruct (bool_decide_reflect (flagged = ∅)) as [Hempty|Hne].
  - split; [intros _; exact Hempty|]. intros _. right. left. reflexivity.
  - split; [|contradiction].
    intros [H|[H|[H|[H|[]]]]]; exfalso; discriminate H.
Qed.

(** X16: the cycle figures of a report agree with the header graph of the
    scan: the count of cycle headers is zero, and the readiness check on
    include cycles passes, exactly when the header graph has no cycle; and
    the count never exceeds the number of scanned headers. *)
Theorem report_cycle_figures (fuel : nat) (host : Host) (rt : Runtime)
    (iter : gset Path -> list Path) (path : string) (top : Z)
    (report : PlannerReport.t) :
  (forall (s : gset Path) x, In x (iter s) <-> x ∈ s) ->
  analyze_compile_commands fuel host rt iter path top = Ok report ->
  exists tus st,
    scan_project fuel host rt (resolve host (expanduser rt (mk_path host path))) =
    Ok (tus, st) /\
    (PlannerReport.cycle_header_count report = 0 <->
     forall node, ~ on_cycle (Scan.header_graph st) node) /\
    (In (Check.mk "Include cycle cleanup" "pass" "No include cycles detected")
       (PlannerReport.readiness_checks report) <->
     forall node, ~ on_cycle (Scan.header_graph st) node) /\
    0 <= PlannerReport.cycle_header_count report <= PlannerReport.scanned_headers report.
Proof.
  intros Hiter Hrun.
  destruct (analyze_compile_commands_ok _ _ _ _ _ _ _ Hrun) as (tus & st & Hscan & Hrep).
  exists tus, st. split; [exact Hscan|].
  destruct (scan_project_invariant _ _ _ _ _ _ Hscan) as [Hinv _].
  destruct (assemble_report_cycles _ _ _ _ _ _ _ _ Hrep)
    as (flagged & Hflag & -> & -> & ->).
  assert (Hacyclic : flagged = ∅ <-> forall node, ~ on_cycle (Scan.header_graph st) node).
  { split.
    - intros ->. apply (unflagged_graph_acyclic iter); [|exact Hflag].
      intros s x. apply Hiter.
    - intros Hnone. apply elem_of_equiv_empty_L. intros node Hnode.
      apply (Hnone node).
      eapply (flagged_nodes_on_cycles iter _ flagged node); try eassumption.
      intros s x. apply Hiter. }
  split; [|split].
  - rewrite <- Hacyclic. split.
    + intros Hsize. apply leibniz_equiv, size_empty_inv. lia.
    + intros ->. rewrite size_empty. reflexivity.
  - rewrite cycle_check_passes. exact Hacyclic.
  - split; [lia|]. apply inj_le. apply subseteq_size.
    intros node Hnode.
    destruct (flagged_nodes_on_cycles iter (Scan.header_graph st) flagged node)
      as [_ Hmem];
      [intros s x; apply Hiter|exact Hflag|exact Hnode|].
    apply (graph_keys_scanned _ _ _ Hinv).
    apply graph_mem_keys in Hmem. unfold graph_keys in Hmem.
    apply elem_of_list_to_set, list_elem_of_In in Hmem. exact Hmem.
Qed.

Lemma report_cycle_figures_witness :
  exists report,
    analyze_compile_commands 20 Fixture.host Fixture.runtime GraphFixture.forwards
      "/proj/compile_commands.json" 10 = Ok report /\
    0 <= PlannerReport.cycle_header_count report <= PlannerReport.scanned_headers report.
Proof.
  pose (r := analyze_compile_commands 20 Fixture.host Fixture.runtime
               GraphFixture.forwards "/proj/compile_commands.json" 10).
  assert (Hrun : analyze_compile_commands 20 Fixture.host Fixture.runtime
                   GraphFixture.forwards "/proj/compile_commands.json" 10 = r)
    by reflexivity.
  assert (Hcheck : match r with Ok _ => true | _ => false end = true)
    by (vm_compute; reflexivity).
  clearbody r.
  destruct r as [report| |]; [|discriminate Hcheck|discriminate Hcheck].
  exists report. split; [exact Hrun|].
  destruct (report_cycle_figures 20 Fixture.host Fixture.runtime GraphFixture.forwards
              "/proj/compile_commands.json" 10 report forwards_enumerates Hrun)
    as (tus & st & _ & _ & _ & Hle).
  exact Hle.
Defined.

(** ** The scanning loop ends *)

Lemma drain_queue_empties (fuel : nat) (host : Host) (project_root : Path)
    (dirs : list Path) (st st' : Scan.t) :
  drain_queue fuel host project_root dirs st = Some st' -> Scan.header_queue st' = [].
Proof.
  revert st. induction fuel as [|fuel IH]; intros st Hrun; cbn [drain_queue] in Hrun;
    destruct (Scan.header_queue st) as [|header rest] eqn:Hq; try discriminate.
  - injection Hrun as <-. exact Hq.
  - injection Hrun as <-. exact Hq.
  - eapply IH. exact Hrun.
Qed.

(** X17: on a host where finitely many paths exist, the loop over the
    header queue ends from every state, also when headers include each
    other: a header is scanned at most once. The number of turns is at most
    the length of the queue plus, for each existing path not yet scanned,
    one more than the number of its include directives; the loop ends with
    an empty queue, and further turns are not taken. *)
Theorem scan_loop_terminates (host : Host) (project_root : Path) (dirs : list Path)
    (universe : list Path) (st : Scan.t) :
  (forall p, path_exists host p = true -> In p universe) ->
  exists st',
    Scan.header_queue st' = [] /\
    forall fuel, (scan_weight host universe st <= fuel)%nat ->
                 drain_queue fuel host project_root dirs st = Some st'.
Proof.
  intros Huniverse.
  destruct (drain_queue_total host project_root dirs universe Huniverse
              (scan_weight host universe st) st (Nat.le_refl _)) as [st' Hdrain].
  exists st'. split; [eapply drain_queue_empties; exact Hdrain|].
  intros fuel Hle. eapply drain_queue_more_fuel; eassumption.
Qed.

Lemma scan_loop_terminates_witness :
  exists st',
    Scan.header_queue st' = [] /\
    forall fuel,
      (scan_weight Fixture.host (map fst Fixture.files ++ Fixture.directories)
         (Scan.enqueue "/proj/include/core/cycle_a.hpp" Scan.init) <= fuel)%nat ->
      drain_queue fuel Fixture.host "/proj" ["/proj/include"]
        (Scan.enqueue "/proj/include/core/cycle_a.hpp" Scan.init) = Some st'.
Proof.
  apply (scan_loop_terminates Fixture.host "/proj" ["/proj/include"]
           (map fst Fixture.files ++ Fixture.directories)).
  apply fixture_paths_finite.
Defined.

(** ** Entries of the wrong type *)

Lemma translation_unit_of_untyped (host : Host) (rt : Runtime) (cc : Path)
    (fields : list (string * JSON)) :
  well_typed_entry (JDict fields) = false ->
  translation_unit_of host rt cc fields =
  Raise (TypeError "expected str, bytes or os.PathLike object").
Proof.
  unfold well_typed_entry, translation_unit_of, path_of_value.
  destruct (PyValue.get "file" fields) as [|b|n|z|s|l|d];
    destruct (PyValue.get "directory" fields) as [|b'|n'|z'|s'|l'|d'];
    cbn [PyValue.truthy is_str andb negb];
    intros Htyped;
    repeat (cbn in *;
            match goal with
            | H : context [if ?c then _ else _] |- _ => destruct c eqn:?
            | |- context [if ?c then _ else _] => destruct c eqn:?
            end);
    cbn in *; try discriminate; try reflexivity;
    repeat match goal with
           | l : list _ |- _ => destruct l; cbn in *; try discriminate; try reflexivity
           end.
Qed.

Lemma collect_translation_units_untyped (host : Host) (rt : Runtime) (cc : Path)
    (items : list JSON) :
  forallb well_typed_entry items = false ->
  _collect_translation_units host rt (omap PyValue.dict_fields items) cc =
  Raise (TypeError "expected str, bytes or os.PathLike object").
Proof.
  induction items as [|item items IH]; [discriminate|].
  cbn [forallb]. intros Htyped. apply andb_false_iff in Htyped.
  destruct (well_typed_entry item) eqn:Hitem.
  - destruct Htyped as [Htyped|Htyped]; [discriminate|]. specialize (IH Htyped).
    destruct item as [| | | | |l|fields]; try exact IH.
    cbn [omap list_omap PyValue.dict_fields _collect_translation_units].
    destruct (translation_unit_of_typed host rt cc fields Hitem) as (tu & -> & _).
    cbn [mbind outcome_bind]. rewrite IH. reflexivity.
  - destruct item as [| | | | |l|fields]; try discriminate Hitem.
    cbn [omap list_omap PyValue.dict_fields _collect_translation_units].
    rewrite (translation_unit_of_untyped host rt cc fields Hitem). reflexivity.
Qed.



(** ** The figures of the report *)

Lemma assemble_report_fields (host : Host) (iter : gset Path -> list Path)
    (cc project_root : Path) (tus : list TranslationUnit.t) (top : Z) (st : Scan.t)
    (report : PlannerReport.t) :
  assemble_report host iter cc project_root tus top st = Ok report ->
  exists flagged candidates,
    _detect_cycle_nodes iter (Scan.header_graph st) = Some flagged /\
    build_candidates host project_root st flagged
      (sorted_paths iter (all_project_headers host project_root st)) = Ok candidates /\
    let checks :=
      _build_readiness_checks tus (Scan.macro_counts st) flagged
        (Z.of_nat (length (Scan.unresolved_includes st))) in
    report =
    PlannerReport.mk cc project_root (Z.of_nat (length tus))
      (Z.of_nat (size (Scan.scanned_headers st))) (Z.of_nat (size flagged))
      (top_candidates top candidates)
      (_build_phases (top_candidates top candidates) (Scan.include_tokens st) checks)
      checks (Py.slice_to 50 (Scan.unresolved_includes st)).
Proof.
  unfold assemble_report.
  destruct (_detect_cycle_nodes iter (Scan.header_graph st)) as [flagged|] eqn:Hflag;
    [|discriminate].
  destruct (build_candidates host project_root st flagged _) as [candidates| |] eqn:Hb;
    cbn [mbind outcome_bind]; [|discriminate|discriminate].
  intros H. injection H as <-. exists flagged, candidates.
  split; [reflexivity|]. split; [exact Hb|]. reflexivity.
Qed.

Lemma build_candidates_length (host : Host) (project_root : Path) (st : Scan.t)
    (cycle_nodes : gset Path) (headers : list Path) (candidates : list Candidate.t) :
  build_candidates host project_root st cycle_nodes headers = Ok candidates ->
  length candidates = length headers.
Proof.
  revert candidates.
  induction headers as [|header headers IH]; intros candidates Hrun;
    cbn [build_candidates] in Hrun.
  - injection Hrun as <-. reflexivity.
  - destruct (build_candidate host project_root st cycle_nodes header) as [c0| |];
      cbn [mbind outcome_bind] in Hrun; [|discriminate Hrun|discriminate Hrun].
    destruct (build_candidates host project_root st cycle_nodes headers) as [cs| |];
      cbn [mbind outcome_bind] in Hrun; [|discriminate Hrun|discriminate Hrun].
    injection Hrun as <-. cbn [length]. rewrite (IH cs eq_refl). reflexivity.
Qed.

Lemma slice_to_length {A : Type} (top : Z) (l : list A) :
  Z.of_nat (length (Py.slice_to top l)) =
  if 0 <=? top then Z.min top (Z.of_nat (length l))
  else Z.max 0 (Z.of_nat (length l) + top).
Proof.
  unfold Py.slice_to. destruct (Z.leb_spec 0 top); rewrite length_take; lia.
Qed.



Lemma translation_unit_of_skips (host : Host) (rt : Runtime) (cc : Path)
    (fields : list (string * JSON)) (tu : option TranslationUnit.t) :
  translation_unit_of host rt cc fields = Ok tu ->
  (tu = None <-> has_file_value (JDict fields) = false).
Proof.
  unfold translation_unit_of, has_file_value. cbv zeta.
  destruct (PyValue.truthy (PyValue.get "file" fields)); cbn [negb].
  - destruct (if PyValue.truthy (PyValue.get "directory" fields) then _ else _)
      as [directory| |]; cbn [mbind outcome_bind]; [|discriminate|discriminate].
    destruct (path_of_value host (PyValue.get "file" fields)) as [file_path| |];
      cbn [mbind outcome_bind]; [|discriminate|discriminate].
    intros H. injection H as <-. split; discriminate.
  - intros H. injection H as <-. split; reflexivity.
Qed.

Lemma collect_translation_units_length (host : Host) (rt : Runtime) (cc : Path)
    (items : list JSON) (tus : list TranslationUnit.t) :
  _collect_translation_units host rt (omap PyValue.dict_fields items) cc = Ok tus ->
  length tus = length (List.filter has_file_value items).
Proof.
  revert tus. induction items as [|item items IH]; intros tus Hrun.
  - injection Hrun as <-. reflexivity.
  - destruct item as [| | | | |l|fields]; try (exact (IH tus Hrun)).
    cbn [omap list_omap PyValue.dict_fields _collect_translation_units] in Hrun.
    destruct (translation_unit_of host rt cc fields) as [tu| |] eqn:Htu;
      cbn [mbind outcome_bind] in Hrun; [|discriminate Hrun|discriminate Hrun].
    destruct (_collect_translation_units host rt (omap PyValue.dict_fields items) cc)
      as [rest| |]; cbn [mbind outcome_bind] in Hrun;
      [|discriminate Hrun|discriminate Hrun].
    injection Hrun as <-. specialize (IH rest eq_refl).
    pose proof (translation_unit_of_skips host rt cc fields tu Htu) as Hskip.
    cbn [List.filter]. destruct (has_file_value (JDict fields)).
    + destruct tu as [tu|]; [cbn [length]; rewrite IH; reflexivity|].
      destruct Hskip as [Hskip _]. discriminate (Hskip eq_refl).
    + destruct Hskip as [_ Hskip]. rewrite (Hskip eq_refl). exact IH.
Qed.

(** X20: the number of translation units in a report is the number of
    entries of the database that are objects with a [file] value; it is at
    least one, and an entry whose file has been met before counts again. *)
Theorem report_counts_entries (fuel : nat) (host : Host) (rt : Runtime)
    (iter : gset Path -> list Path) (path : string) (top : Z)
    (report : PlannerReport.t) (items : list JSON) :
  load_json rt (resolve host (expanduser rt (mk_path host path))) =
    LoadPayload (JList items) ->
  analyze_compile_commands fuel host rt iter path top = Ok report ->
  PlannerReport.translation_units report =
    Z.of_nat (length (List.filter has_file_value items)) /\
  1 <= PlannerReport.translation_units report.
Proof.
  intros Hload Hrun.
  destruct (analyze_compile_commands_ok _ _ _ _ _ _ _ Hrun) as (tus & st & Hscan & Hrep).
  destruct (assemble_report_fields _ _ _ _ _ _ _ _ Hrep)
    as (flagged & candidates & _ & _ & ->).
  cbn [PlannerReport.translation_units].
  unfold scan_project, _load_compile_commands in Hscan.
  destruct (path_exists host _); cbn [negb] in Hscan; [|discriminate Hscan].
  rewrite Hload in Hscan. cbn [mbind outcome_bind] in Hscan.
  destruct (_collect_translation_units host rt (omap PyValue.dict_fields items) _)
    as [tus'| |] eqn:Hcollect; cbn [mbind outcome_bind] in Hscan;
    [|discriminate Hscan|discriminate Hscan].
  destruct tus' as [|tu tus']; [discriminate Hscan|].
  destruct (drain_queue fuel host _ _ _) as [st'|]; [|discriminate Hscan].
  injection Hscan as <- <-.
  rewrite (collect_translation_units_length _ _ _ _ _ Hcollect). split; [reflexivity|].
  rewrite <- (collect_translation_units_length _ _ _ _ _ Hcollect). cbn [length]. lia.
Qed.

Lemma report_counts_entries_witness :
  exists report,
    analyze_compile_commands 20 Fixture.host Fixture.runtime GraphFixture.forwards
      "/proj/compile_commands.json" 10 = Ok report /\
    PlannerReport.translation_units report = 2.
Proof.
  pose (r := analyze_compile_commands 20 Fixture.host Fixture.runtime
               GraphFixture.forwards "/proj/compile_commands.json" 10).
  assert (Hrun : analyze_compile_commands 20 Fixture.host Fixture.runtime
                   GraphFixture.forwards "/proj/compile_commands.json" 10 = r)
    by reflexivity.
  assert (Hcheck : match r with Ok _ => true | _ => false end = true)
    by (vm_compute; reflexivity).
  clearbody r.
  destruct r as [report| |]; [|discriminate Hcheck|discriminate Hcheck].
  exists report. split; [exact Hrun|].
  destruct (report_counts_entries 20 Fixture.host Fixture.runtime GraphFixture.forwards
              "/proj/compile_commands.json" 10 report
              [JDict [("directory", JStr "/proj");
                      ("file", JStr "src/main.cpp");
                      ("arguments", JList [JStr "c++"; JStr "-Iinclude"; JStr "-std=c++20";
                                           JStr "-c"; JStr "src/main.cpp"])];
               JStr "not an entry";
               JDict [("directory", JStr "/proj"); ("command", JStr "c++ -c nothing")];
               JDict [("directory", JStr "/proj");
                      ("file", JStr "/proj/src/app.cpp");
                      ("command", JStr "c++ -I include -c src/app.cpp")]]
              eq_refl Hrun) as [Hcount _].
  exact Hcount.
Defined.

(** ** The plan *)

(** X21: the plan always has the same shape: four readiness checks, in a
    fixed order, each with the status pass or warn; the third phase carries
    these very checks; the first phase has between one and six actions and
    the second between one and five, whatever the candidates are. *)
Theorem plan_shape (tus : list TranslationUnit.t) (macro_counts : list (Path * Z))
    (cycle_nodes : gset Path) (unresolved_count : Z) (candidates : list Candidate.t)
    (include_tokens : list (string * Z)) :
  let checks := _build_readiness_checks tus macro_counts cycle_nodes unresolved_count in
  let phases := _build_phases candidates include_tokens checks in
  map Check.title checks =
    ["C++20 compiler mode coverage"; "Include cycle cleanup";
     "Macro-heavy header reduction"; "Include resolution quality"] /\
  Forall (fun c => Check.status c = "pass" \/ Check.status c = "warn") checks /\
  Phases.p3_checks phases = checks /\
  (1 <= length (Phases.p1_actions phases) <= 6)%nat /\
  (1 <= length (Phases.p2_actions phases) <= 5)%nat.
Proof.
  cbv zeta. split; [reflexivity|]. split; [|split; [reflexivity|]].
  - unfold _build_readiness_checks, Py.append. cbv zeta. cbn [app].
    constructor; [|constructor; [|constructor; [|constructor; [|constructor]]]];
      cbn [Check.status].
    + destruct (List.filter _ tus); auto.
    + destruct (bool_decide (cycle_nodes = ∅)); auto.
    + destruct (map fst (List.filter _ macro_counts)); auto.
    + destruct (unresolved_count =? 0); auto.
  - unfold _build_phases. cbv zeta. cbn [Phases.p1_actions Phases.p2_actions].
    split.
    + set (project := take 5 (List.filter _ candidates)).
      assert (Hproject : (length project <= 5)%nat)
        by (unfold project; rewrite length_take; lia).
      clearbody project.
      set (convert := map _ project).
      assert (Hconvert : length convert = length project)
        by (unfold convert; apply length_map).
      clearbody convert.
      destruct (take 5 (List.filter _ (most_common include_tokens))) as [|system rest].
      * destruct convert; cbn [length] in *; lia.
      * unfold Py.append. destruct (convert ++ _) eqn:Happ.
        -- apply app_eq_nil in Happ. destruct Happ as [_ Happ]. discriminate Happ.
        -- rewrite <- Happ, length_app. cbn [length]. lia.
    + set (pilots := take 5 (List.filter _ candidates)).
      assert (Hpilots : (length pilots <= 5)%nat)
        by (unfold pilots; rewrite length_take; lia).
      clearbody pilots.
      destruct pilots as [|pilot rest]; [cbn; lia|].
      rewrite length_map. cbn [length] in *. lia.
Qed.

(** ** The text report *)

Lemma format_candidates_length (idx : Z) (candidates : list Candidate.t) :
  length (format_candidates idx candidates) =
  list_sum (map (fun c => (3 + Nat.min 3 (length (Candidate.rationale c)))%nat)
              candidates).
Proof.
  revert idx. induction candidates as [|c rest IH]; intros idx; [reflexivity|].
  cbn [format_candidates map]. rewrite length_app, IH.
  unfold format_candidate. rewrite length_app, length_map, length_take. reflexivity.
Qed.

(** X23: the text report lists at most three reasons for each candidate and
    at most ten unresolved includes, under a heading that gives the number
    of unresolved includes kept in the report, which may be as large as 50.
    The number of its lines follows from the report: six lines of header,
    the lines of the candidates or one line when there is none, the plan,
    and the unresolved includes when there are some. *)
Theorem format_report_lines (report : PlannerReport.t) :
  let unresolved := PlannerReport.unresolved_includes report in
  let phases := PlannerReport.phases report in
  (unresolved <> [] ->
   exists body,
     format_lines report =
     body ++
     ("Unresolved includes (showing first " +:+ pretty (Z.of_nat (length unresolved))
        +:+ "):") ::
     map format_unresolved (take 10 unresolved)) /\
  length (format_lines report) =
  (6 +
   match PlannerReport.candidates report with
   | [] => 1
   | candidates =>
       list_sum (map (fun c => 3 + Nat.min 3 (length (Candidate.rationale c)))
                   candidates)
   end +
   (5 + length (Phases.p1_actions phases) + length (Phases.p2_actions phases) +
    length (Phases.p3_checks phases)) +
   match unresolved with
   | [] => 0
   | _ => 2 + Nat.min 10 (length unresolved)
   end)%nat.
Proof.
  cbv zeta. split.
  - intros Hne.
    enough (Hsplit : exists before,
               format_lines report =
               before ++
               [EmptyString;
                "Unresolved includes (showing first " +:+
                pretty (Z.of_nat (length (PlannerReport.unresolved_includes report)))
                +:+ "):"] ++
               map format_unresolved (take 10 (PlannerReport.unresolved_includes report))).
    { destruct Hsplit as [before Hsplit]. exists (before ++ [EmptyString]).
      rewrite Hsplit, <- app_assoc. reflexivity. }
    unfold format_lines.
    destruct (PlannerReport.unresolved_includes report) as [|u rest]; [congruence|].
    eexists. rewrite !app_assoc. reflexivity.
  - unfold format_lines. rewrite !length_app, !length_map.
    assert (Hcands :
              length (match PlannerReport.candidates report with
                      | [] => ["- No project headers were discovered from the input metadata."]
                      | c :: l => format_candidates 1 (c :: l)
                      end) =
              match PlannerReport.candidates report with
              | [] => 1%nat
              | c :: l =>
                  list_sum (map (fun c => (3 + Nat.min 3 (length (Candidate.rationale c)))%nat)
                              (c :: l))
              end).
    { destruct (PlannerReport.candidates report); [reflexivity|].
      apply format_candidates_length. }
    rewrite Hcands.
    destruct (PlannerReport.unresolved_includes report) as [|u rest].
    + cbn [length]. lia.
    + rewrite length_app, length_map, length_take. cbn [length]. lia.
Qed.

Lemma format_report_lines_witness :
  (exists body,
     format_lines sparse_report =
     body ++ "Unresolved includes (showing first 12):" ::
     replicate 10 ("- src/main.cpp: " +:+ _token QUOTED "missing.hpp")) /\
  length (format_lines sparse_report) = 30%nat.
Proof.
  destruct (format_report_lines sparse_report) as [Hsection Hlength].
  split; [apply Hsection; discriminate|exact Hlength].
Defined.

(** ** Header suffixes *)

Lemma lower_ascii_idem (c : ascii) : Py.lower_ascii (Py.lower_ascii c) = Py.lower_ascii c.
Proof. destruct c as [[] [] [] [] [] [] [] []]; vm_compute; reflexivity. Qed.

(** Lower-casing neither makes nor removes a dot or a slash. *)
Lemma lower_ascii_dot (c : ascii) :
  Ascii.eqb (Py.lower_ascii c) "."%char = Ascii.eqb c "."%char.
Proof. destruct c as [[] [] [] [] [] [] [] []]; vm_compute; reflexivity. Qed.

Lemma lower_ascii_slash (c : ascii) :
  Ascii.eqb (Py.lower_ascii c) "/"%char = Ascii.eqb c "/"%char.
Proof. destruct c as [[] [] [] [] [] [] [] []]; vm_compute; reflexivity. Qed.

Lemma lower_idem (s : string) : Py.lower (Py.lower s) = Py.lower s.
Proof.
  induction s as [|c s IH]; [reflexivity|]. cbn [Py.lower].
  rewrite lower_ascii_idem, IH. reflexivity.
Qed.

Lemma lower_length (s : string) : String.length (Py.lower s) = String.length s.
Proof. induction s as [|c s IH]; [reflexivity|]. cbn. rewrite IH. reflexivity. Qed.

Lemma str_drop_lower (i : nat) (s : string) :
  Py.str_drop i (Py.lower s) = Py.lower (Py.str_drop i s).
Proof.
  revert s. induction i as [|i IH]; intros s; [reflexivity|].
  destruct s as [|c s]; [reflexivity|]. cbn [Py.lower Py.str_drop]. apply IH.
Qed.

Lemma rfind_dot_lower (s : string) : Py.rfind "."%char (Py.lower s) = Py.rfind "."%char s.
Proof.
  induction s as [|c s IH]; [reflexivity|]. cbn [Py.lower Py.rfind].
  rewrite IH, lower_ascii_dot. reflexivity.
Qed.

Lemma after_last_slash_lower (s : string) :
  PurePath.after_last "/"%char (Py.lower s) =
  option_map Py.lower (PurePath.after_last "/"%char s).
Proof.
  induction s as [|c s IH]; [reflexivity|]. cbn [Py.lower PurePath.after_last].
  rewrite IH, lower_ascii_slash.
  destruct (PurePath.after_last "/"%char s); [reflexivity|].
  destruct (Ascii.eqb c "/"%char); reflexivity.
Qed.

Lemma lower_is_dot (p : string) : String.eqb (Py.lower p) "." = String.eqb p ".".
Proof.
  destruct p as [|c p]; [reflexivity|]. cbn [Py.lower String.eqb].
  rewrite lower_ascii_dot. destruct (Ascii.eqb c "."%char); [|reflexivity].
  destruct p; reflexivity.
Qed.

Lemma name_lower (p : Path) : PurePath.name (Py.lower p) = Py.lower (PurePath.name p).
Proof.
  unfold PurePath.name. rewrite lower_is_dot, after_last_slash_lower.
  destruct (String.eqb p "."); [reflexivity|].
  destruct (PurePath.after_last "/"%char p); reflexivity.
Qed.

Lemma suffix_lower (p : Path) : PurePath.suffix (Py.lower p) = Py.lower (PurePath.suffix p).
Proof.
  unfold PurePath.suffix. cbv zeta. rewrite name_lower, rfind_dot_lower, lower_length.
  destruct (Py.rfind "."%char (PurePath.name p)) as [i|]; [|reflexivity].
  destruct ((0 <? i)%nat && (i <? String.length (PurePath.name p) - 1)%nat);
    [apply str_drop_lower|reflexivity].
Qed.

(** X24: whether a path counts as a header does not depend on the case of
    its letters: the path and its lower-case spelling are both headers or
    both not, and so are two paths whose suffixes differ in case only. *)
Theorem is_header_ignores_case (p q : Path) :
  _is_header (Py.lower p) = _is_header p /\
  (Py.lower (PurePath.suffix p) = Py.lower (PurePath.suffix q) ->
   _is_header p = _is_header q).
Proof.
  unfold _is_header. split.
  - rewrite suffix_lower, lower_idem. reflexivity.
  - intros ->. reflexivity.
Qed.

Lemma is_header_ignores_case_witness :
  _is_header "include/CONFIG.HPP" = _is_header "include/config.hpp".
Proof.
  apply (is_header_ignores_case "include/CONFIG.HPP" "include/config.hpp").
  reflexivity.
Defined.

(** ** What the include frequency counts *)

Lemma total_app {A : Type} (f : A -> Z) (l1 l2 : list A) :
  total f (l1 ++ l2) = total f l1 + total f l2.
Proof.
  unfold total. induction l1 as [|x l1 IH]; cbn [app map fold_right]; [lia|].
  rewrite IH. lia.
Qed.

Lemma counter_incr_get (key k : string) (counter : list (string * Z)) :
  default 0 (PyDict.get k (PyDict.incr key counter)) =
  default 0 (PyDict.get k counter) + (if String.eqb key k then 1 else 0).
Proof.
  unfold PyDict.incr. destruct (String.eqb_spec key k) as [->|Hne].
  - rewrite dict_update_get. reflexivity.
  - rewrite dict_update_get_other by congruence. lia.
Qed.

Ltac scan_fields :=
  cbn [Scan.include_frequency Scan.header_graph Scan.count_token Scan.count_include
       Scan.enqueue Scan.add_edge Scan.record_unresolved Scan.mark_scanned
       Scan.set_queue Scan.init].

Section FrequencyCounts.
Variable host : Host.
Variable project_root : Path.
Variable h : Path.

Let hit (file : Path) (dirs : list Path) (inc : string * string) : bool :=
  match _resolve_include host (snd inc) (fst inc) file dirs with
  | Some resolved => _is_header resolved && String.eqb resolved h
  | None => false
  end.

Lemma scan_tu_include_frequency (tu : TranslationUnit.t) (st : Scan.t)
    (inc : string * string) :
  frequency_of (scan_tu_include host project_root tu st inc) h =
    frequency_of st h +
    (if hit (TranslationUnit.path tu) (TranslationUnit.include_dirs tu) inc then 1 else 0) /\
  Scan.header_graph (scan_tu_include host project_root tu st inc) = Scan.header_graph st.
Proof.
  unfold scan_tu_include, hit, frequency_of. destruct inc as [kind include_name].
  cbn [fst snd].
  destruct (_resolve_include host include_name kind _ _) as [resolved|].
  - destruct (_is_header resolved); cbn [andb];
      [|scan_fields; split; [lia|reflexivity]].
    destruct (_is_project_path host resolved project_root); scan_fields;
      rewrite counter_incr_get; split; reflexivity.
  - destruct (String.eqb kind QUOTED); scan_fields; split; (lia || reflexivity).
Qed.

Lemma scan_tu_includes_frequency (tu : TranslationUnit.t)
    (includes : list (string * string)) (st : Scan.t) :
  frequency_of (fold_left (scan_tu_include host project_root tu) includes st) h =
    frequency_of st h +
    Z.of_nat (length (List.filter (hit (TranslationUnit.path tu)
                                     (TranslationUnit.include_dirs tu)) includes)) /\
  Scan.header_graph (fold_left (scan_tu_include host project_root tu) includes st) =
    Scan.header_graph st.
Proof.
  revert st. induction includes as [|inc includes IH]; intros st;
    cbn [fold_left List.filter]; [split; [cbn [length]; lia|reflexivity]|].
  destruct (IH (scan_tu_include host project_root tu st inc)) as [Hf Hg].
  destruct (scan_tu_include_frequency tu st inc) as [Hf1 Hg1].
  rewrite Hf, Hf1, Hg, Hg1. split; [|reflexivity].
  destruct (hit _ _ inc); cbn [length]; lia.
Qed.

Lemma scan_translation_units_frequency (tus : list TranslationUnit.t) (st : Scan.t) :
  frequency_of (scan_translation_units host project_root tus st) h =
    frequency_of st h +
    total (fun tu => includes_resolving_to host (TranslationUnit.path tu)
                       (TranslationUnit.include_dirs tu) h) tus /\
  Scan.header_graph (scan_translation_units host project_root tus st) =
    Scan.header_graph st.
Proof.
  unfold scan_translation_units. revert st.
  induction tus as [|tu tus IH]; intros st; cbn [fold_left];
    [split; [unfold total; cbn [map fold_right]; lia|reflexivity]|].
  destruct (IH (fold_left (scan_tu_include host project_root tu)
                  (_parse_includes host (TranslationUnit.path tu)) st)) as [Hf Hg].
  destruct (scan_tu_includes_frequency tu (_parse_includes host (TranslationUnit.path tu))
              st) as [Hf1 Hg1].
  rewrite Hf, Hf1, Hg, Hg1. split; [|reflexivity].
  unfold total. cbn [map fold_right]. unfold includes_resolving_to at 2. fold hit.
  unfold hit. lia.
Qed.

Variable dirs : list Path.

Lemma scan_header_include_frequency (header : Path) (st : Scan.t)
    (inc : string * string) :
  In header (map fst (Scan.header_graph st)) ->
  frequency_of (scan_header_include host project_root dirs header st inc) h =
    frequency_of st h + (if hit header dirs inc then 1 else 0) /\
  map fst (Scan.header_graph (scan_header_include host project_root dirs header st inc)) =
    map fst (Scan.header_graph st).
Proof.
  intros Hkey. unfold scan_header_include, hit, frequency_of.
  destruct inc as [kind include_name]. cbn [fst snd].
  destruct (_resolve_include host include_name kind _ _) as [resolved|].
  - destruct (_is_header resolved); cbn [andb negb];
      [|scan_fields; split; [lia|reflexivity]].
    destruct (_is_project_path host resolved project_root); scan_fields;
      rewrite counter_incr_get; (split; [reflexivity|]); [|reflexivity].
    apply (proj1 (dict_update_keys header _ (Scan.header_graph st)) Hkey).
  - destruct (String.eqb kind QUOTED); scan_fields; split; (lia || reflexivity).
Qed.

Lemma scan_header_includes_frequency (header : Path) (includes : list (string * string))
    (st : Scan.t) :
  In header (map fst (Scan.header_graph st)) ->
  frequency_of (fold_left (scan_header_include host project_root dirs header) includes st)
    h =
    frequency_of st h + Z.of_nat (length (List.filter (hit header dirs) includes)) /\
  map fst (Scan.header_graph
             (fold_left (scan_header_include host project_root dirs header) includes st)) =
    map fst (Scan.header_graph st).
Proof.
  revert st. induction includes as [|inc includes IH]; intros st Hkey;
    cbn [fold_left List.filter]; [split; [cbn [length]; lia|reflexivity]|].
  destruct (scan_header_include_frequency header st inc Hkey) as [Hf1 Hg1].
  destruct (IH (scan_header_include host project_root dirs header st inc)) as [Hf Hg];
    [rewrite Hg1; exact Hkey|].
  rewrite Hf, Hf1, Hg, Hg1. split; [|reflexivity].
  destruct (hit header dirs inc); cbn [length]; lia.
Qed.

(** What the frequency of [h] exceeds the includes of the scanned headers
    by. *)
Let residual (st : Scan.t) : Z :=
  frequency_of st h -
  total (fun s => includes_resolving_to host s dirs h) (map fst (Scan.header_graph st)).

Lemma scan_header_residual (header : Path) (rest : list Path) (st : Scan.t) :
  scan_invariant host project_root st ->
  Scan.header_queue st = header :: rest ->
  residual (scan_header host project_root dirs header (Scan.set_queue rest st)) =
  residual st.
Proof.
  intros Hinv Hqueue. unfold scan_header, residual.
  cbn [Scan.scanned_headers Scan.set_queue].
  destruct (bool_decide_reflect (header ∈ Scan.scanned_headers st)) as [Hs|Hs];
    cbn [orb]; [reflexivity|].
  destruct (path_exists host header); cbn [negb]; [|reflexivity].
  assert (Hfresh : ~ In header (map fst (Scan.header_graph st)))
    by (rewrite (graph_keys_scanned _ _ _ Hinv); exact Hs).
  pose proof (proj2 (dict_update_keys header
                       (fun v : option (gset Path) => default ∅ v)
                       (Scan.header_graph st)) Hfresh) as Hkeys.
  destruct (scan_header_includes_frequency header (_parse_includes host header)
              (Scan.mark_scanned header (_count_defines host header)
                 (Scan.set_queue rest st))) as [Hf Hg].
  { scan_fields. rewrite Hkeys. apply in_or_app. right. left. reflexivity. }
  rewrite Hf, Hg. scan_fields.
  rewrite Hkeys, total_app. unfold total at 2. cbn [map fold_right].
  unfold includes_resolving_to at 2. fold (hit header dirs).
  unfold frequency_of. scan_fields. lia.
Qed.

Lemma drain_queue_residual (fuel : nat) (st st' : Scan.t) :
  drain_queue fuel host project_root dirs st = Some st' ->
  scan_invariant host project_root st ->
  residual st' = residual st.
Proof.
  revert st. induction fuel as [|fuel IH]; intros st Hrun Hinv; cbn [drain_queue] in Hrun;
    destruct (Scan.header_queue st) as [|header rest] eqn:Hq; try discriminate.
  - injection Hrun as <-. reflexivity.
  - injection Hrun as <-. reflexivity.
  - rewrite (IH _ Hrun); [apply scan_header_residual; assumption|].
    apply scan_header_invariant; assumption.
Qed.

Lemma drain_queue_frequency (fuel : nat) (tus : list TranslationUnit.t) (st : Scan.t) :
  drain_queue fuel host project_root dirs
    (scan_translation_units host project_root tus Scan.init) = Some st ->
  frequency_of st h =
  total (fun tu => includes_resolving_to host (TranslationUnit.path tu)
                     (TranslationUnit.include_dirs tu) h) tus +
  total (fun s => includes_resolving_to host s dirs h) (map fst (Scan.header_graph st)).
Proof.
  intros Hrun.
  pose proof (drain_queue_residual fuel _ _ Hrun
                (scan_translation_units_invariant host project_root tus Scan.init
                   (scan_init_invariant host project_root))) as Hres.
  unfold residual in Hres.
  destruct (scan_translation_units_frequency tus Scan.init) as [Hf Hg].
  rewrite Hf, Hg in Hres. unfold total in Hres at 3. unfold frequency_of in Hres at 2.
  cbn in Hres. lia.
Qed.
End FrequencyCounts.

(** A scan that ends is a run of the two loops. *)
Lemma scan_project_drained (fuel : nat) (host : Host) (rt : Runtime) (cc : Path)
    (tus : list TranslationUnit.t) (st : Scan.t) :
  scan_project fuel host rt cc = Ok (tus, st) ->
  drain_queue fuel host (project_root_of host tus cc) (all_include_dirs_of host tus)
    (scan_translation_units host (project_root_of host tus cc) tus Scan.init) = Some st.
Proof.
  unfold scan_project.
  destruct (_load_compile_commands host rt cc) as [entries| |];
    cbn [mbind outcome_bind]; [|discriminate|discriminate].
  destruct (_collect_translation_units host rt entries cc) as [tus'| |];
    cbn [mbind outcome_bind]; [|discriminate|discriminate].
  destruct tus' as [|tu tus']; [discriminate|].
  destruct (drain_queue fuel host _ _ _) as [st'|] eqn:Hdrain; [|discriminate].
  intros H. injection H as <- <-. exact Hdrain.
Qed.

(** X25: what the include frequency counts. When the scan of a project
    ends, the frequency of a header is the number of include directives
    that resolve to it: those of the translation units, each resolved with
    the directories of its own command line and counted once for each entry
    of the database, and those of the scanned headers, each resolved with
    the directories of all command lines together and counted once. *)
Theorem include_frequency_counts (fuel : nat) (host : Host) (rt : Runtime) (cc : Path)
    (tus : list TranslationUnit.t) (st : Scan.t) (h : Path) :
  scan_project fuel host rt cc = Ok (tus, st) ->
  frequency_of st h =
  total (fun tu => includes_resolving_to host (TranslationUnit.path tu)
                     (TranslationUnit.include_dirs tu) h) tus +
  total (fun s => includes_resolving_to host s (all_include_dirs_of host tus) h)
    (map fst (Scan.header_graph st)).
Proof.
  intros Hscan.
  apply (drain_queue_frequency host (project_root_of host tus cc) h
           (all_include_dirs_of host tus) fuel).
  apply (scan_project_drained fuel host rt cc). exact Hscan.
Qed.

Lemma include_frequency_counts_witness :
  exists tus st,
    scan_project 20 Fixture.host Fixture.runtime "/proj/compile_commands.json" =
    Ok (tus, st) /\
    frequency_of st "/proj/include/common/config.h" =
    total (fun tu => includes_resolving_to Fixture.host (TranslationUnit.path tu)
                       (TranslationUnit.include_dirs tu) "/proj/include/common/config.h")
      tus +
    total (fun s => includes_resolving_to Fixture.host s
                      (all_include_dirs_of Fixture.host tus)
                      "/proj/include/common/config.h")
      (map fst (Scan.header_graph st)).
Proof.
  pose (r := scan_project 20 Fixture.host Fixture.runtime "/proj/compile_commands.json").
  assert (Hrun : scan_project 20 Fixture.host Fixture.runtime
                   "/proj/compile_commands.json" = r) by reflexivity.
  assert (Hcheck : match r with Ok _ => true | _ => false end = true)
    by (vm_compute; reflexivity).
  clearbody r.
  destruct r as [[tus st]| |]; [|discriminate Hcheck|discriminate Hcheck].
  exists tus, st. split; [exact Hrun|].
  apply (include_frequency_counts 20 Fixture.host Fixture.runtime
           "/proj/compile_commands.json"). exact Hrun.
Defined.

Lemma build_candidate_fields (host : Host) (project_root : Path) (st : Scan.t)
    (flagged : gset Path) (header : Path) (c : Candidate.t) :
  build_candidate host project_root st flagged header = Ok c ->
  Candidate.header c = _relative_display host header project_root /\
  Candidate.include_frequency c = frequency_of st header /\
  Candidate.macro_defines c =
    default (_count_defines host header) (PyDict.get header (Scan.macro_counts st)) /\
  Candidate.in_cycle c = bool_decide (header ∈ flagged).
Proof.
  unfold build_candidate, frequency_of. cbv zeta.
  destruct (_risk_score header _ _ _) as [risk rationale].
  destruct (_suggest_module_name host header project_root) as [name| |];
    cbn [mbind outcome_bind]; [|discriminate|discriminate].
  intros H. injection H as <-. cbn. split_and!; reflexivity.
Qed.

(** X26: what the figures of a candidate mean. Each candidate of a report
    stands for one project header found by the scan: its [header] is the
    display spelling of that header, its include frequency is the number of
    include directives of the translation units and of the scanned headers
    that resolve to the header, its macro count is the number of macro
    definitions that [_count_defines] finds in the header, and when it is
    marked as in a cycle the header lies on a cycle of the header graph. *)
Theorem candidate_figures_meaning (fuel : nat) (host : Host) (rt : Runtime)
    (iter : gset Path -> list Path) (path : string) (top : Z)
    (report : PlannerReport.t) :
  (forall (s : gset Path) x, In x (iter s) -> x ∈ s) ->
  analyze_compile_commands fuel host rt iter path top = Ok report ->
  exists tus st,
    scan_project fuel host rt (resolve host (expanduser rt (mk_path host path))) =
    Ok (tus, st) /\
    forall c, In c (PlannerReport.candidates report) ->
    exists header,
      header ∈ all_project_headers host
                 (project_root_of host tus
                    (resolve host (expanduser rt (mk_path host path)))) st /\
      Candidate.header c =
        _relative_display host header
          (project_root_of host tus (resolve host (expanduser rt (mk_path host path)))) /\
      Candidate.include_frequency c =
        total (fun tu => includes_resolving_to host (TranslationUnit.path tu)
                           (TranslationUnit.include_dirs tu) header) tus +
        total (fun s => includes_resolving_to host s (all_include_dirs_of host tus) header)
          (map fst (Scan.header_graph st)) /\
      Candidate.macro_defines c = _count_defines host header /\
      (Candidate.in_cycle c = true -> on_cycle (Scan.header_graph st) header).
Proof.
  intros Hiter Hrun.
  destruct (analyze_compile_commands_ok _ _ _ _ _ _ _ Hrun) as (tus & st & Hscan & Hrep).
  exists tus, st. split; [exact Hscan|].
  destruct (scan_project_invariant _ _ _ _ _ _ Hscan) as [Hinv _].
  destruct (assemble_report_fields _ _ _ _ _ _ _ _ Hrep)
    as (flagged & candidates & Hflag & Hbuild & ->).
  cbn [PlannerReport.candidates]. intros c Hin. apply top_candidates_in in Hin.
  destruct (build_candidates_in _ _ _ _ _ _ _ Hbuild Hin) as (header & Hheader & Hc).
  apply sorted_paths_in, Hiter in Hheader.
  destruct (build_candidate_fields _ _ _ _ _ _ Hc) as (Hname & Hfreq & Hmacro & Hcycle).
  exists header. split_and!; try assumption.
  - rewrite Hfreq.
    eapply drain_queue_frequency, scan_project_drained. exact Hscan.
  - rewrite Hmacro.
    destruct (PyDict.get header (Scan.macro_counts st)) as [m|] eqn:Hm; [|reflexivity].
    pose proof (macro_counts_exact _ _ _ Hinv) as Hexact.
    rewrite List.Forall_forall in Hexact. apply (Hexact _ (dict_get_in _ _ _ Hm)).
  - rewrite Hcycle. intros Hon. apply bool_decide_eq_true in Hon.
    apply (flagged_nodes_on_cycles iter (Scan.header_graph st) flagged header Hiter Hflag
             Hon).
Qed.

Lemma candidate_figures_meaning_witness :
  exists report tus st,
    analyze_compile_commands 20 Fixture.host Fixture.runtime GraphFixture.forwards
      "/proj/compile_commands.json" 10 = Ok report /\
    forall c, In c (PlannerReport.candidates report) ->
    exists header,
      Candidate.macro_defines c = _count_defines Fixture.host header /\
      (Candidate.in_cycle c = true -> on_cycle (Scan.header_graph st) header) /\
      header ∈ all_project_headers Fixture.host
                 (project_root_of Fixture.host tus "/proj/compile_commands.json") st.
Proof.
  pose (r := analyze_compile_commands 20 Fixture.host Fixture.runtime
               GraphFixture.forwards "/proj/compile_commands.json" 10).
  assert (Hrun : analyze_compile_commands 20 Fixture.host Fixture.runtime
                   GraphFixture.forwards "/proj/compile_commands.json" 10 = r)
    by reflexivity.
  assert (Hcheck : match r with Ok _ => true | _ => false end = true)
    by (vm_compute; reflexivity).
  clearbody r.
  destruct r as [report| |]; [|discriminate Hcheck|discriminate Hcheck].
  destruct (candidate_figures_meaning 20 Fixture.host Fixture.runtime
              GraphFixture.forwards "/proj/compile_commands.json" 10 report)
    as (tus & st & _ & Hall).
  - intros s x Hx. apply forwards_enumerates. exact Hx.
  - exact Hrun.
  - exists report, tus, st. split; [exact Hrun|].
    intros c Hc. destruct (Hall c Hc) as (header & Hhead & _ & _ & Hmacro & Hcycle).
    exists header. split; [exact Hmacro|]. split; [exact Hcycle|exact Hhead].
Defined.

(** ** Reports that do not depend on the iteration order *)

Lemma parts_lt_asym (a b : list string) :
  PathOrder.parts_lt a b = true -> PathOrder.parts_lt b a = false.
Proof.
  revert b. induction a as [|x a IH]; intros [|y b]; cbn [PathOrder.parts_lt];
    try congruence.
  rewrite (String.eqb_sym y x).
  destruct (String.eqb x y); [apply IH|apply Order.ltb_asym].
Qed.

Lemma parts_lt_connected (a b : list string) :
  PathOrder.parts_lt a b = false -> PathOrder.parts_lt b a = false -> a = b.
Proof.
  revert b. induction a as [|x a IH]; intros [|y b]; cbn [PathOrder.parts_lt];
    try congruence.
  rewrite (String.eqb_sym y x).
  destruct (String.eqb_spec x y) as [->|Hne].
  - intros H1 H2. rewrite (IH b H1 H2). reflexivity.
  - intros H1 H2. exfalso. apply Hne. apply Order.ltb_connected; assumption.
Qed.

Lemma parts_lt_trans (a b c : list string) :
  PathOrder.parts_lt a b = true -> PathOrder.parts_lt b c = true ->
  PathOrder.parts_lt a c = true.
Proof.
  revert b c. induction a as [|x a IH]; intros [|y b] [|z c]; cbn [PathOrder.parts_lt];
    try congruence.
  destruct (String.eqb_spec x y) as [Hxy|Hxy]; destruct (String.eqb_spec y z) as [Hyz|Hyz];
    destruct (String.eqb_spec x z) as [Hxz|Hxz]; try congruence.
  - apply IH.
  - intros H1 H2. pose proof (Order.ltb_trans _ _ _ H1 H2) as H13.
    subst z. rewrite Order.ltb_irrefl in H13. discriminate H13.
  - intros H1 H2. exact (Order.ltb_trans _ _ _ H1 H2).
Qed.

Lemma parts_lt_neg_trans (a b c : list string) :
  PathOrder.parts_lt b a = false -> PathOrder.parts_lt c b = false ->
  PathOrder.parts_lt c a = false.
Proof.
  intros Hba Hcb. destruct (PathOrder.parts_lt c a) eqn:Hca; [|reflexivity].
  destruct (PathOrder.parts_lt a b) eqn:Hab.
  - rewrite (parts_lt_trans c a b Hca Hab) in Hcb. discriminate.
  - assert (a = b) by (apply parts_lt_connected; assumption). subst. congruence.
Qed.

Lemma split_from_nonempty (w : list ascii) (s : string) : PathOrder.split_from w s <> [].
Proof.
  revert w. induction s as [|c s IH]; intros w; cbn [PathOrder.split_from];
    [discriminate|].
  destruct (Ascii.eqb c "/"%char); [discriminate|apply IH].
Qed.

Lemma string_of_list_ascii_snoc (l : list ascii) (c : ascii) (s : string) :
  string_of_list_ascii (l ++ [c]) +:+ s = string_of_list_ascii l +:+ String c s.
Proof.
  induction l as [|a l IH]; [reflexivity|].
  change (String a (string_of_list_ascii (l ++ [c]) +:+ s) =
          String a (string_of_list_ascii l +:+ String c s)).
  rewrite IH. reflexivity.
Qed.

Lemma str_append_empty (s : string) : s +:+ EmptyString = s.
Proof.
  induction s as [|c s IH]; [reflexivity|].
  change (String c (s +:+ EmptyString) = String c s). rewrite IH. reflexivity.
Qed.

(** The parts of a path, joined by the separator, spell the path. *)
Lemma split_from_join (w : list ascii) (s : string) :
  str_join "/" (PathOrder.split_from w s) = string_of_list_ascii (rev w) +:+ s.
Proof.
  revert w. induction s as [|c s IH]; intros w; cbn [PathOrder.split_from].
  - cbn [str_join]. rewrite str_append_empty. reflexivity.
  - destruct (Ascii.eqb_spec c "/"%char) as [->|Hc].
    + pose proof (split_from_nonempty [] s) as Hne. specialize (IH []).
      destruct (PathOrder.split_from [] s) as [|p rest]; [congruence|].
      cbn [str_join]. cbn [str_join] in IH. rewrite IH. reflexivity.
    + rewrite IH. cbn [rev]. apply string_of_list_ascii_snoc.
Qed.

Lemma parts_inj (a b : Path) : PathOrder.parts a = PathOrder.parts b -> a = b.
Proof.
  unfold PathOrder.parts. intros H.
  pose proof (split_from_join [] a) as Ha. pose proof (split_from_join [] b) as Hb.
  rewrite H in Ha. rewrite Ha in Hb. exact Hb.
Qed.

(** Sorting gives the same list for every order of the input. *)
Lemma sorted_paths_canonical (iter1 iter2 : gset Path -> list Path) (s : gset Path) :
  Permutation (iter1 s) (iter2 s) -> sorted_paths iter1 s = sorted_paths iter2 s.
Proof.
  intros Hperm. unfold sorted_paths, Py_sort.list_sort.
  assert (Hasym : forall x y, PathOrder.lt x y = true -> PathOrder.lt y x = false)
    by (intros x y; apply parts_lt_asym).
  assert (Hneg : forall x y z, PathOrder.lt y x = false -> PathOrder.lt z y = false ->
                               PathOrder.lt z x = false)
    by (intros x y z; apply parts_lt_neg_trans).
  apply (StronglySorted_perm_eq (fun x y => PathOrder.lt y x = false)).
  - intros a b _ _ Hab Hba. apply parts_inj. apply parts_lt_connected; assumption.
  - apply (stable_sort_sorted PathOrder.lt Hasym Hneg).
  - apply (stable_sort_sorted PathOrder.lt Hasym Hneg).
  - rewrite !stable_sort_perm. exact Hperm.
Qed.



(** ** The standard flag of a command line *)

Lemma lower_is_cxx20 (v : string) : _is_cxx20_or_newer (Py.lower v) = _is_cxx20_or_newer v.
Proof. unfold _is_cxx20_or_newer. cbv zeta. rewrite lower_idem. reflexivity. Qed.

(** X28: the first argument that starts with [-std=] or [/std:] decides the
    standard of a translation unit, and what comes after it is ignored,
    later standard flags included; without such an argument the standard
    is unknown, which never counts as C++20. The flag is lower-cased, and
    this does not change whether it counts as C++20 or newer. *)
Theorem extract_std_flag_first_wins (pre post : list string) (flag value : string) :
  Forall (fun token => PyStr.startswith "-std=" token = false /\
                       PyStr.startswith "/std:" token = false) pre ->
  flag = "-std=" \/ flag = "/std:" ->
  _extract_std_flag (pre ++ (flag +:+ value) :: post) = Py.lower value /\
  _is_cxx20_or_newer (_extract_std_flag (pre ++ (flag +:+ value) :: post)) =
    _is_cxx20_or_newer value /\
  _extract_std_flag pre = "unknown" /\
  _is_cxx20_or_newer (_extract_std_flag pre) = false.
Proof.
  intros Hpre Hflag.
  assert (Hskip : forall rest, _extract_std_flag (pre ++ rest) = _extract_std_flag rest).
  { intros rest. induction Hpre as [|token pre [H1 H2] _ IH]; [reflexivity|].
    cbn [app _extract_std_flag]. rewrite H1, H2. exact IH. }
  assert (Hhere : _extract_std_flag ((flag +:+ value) :: post) = Py.lower value).
  { cbn [_extract_std_flag]. unfold PyStr.startswith.
    destruct Hflag as [-> | ->].
    - rewrite prefix_append. change 5%nat with (String.length "-std=").
      rewrite str_drop_append. reflexivity.
    - assert (Hother : String.prefix "-std=" ("/std:" +:+ value) = false) by reflexivity.
      rewrite Hother, prefix_append. change 5%nat with (String.length "/std:").
      rewrite str_drop_append. reflexivity. }
  rewrite Hskip, Hhere, lower_is_cxx20.
  assert (Hnone : _extract_std_flag pre = "unknown").
  { rewrite <- (app_nil_r pre). rewrite Hskip. reflexivity. }
  rewrite Hnone. repeat split; reflexivity.
Qed.

Lemma extract_std_flag_first_wins_witness :
  _extract_std_flag ["c++"; "-std=C++11"; "-O2"; "-std=c++20"] = "c++11" /\
  _is_cxx20_or_newer
    (_extract_std_flag ["c++"; "-std=C++11"; "-O2"; "-std=c++20"]) = false.
Proof.
  destruct (extract_std_flag_first_wins ["c++"] ["-O2"; "-std=c++20"] "-std=" "C++11")
    as (Hflag & Hcxx & _).
  - repeat constructor.
  - left. reflexivity.
  - split; [exact Hflag|exact Hcxx].
Defined.
